(** * The tool registry and the session sweep of the agent orchestrator

    A shallow embedding of [src/tools/registry.js] (class [ToolRegistry]) and
    of the orchestrator object built by [initializeAgentOrchestrator]
    ([core/orchestrator.js]), with the properties the specification states
    about them.

    Conventions of the embedding.
    - A JavaScript [Map] whose iteration order is observable (the registry
      itself, which [extends Map]) is an association list in insertion
      order; the index maps and sets, only ever probed with [has]/[get], are
      stdpp's [gmap] and [gset].
    - The counters of the usage statistics are integers ([Z]).  A
      recommendation score is the rational that a binary64 number denotes:
      every operation on scores rounds its exact result to binary64
      ([binary64]).  Execution times are exact rationals; the rounding of
      their average is not part of the model.
    - [toLowerCase] is the ASCII case mapping.
    - A string field that the code only ever tests for truthiness before use
      ([id], [category], [description]) is a [string] whose empty value also
      stands for "absent"; an array field whose every use is guarded by
      [x && ...] is a list whose empty value also stands for "absent". *)

From Stdlib Require Import ZArith QArith Lia Ascii String Sorted.
From stdpp Require Import base option list gmap strings fin_maps.

Local Open Scope string_scope.

Set Warnings "-clear-no-such-hyp".

(** ** Strings *)

Definition lower_ascii (c : ascii) : ascii :=
  let n := N_of_ascii c in
  if ((65 <=? n) && (n <=? 90))%N then ascii_of_N (n + 32) else c.

Fixpoint toLowerCase (s : string) : string :=
  match s with
  | EmptyString => EmptyString
  | String c s' => String (lower_ascii c) (toLowerCase s')
  end.

(** [includes s sub] is [s.includes(sub)]: [sub] occurs in [s] as a
    contiguous substring. *)
Fixpoint includes (s sub : string) : bool :=
  String.prefix sub s ||
  match s with
  | EmptyString => false
  | String _ s' => includes s' sub
  end.

(** ** Numbers

    A JavaScript number is a binary64 value.  [binary64 x] is the binary64
    number nearest to [x], the one with the even significand when two are
    as near: the result of an arithmetic operation whose exact result is
    [x].  The significand has 53 bits; the exponent range is not modelled
    (no overflow to infinity, no gradual underflow), which is exact as long
    as no magnitude leaves the range from 2^-1022 to 2^1024. *)

(** [2 ^ k], and 1 for a negative [k]. *)
Definition pow2 (k : Z) : Z := (2 ^ Z.max 0 k)%Z.

Definition binary64 (x : Q) : Q :=
  let n := Qnum x in
  let d := Zpos (Qden x) in
  if (n =? 0)%Z then 0%Q
  else
    let a := Z.abs n in
    (* [2 ^ e <= a / d < 2 ^ (e + 1)] *)
    let e0 := (Z.log2 a - Z.log2 d)%Z in
    let e := if (a * pow2 (- e0) <? d * pow2 e0)%Z then (e0 - 1)%Z else e0 in
    (* [a / d * 2 ^ k] has 53 bits before the point *)
    let k := (52 - e)%Z in
    let num := (a * pow2 k)%Z in
    let den := (d * pow2 (- k))%Z in
    let q := (num / den)%Z in
    let rest := (num mod den)%Z in
    let m :=
      if (2 * rest <? den)%Z then q
      else if (den <? 2 * rest)%Z then (q + 1)%Z
      else if Z.even q then q else (q + 1)%Z in
    Qmake (Z.sgn n * m * pow2 (- k)) (Z.to_pos (pow2 k)).

(** ** JavaScript [Map] with observable insertion order *)

Section JSMap.
Context {V : Type}.

Fixpoint map_get (k : string) (m : list (string * V)) : option V :=
  match m with
  | [] => None
  | (k', v) :: m' => if decide (k = k') then Some v else map_get k m'
  end.

Definition map_has (k : string) (m : list (string * V)) : bool :=
  bool_decide (is_Some (map_get k m)).

(** [m.set(k, v)]: an existing key keeps its position, a new key goes
    last. *)
Fixpoint map_set (k : string) (v : V) (m : list (string * V))
  : list (string * V) :=
  match m with
  | [] => [(k, v)]
  | (k', v') :: m' =>
      if decide (k = k') then (k, v) :: m' else (k', v') :: map_set k v m'
  end.

Definition map_delete (k : string) (m : list (string * V))
  : list (string * V) :=
  filter (λ p, p.1 ≠ k) m.
End JSMap.

(** ** Data model of the registry *)

(** The [execute] property is a function object; only its identity matters
    to the registry. *)
Inductive Handler := FunctionRef (n : nat).

(** A tool definition as handed to [registerTool]: an arbitrary object, in
    which [name] and [execute] may be missing. *)
Module ToolDefinition.
Record t := mk {
  id : string;
  name : option string;
  description : string;
  category : string;
  capabilities : list string;
  keywords : list string;
  inputTypes : list string;
  outputTypes : list string;
  execute : option Handler
}.
End ToolDefinition.

(** A stored tool, the value returned by [validateToolDefinition].  The
    registry dereferences [tool.name] without a guard wherever it uses it, so
    a stored tool has a name. *)
Module Tool.
Record t := mk {
  id : string;
  name : string;
  description : string;
  category : string;
  capabilities : list string;
  keywords : list string;
  inputTypes : list string;
  outputTypes : list string;
  execute : option Handler
}.
End Tool.

Inductive ValidationError := MissingField (field : string).

Record ToolStats := mkStats {
  successCount : Z;
  failureCount : Z;
  averageExecutionTime : Q;
  totalExecutions : Z;
  lastUsed : option string
}.

(** [metadataIndex] is one JavaScript [Map] whose keys are told apart by
    their prefix: ['name:' + n] holds a tool id, ['capability:' + c] and
    ['keyword:' + k] hold sets of tool ids.  The three prefixes differ in
    their first character, so the three families never meet; each family is
    a map of its own here, keyed by what follows the prefix. *)
Record MetadataIndex := mkIndex {
  byName : gmap string string;
  byCapability : gmap string (gset string);
  byKeyword : gmap string (gset string)
}.

Record ToolRegistry := mkRegistry {
  entries : list (string * Tool.t);
  categories : gmap string (gset string);
  capabilities : gset string;
  metadataIndex : MetadataIndex;
  usageStats : gmap string ToolStats
}.

(** [new ToolRegistry()] *)
Definition emptyRegistry : ToolRegistry :=
  mkRegistry [] ∅ ∅ (mkIndex ∅ ∅ ∅) ∅.

(** The statistics [registerTool] stores for a tool. *)
Definition initialStats : ToolStats := mkStats 0 0 0 0 None.

(** [if (!idx.has(key)) idx.set(key, new Set()); idx.get(key).add(toolId)] *)
Definition index_add (key toolId : string) (idx : gmap string (gset string))
  : gmap string (gset string) :=
  <[key := {[toolId]} ∪ default ∅ (idx !! key)]> idx.

(** [if (idx.has(key)) { const tools = idx.get(key); tools.delete(toolId);
     if (tools.size === 0) idx.delete(key) }] *)
Definition index_remove (key toolId : string) (idx : gmap string (gset string))
  : gmap string (gset string) :=
  match idx !! key with
  | Some tools =>
      let tools' := tools ∖ {[toolId]} in
      if decide (size tools' = 0%nat) then delete key idx
      else <[key := tools']> idx
  | None => idx
  end.

(** What the caller passes to [findTools]; an empty string or list is an
    absent criterion (the code tests [criteria.x] for truthiness). *)
Record Criteria := mkCriteria {
  c_category : string;
  c_capability : string;
  c_keywords : list string;
  c_inputType : string;
  c_outputType : string
}.

(** The [stats] argument of [recordToolUsage]; [executionTime] is [Some d]
    exactly when [typeof stats.executionTime === 'number']. *)
Record UsageReport := mkReport {
  success : bool;
  executionTime : option Q
}.

(** The object returned by [exportData]. *)
Record ExportedData := mkExport {
  data_tools : list ToolDefinition.t;
  data_usageStats : gmap string ToolStats
}.

(** ** The operations of [ToolRegistry] *)

Section Registry.
(** [validateToolDefinition] lives in [tools/validator.js]; it is called
    with the definition alone, and either throws or returns the tool to
    store. *)
Variable validateToolDefinition :
  ToolDefinition.t → ValidationError + Tool.t.

(** [validatedTool.id || uuidv4()]; [uuid] is what [uuidv4()] returns. *)
Definition toolIdOf (validatedTool : Tool.t) (uuid : string) : string :=
  if decide (Tool.id validatedTool = "") then uuid
  else Tool.id validatedTool.

(** [registerTool] (registry.js, lines 38-96).  An error thrown inside the
    [try] block, here the one of the validation, is caught: the call returns
    [false]. *)
Definition registerTool (toolDefinition : ToolDefinition.t) (uuid : string)
    (r : ToolRegistry) : bool * ToolRegistry :=
  match validateToolDefinition toolDefinition with
  | inl _ => (false, r)
  | inr validatedTool =>
      let toolId := toolIdOf validatedTool uuid in
      (true,
       {| entries := map_set toolId validatedTool (entries r);
          categories :=
            if decide (Tool.category validatedTool = "") then categories r
            else index_add (Tool.category validatedTool) toolId
                   (categories r);
          capabilities :=
            foldl (λ acc capability, {[capability]} ∪ acc)
              (capabilities r) (Tool.capabilities validatedTool);
          metadataIndex :=
            {| byName :=
                 <[toLowerCase (Tool.name validatedTool) := toolId]>
                   (byName (metadataIndex r));
               byCapability :=
                 foldl (λ idx capability,
                          index_add (toLowerCase capability) toolId idx)
                   (byCapability (metadataIndex r))
                   (Tool.capabilities validatedTool);
               byKeyword :=
                 foldl (λ idx keyword,
                          index_add (toLowerCase keyword) toolId idx)
                   (byKeyword (metadataIndex r))
                   (Tool.keywords validatedTool) |};
          usageStats := <[toolId := initialStats]> (usageStats r) |})
  end.

(** [unregisterTool] (lines 104-170): the identifier is a tool id, or else
    a name looked up in the name index. *)
Definition unregisterTool (toolIdentifier : string) (r : ToolRegistry)
  : bool * ToolRegistry :=
  let resolved :=
    if map_has toolIdentifier (entries r) then Some toolIdentifier
    else byName (metadataIndex r) !! toLowerCase toolIdentifier in
  match resolved with
  | None => (false, r)
  | Some toolId =>
      match map_get toolId (entries r) with
      | None => (false, r)
      | Some tool =>
          (true,
           {| entries := map_delete toolId (entries r);
              categories :=
                if decide (Tool.category tool = "") then categories r
                else index_remove (Tool.category tool) toolId
                       (categories r);
              capabilities := capabilities r;
              metadataIndex :=
                {| byName :=
                     delete (toLowerCase (Tool.name tool))
                       (byName (metadataIndex r));
                   byCapability :=
                     foldl (λ idx capability,
                              index_remove (toLowerCase capability) toolId
                                idx)
                       (byCapability (metadataIndex r))
                       (Tool.capabilities tool);
                   byKeyword :=
                     foldl (λ idx keyword,
                              index_remove (toLowerCase keyword) toolId idx)
                       (byKeyword (metadataIndex r))
                       (Tool.keywords tool) |};
              usageStats := delete toolId (usageStats r) |})
      end
  end.

(** [toolIds = new Set([...toolIds].filter(id => tools.has(id)))] when the
    index has an entry for [key]; [None] stands for the early
    [return []]. *)
Definition filter_by_index (idx : gmap string (gset string)) (key : string)
    (toolIds : list string) : option (list string) :=
  match idx !! key with
  | Some tools => Some (filter (λ id, id ∈ tools) toolIds)
  | None => None
  end.

(** [tool.inputTypes && tool.inputTypes.includes(ty)], and the same for
    [outputTypes], on the result of [this.get(id)]. *)
Definition declares (types : Tool.t → list string) (ty : string)
    (tool : option Tool.t) : bool :=
  match tool with
  | Some tool => bool_decide (ty ∈ types tool)
  | None => false
  end.

(** [findTools] (lines 178-231).  The ids are filtered in the order of the
    map; the result lists the tools in that order. *)
Definition findTools (criteria : Criteria) (r : ToolRegistry)
  : list Tool.t :=
  let toolIds := (entries r).*1 in
  match (if decide (c_category criteria = "") then Some toolIds
         else filter_by_index (categories r) (c_category criteria) toolIds)
  with
  | None => []
  | Some toolIds =>
    match (if decide (c_capability criteria = "") then Some toolIds
           else filter_by_index (byCapability (metadataIndex r))
                  (toLowerCase (c_capability criteria)) toolIds)
    with
    | None => []
    | Some toolIds =>
      let toolIds :=
        foldl (λ toolIds keyword,
                 match byKeyword (metadataIndex r) !! toLowerCase keyword with
                 | Some keywordTools =>
                     filter (λ id, id ∈ keywordTools) toolIds
                 | None => toolIds
                 end)
          toolIds (c_keywords criteria) in
      let toolIds :=
        if decide (c_inputType criteria = "") then toolIds
        else filter (λ id, declares Tool.inputTypes (c_inputType criteria)
                             (map_get id (entries r)) = true)
               toolIds in
      let toolIds :=
        if decide (c_outputType criteria = "") then toolIds
        else filter (λ id, declares Tool.outputTypes (c_outputType criteria)
                             (map_get id (entries r)) = true)
               toolIds in
      omap (λ id, map_get id (entries r)) toolIds
    end
  end.

(** [recordToolUsage] (lines 257-283).  [now] is [new Date().toISOString()]
    at the time of the call.  The new average is the exact value of the
    expression of the code (its rounding to binary64 is not applied);
    [totalExecutions + 1] is not zero for statistics that started at
    [initialStats]. *)
Definition recordToolUsage (toolId : string) (stats : UsageReport)
    (now : string) (r : ToolRegistry) : bool * ToolRegistry :=
  match usageStats r !! toolId with
  | None => (false, r)
  | Some currentStats =>
      let successCount' :=
        if success stats then (successCount currentStats + 1)%Z
        else successCount currentStats in
      let failureCount' :=
        if success stats then failureCount currentStats
        else (failureCount currentStats + 1)%Z in
      let '(averageExecutionTime', totalExecutions') :=
        match executionTime stats with
        | Some executionTime =>
            let totalExecTime :=
              (averageExecutionTime currentStats
               * inject_Z (totalExecutions currentStats))%Q in
            let totalExecutions' := (totalExecutions currentStats + 1)%Z in
            (((totalExecTime + executionTime)
              / inject_Z totalExecutions')%Q,
             totalExecutions')
        | None =>
            (averageExecutionTime currentStats,
             totalExecutions currentStats)
        end in
      (true,
       {| entries := entries r;
          categories := categories r;
          capabilities := capabilities r;
          metadataIndex := metadataIndex r;
          usageStats :=
            <[toolId := mkStats successCount' failureCount'
                          averageExecutionTime' totalExecutions'
                          (Some now)]> (usageStats r) |})
  end.

Definition Qltb (x y : Q) : bool := negb (Qle_bool y x).

(** The match score of one tool (lines 301-320), before the performance
    weighting. *)
Definition matchScore (queryLower : string) (tool : Tool.t) : Z :=
  let score :=
    foldl (λ score keyword,
             if includes queryLower (toLowerCase keyword)
             then (score + 10)%Z else score)
      0%Z (Tool.keywords tool) in
  let score :=
    if includes queryLower (toLowerCase (Tool.name tool))
    then (score + 5)%Z else score in
  let score :=
    if negb (String.eqb (Tool.description tool) "")
       && includes queryLower (toLowerCase (Tool.description tool))
    then (score + 3)%Z else score in
  score.

(** The score with the weighting by success rate (lines 322-331):
    [totalUses = successCount + failureCount],
    [successRate = successCount / totalUses] and
    [score *= (0.5 + (0.5 * successRate))], each operation in binary64. *)
Definition toolScore (r : ToolRegistry) (queryLower id : string)
    (tool : Tool.t) : Q :=
  let score := inject_Z (matchScore queryLower tool) in
  match usageStats r !! id with
  | Some stats =>
      let totalUses :=
        binary64 (inject_Z (successCount stats)
                  + inject_Z (failureCount stats)) in
      if Qltb 0 totalUses then
        let successRate :=
          binary64 (inject_Z (successCount stats) / totalUses) in
        binary64 (score * binary64 ((1 # 2) + binary64 ((1 # 2) * successRate)))
      else score
  | None => score
  end.

(** [entries.sort((a, b) => b[1] - a[1])]: the sort is stable, so the
    result is the one permutation in descending score order that keeps
    equal scores in their original order; inserting each entry in front of
    the already sorted rest computes it. *)
Fixpoint insertByScore (a : string * Q) (sorted : list (string * Q))
  : list (string * Q) :=
  match sorted with
  | [] => [a]
  | b :: rest =>
      if Qltb a.2 b.2 then b :: insertByScore a rest else a :: sorted
  end.

Definition sortByScore (l : list (string * Q)) : list (string * Q) :=
  foldr insertByScore [] l.

(** The entries of [matchScores] (lines 297-336): the tools with a positive
    score, in the order of the registry. *)
Definition matchScores (query : string) (r : ToolRegistry)
  : list (string * Q) :=
  let queryLower := toLowerCase query in
  omap (λ '(id, tool),
          let score := toolScore r queryLower id tool in
          if Qltb 0 score then Some (id, score) else None)
    (entries r).

(** [getToolRecommendations] (lines 292-344); the [context] argument is not
    used by the code. *)
Definition getToolRecommendations (query : string) (r : ToolRegistry)
  : list Tool.t :=
  omap (λ '(id, _), map_get id (entries r))
    (sortByScore (matchScores query r)).

(** [const { execute, ...serializableTool } = tool;
     { ...serializableTool, id }] *)
Definition exportTool (id : string) (tool : Tool.t) : ToolDefinition.t :=
  {| ToolDefinition.id := id;
     ToolDefinition.name := Some (Tool.name tool);
     ToolDefinition.description := Tool.description tool;
     ToolDefinition.category := Tool.category tool;
     ToolDefinition.capabilities := Tool.capabilities tool;
     ToolDefinition.keywords := Tool.keywords tool;
     ToolDefinition.inputTypes := Tool.inputTypes tool;
     ToolDefinition.outputTypes := Tool.outputTypes tool;
     ToolDefinition.execute := None |}.

(** [exportData] (lines 410-426).  [Object.fromEntries(this.usageStats)] is
    an object with one property per tool id, the same map. *)
Definition exportData (r : ToolRegistry) : ExportedData :=
  {| data_tools := (λ '(id, tool), exportTool id tool) <$> entries r;
     data_usageStats := usageStats r |}.

(** The loop over [data.tools]: the state is the import count, the
    registry and the number of [registerTool] calls made so far (the
    [k]-th call draws [uuids k] from [uuidv4]). *)
Definition importTools (uuids : nat → string)
    (defs : list ToolDefinition.t) (r : ToolRegistry)
  : nat * ToolRegistry * nat :=
  foldl (λ '(importCount, r, k) toolDefinition,
           let '(ok, r') := registerTool toolDefinition (uuids k) r in
           (if ok then S importCount else importCount, r', S k))
    (0%nat, r, 0%nat) defs.

(** The loop over [Object.entries(data.usageStats)]. *)
Definition importStats (stats : gmap string ToolStats) (r : ToolRegistry)
  : ToolRegistry :=
  {| entries := entries r;
     categories := categories r;
     capabilities := capabilities r;
     metadataIndex := metadataIndex r;
     usageStats :=
       foldl (λ acc '(toolId, st),
                if map_has toolId (entries r) then <[toolId := st]> acc
                else acc)
         (usageStats r) (map_to_list stats) |}.

(** [importData] (lines 434-463).  It clears the receiver first, so the
    registry it is called on does not matter. *)
Definition importData (data : ExportedData) (uuids : nat → string)
    (_ : ToolRegistry) : nat * ToolRegistry :=
  let '(importCount, r, _) :=
    importTools uuids (data_tools data) emptyRegistry in
  (importCount, importStats (data_usageStats data) r).
End Registry.

(** Modelled from the spec: [validateToolDefinition], whose file
    [tools/validator.js] is not among the sources.  The specification says
    that registration "validates required fields ([name], [execute-handle];
    others optional)" and fails with [ValidationError] when one is missing;
    nothing is said to be rewritten, so an accepted definition is stored as
    it is. *)
Definition validateToolDefinition_spec (d : ToolDefinition.t)
  : ValidationError + Tool.t :=
  match ToolDefinition.name d, ToolDefinition.execute d with
  | None, _ => inl (MissingField "name")
  | Some _, None => inl (MissingField "execute")
  | Some n, Some h =>
      inr {| Tool.id := ToolDefinition.id d;
             Tool.name := n;
             Tool.description := ToolDefinition.description d;
             Tool.category := ToolDefinition.category d;
             Tool.capabilities := ToolDefinition.capabilities d;
             Tool.keywords := ToolDefinition.keywords d;
             Tool.inputTypes := ToolDefinition.inputTypes d;
             Tool.outputTypes := ToolDefinition.outputTypes d;
             Tool.execute := Some h |}
  end.

(** ** Example data, shared by the concrete evaluations below *)

Definition echoDefinition : ToolDefinition.t :=
  {| ToolDefinition.id := "a";
     ToolDefinition.name := Some "Echo";
     ToolDefinition.description := "";
     ToolDefinition.category := "util";
     ToolDefinition.capabilities := ["Speak"];
     ToolDefinition.keywords := ["echo"];
     ToolDefinition.inputTypes := ["text/plain"];
     ToolDefinition.outputTypes := ["text/plain"];
     ToolDefinition.execute := Some (FunctionRef 0) |}.

(** A second tool under another id whose name differs from ["Echo"] by case
    only. *)
Definition shoutDefinition : ToolDefinition.t :=
  {| ToolDefinition.id := "b";
     ToolDefinition.name := Some "echo";
     ToolDefinition.description := "";
     ToolDefinition.category := "util";
     ToolDefinition.capabilities := ["speak"];
     ToolDefinition.keywords := ["repeat"];
     ToolDefinition.inputTypes := [];
     ToolDefinition.outputTypes := [];
     ToolDefinition.execute := Some (FunctionRef 1) |}.

Definition namelessDefinition : ToolDefinition.t :=
  {| ToolDefinition.id := "c";
     ToolDefinition.name := None;
     ToolDefinition.description := "";
     ToolDefinition.category := "util";
     ToolDefinition.capabilities := [];
     ToolDefinition.keywords := [];
     ToolDefinition.inputTypes := [];
     ToolDefinition.outputTypes := [];
     ToolDefinition.execute := Some (FunctionRef 2) |}.

Definition echoTool : Tool.t :=
  {| Tool.id := "a";
     Tool.name := "Echo";
     Tool.description := "";
     Tool.category := "util";
     Tool.capabilities := ["Speak"];
     Tool.keywords := ["echo"];
     Tool.inputTypes := ["text/plain"];
     Tool.outputTypes := ["text/plain"];
     Tool.execute := Some (FunctionRef 0) |}.

(** The registry after [registerTool(echoDefinition)]. *)
Definition echoRegistry : ToolRegistry :=
  (registerTool validateToolDefinition_spec echoDefinition "uuid-0"
     emptyRegistry).2.

(** ** Predicates of the properties *)

(** [successes + failures == total invocations] for one record. *)
Definition balanced (st : ToolStats) : Prop :=
  (successCount st + failureCount st = totalExecutions st)%Z.

(** * The orchestrator ([core/orchestrator.js])

    [processQuery] awaits five collaborators (intent and entity analysis,
    planner, executor, synthesizer, session store); none of them is among
    the sources.  One call of [processQuery] is modelled for given outcomes
    of these calls, each of which either resolves to a value or rejects.
    The collaborators are handed the context object; they are taken to leave
    its [conversationHistory] and [lastUpdated] alone (in the sources only
    [processQuery] writes the history, and nothing writes [lastUpdated]).
    Queries and sweeps are taken one at a time. *)

Inductive Role := user | assistant.

Record Turn := mkTurn {
  role : Role;
  content : string;
  turnToolsUsed : option (list string);
  timestamp : string
}.

(** The value of a [lastUpdated] property as [new Date(v)] reads it:
    missing, a number of milliseconds, or a date string. *)
Inductive DateValue :=
  | DateAbsent
  | DateMillis (ms : Z)
  | DateString (s : string).

Record Intent := mkIntent { primary : string }.

Record Plan := mkPlan {
  steps : list string;
  estimatedCompletionTime : Z
}.

Record ToolRun := mkToolRun {
  toolName : string;
  toolExecutionTime : Z
}.

Record ExecutionResults := mkExecutionResults {
  outputs : list string;
  toolsUsed : list ToolRun
}.

Record Response := mkResponse {
  text : string;
  html : option string;
  sources : list string
}.

Record Error := mkError {
  code : string;
  message : string
}.

Module Context.
Record t := mk {
  id : string;
  sessionId : string;
  userId : string;
  conversationHistory : list Turn;
  currentQuery : option string;
  currentIntent : option Intent;
  currentEntities : option (list string);
  currentPlan : option Plan;
  lastExecutionResults : option ExecutionResults;
  lastUpdated : DateValue
}.
End Context.

(** An awaited call either resolves or rejects. *)
Inductive Outcome (A : Type) :=
  | Resolved (a : A)
  | Rejected (e : Error).
Arguments Resolved {A} a.
Arguments Rejected {A} e.

(** The in-memory map [activeContexts] of the orchestrator, and the
    sessions held by the persistence collaborator. *)
Record State := mkState {
  activeContexts : gmap string Context.t;
  storedSessions : gmap string Context.t
}.

(** The orchestrator returned by [initializeAgentOrchestrator], with a store
    that holds no session. *)
Definition initialState : State := mkState ∅ ∅.

(** What the outside world does during one [processQuery] call. *)
Record Run := mkRun {
  newContextId : string;          (* [uuidv4()] inside the new context *)
  newContextStamp : DateValue;    (* the [lastUpdated] of a new context *)
  retrieval : Outcome unit;       (* does [retrieveSession] answer *)
  analysis : Outcome (Intent * list string);
  planning : Outcome Plan;
  execution : Outcome ExecutionResults;
  synthesis : Outcome Response;
  storing : Outcome unit;         (* does [storeSession] answer *)
  userTurnTime : string;
  assistantTurnTime : string;
  fallbackContent : option string; (* the fallback completion, if any *)
  production : bool               (* [NODE_ENV === 'production'] *)
}.

Record QueryData := mkQueryData {
  queryText : string;
  sessionId : string;             (* after the default [uuidv4()] *)
  queryUserId : string            (* after the default ['anonymous'] *)
}.

Inductive QueryResult :=
  | Answer (sessionId text : string) (toolsUsed : list ToolRun)
  | Failure (sessionId text errorType errorMessage : string).

(** Modelled from the spec: [createToolExecutionContext] of
    [core/context.js], which is not among the sources.  "On miss again,
    instantiate a fresh Context" (4.4), which the idle-eviction scenario
    calls "a fresh (empty) Context": the turn history is empty and nothing
    of a query is recorded yet.  The id it draws from [uuidv4] is the
    argument [uuid]; what it writes into [lastUpdated], if anything, is not
    said and is the argument [stamp]. *)
Definition createToolExecutionContext (sessionId userId : string)
    (uuid : string) (stamp : DateValue) : Context.t :=
  {| Context.id := uuid;
     Context.sessionId := sessionId;
     Context.userId := userId;
     Context.conversationHistory := [];
     Context.currentQuery := None;
     Context.currentIntent := None;
     Context.currentEntities := None;
     Context.currentPlan := None;
     Context.lastExecutionResults := None;
     Context.lastUpdated := stamp |}.

(** Modelled from the spec: the persistence collaborator
    ([data/sessionManager.js], not among the sources), "[loadSession(id)] →
    Context | null, [storeSession(id, Context)] → Ok" (6): a call that
    answers reads or writes the stored sessions. *)
Definition retrieveSession (sessionId : string) (answers : Outcome unit)
    (st : State) : Outcome (option Context.t) :=
  match answers with
  | Resolved _ => Resolved (storedSessions st !! sessionId)
  | Rejected e => Rejected e
  end.

Definition storeSession (sessionId : string) (context : Context.t)
    (st : State) : State :=
  mkState (activeContexts st) (<[sessionId := context]> (storedSessions st)).

(** The context object is shared: every write to it is seen through
    [activeContexts]. *)
Definition writeContext (sessionId : string) (context : Context.t)
    (st : State) : State :=
  mkState (<[sessionId := context]> (activeContexts st)) (storedSessions st).

(** [getOrCreateContext] (lines 187-208): the context in memory, or else
    the stored session, or else a new context; a failing store is logged and
    passed over. *)
Definition getOrCreateContext (sessionId userId : string) (run : Run)
    (st : State) : Context.t * State :=
  match activeContexts st !! sessionId with
  | Some context => (context, st)
  | None =>
      match retrieveSession sessionId (retrieval run) st with
      | Resolved (Some savedSession) =>
          (savedSession, writeContext sessionId savedSession st)
      | _ =>
          let newContext :=
            createToolExecutionContext sessionId userId (newContextId run)
              (newContextStamp run) in
          (newContext, writeContext sessionId newContext st)
      end
  end.

(** [handleExecutionError] (lines 213-265): the response text, the error
    type and the user message.  [fallback] is the content of the fallback
    completion when a client is configured and the call succeeds. *)
Definition handleExecutionError (error : Error) (fallback : option string)
  : string * string * string :=
  let '(errorType, userMessage) :=
    if String.eqb (code error) "TOOL_EXECUTION_FAILED" then
      ("tool_failure",
       "I had trouble using one of my tools to answer your question.")
    else if String.eqb (code error) "CONTEXT_LIMIT_EXCEEDED" then
      ("context_limit",
       "Your question is too complex for me to handle at once.")
    else if String.eqb (code error) "RATE_LIMIT_EXCEEDED" then
      ("rate_limit",
       "I'm currently handling too many requests. Please try again shortly.")
    else if String.eqb (code error) "INVALID_REQUEST" then
      ("invalid_request", "I couldn't understand your request properly.")
    else ("general", "I encountered an issue while processing your request.")
  in
  let responseText :=
    if String.eqb errorType "tool_failure" || String.eqb errorType "general"
    then match fallback with
         | Some content => userMessage +:+ " " +:+ content
         | None => userMessage
         end
    else userMessage in
  (responseText, errorType, userMessage).

(** The [catch] block of [processQuery]. *)
Definition failQuery (sessionId : string) (error : Error) (run : Run)
    (st : State) : QueryResult * State :=
  let '(responseText, errorType, userMessage) :=
    handleExecutionError error (fallbackContent run) in
  (Failure sessionId responseText errorType
     (if production run then userMessage else message error), st).

Definition setCurrentQuery (text : string) (c : Context.t) : Context.t :=
  Context.mk (Context.id c) (Context.sessionId c) (Context.userId c)
    (Context.conversationHistory c)
    (Some text) (Context.currentIntent c) (Context.currentEntities c)
    (Context.currentPlan c) (Context.lastExecutionResults c)
    (Context.lastUpdated c).

Definition setAnalysis (intent : Intent) (entities : list string)
    (c : Context.t) : Context.t :=
  Context.mk (Context.id c) (Context.sessionId c) (Context.userId c)
    (Context.conversationHistory c)
    (Context.currentQuery c) (Some intent) (Some entities)
    (Context.currentPlan c) (Context.lastExecutionResults c)
    (Context.lastUpdated c).

Definition setCurrentPlan (plan : Plan) (c : Context.t) : Context.t :=
  Context.mk (Context.id c) (Context.sessionId c) (Context.userId c)
    (Context.conversationHistory c)
    (Context.currentQuery c) (Context.currentIntent c)
    (Context.currentEntities c) (Some plan) (Context.lastExecutionResults c)
    (Context.lastUpdated c).

Definition setLastExecutionResults (results : ExecutionResults)
    (c : Context.t) : Context.t :=
  Context.mk (Context.id c) (Context.sessionId c) (Context.userId c)
    (Context.conversationHistory c)
    (Context.currentQuery c) (Context.currentIntent c)
    (Context.currentEntities c) (Context.currentPlan c) (Some results)
    (Context.lastUpdated c).

(** [context.conversationHistory.push(turn)] *)
Definition pushTurn (turn : Turn) (c : Context.t) : Context.t :=
  Context.mk (Context.id c) (Context.sessionId c) (Context.userId c)
    (Context.conversationHistory c ++ [turn])%list
    (Context.currentQuery c) (Context.currentIntent c)
    (Context.currentEntities c) (Context.currentPlan c)
    (Context.lastExecutionResults c) (Context.lastUpdated c).

(** [processQuery] (lines 55-182).  The messages to the optional socket and
    the deferred tool evaluation of step 7 do not touch the state and are
    left out. *)
Definition processQuery (queryData : QueryData) (run : Run) (st : State)
  : QueryResult * State :=
  let sid := sessionId queryData in
  (* Step 1 *)
  let '(context, st) :=
    getOrCreateContext sid (queryUserId queryData) run st in
  let context := setCurrentQuery (queryText queryData) context in
  let st := writeContext sid context st in
  (* Step 2 *)
  match analysis run with
  | Rejected error => failQuery sid error run st
  | Resolved (intent, entities) =>
    let context := setAnalysis intent entities context in
    let st := writeContext sid context st in
    (* Step 3 *)
    match planning run with
    | Rejected error => failQuery sid error run st
    | Resolved plan =>
      let context := setCurrentPlan plan context in
      let st := writeContext sid context st in
      (* Step 4 *)
      match execution run with
      | Rejected error => failQuery sid error run st
      | Resolved executionResults =>
        let context := setLastExecutionResults executionResults context in
        let st := writeContext sid context st in
        (* Step 5 *)
        match synthesis run with
        | Rejected error => failQuery sid error run st
        | Resolved response =>
          (* Step 6 *)
          let context :=
            pushTurn (mkTurn user (queryText queryData) None
                        (userTurnTime run)) context in
          let context :=
            pushTurn (mkTurn assistant (text response)
                        (Some (toolName <$> toolsUsed executionResults))
                        (assistantTurnTime run)) context in
          let st := writeContext sid context st in
          (* Step 8 *)
          match storing run with
          | Rejected error => failQuery sid error run st
          | Resolved _ =>
            (Answer sid (text response) (toolsUsed executionResults),
             storeSession sid context st)
          end
        end
      end
    end
  end.

(** ** The idle sweep *)

Section Sweep.
(** [Date.parse], on a date string that is not empty: the time value, or
    [None] for an invalid date ([NaN]). *)
Variable Date_parse : string → option Z.

(** [new Date(context.lastUpdated || 0).getTime()]; [None] is [NaN].  A
    time value beyond 8.64e15 ms in magnitude makes an invalid date. *)
Definition lastUpdatedTime (v : DateValue) : option Z :=
  match v with
  | DateAbsent => Some 0%Z
  | DateMillis ms =>
      if (Z.abs ms <=? 8640000000000000)%Z then Some ms else None
  | DateString s => if String.eqb s "" then Some 0%Z else Date_parse s
  end.

(** [now - lastUpdated > maxAgeMs]; a comparison with [NaN] is false. *)
Definition isIdle (maxAgeMs now : Z) (context : Context.t) : bool :=
  match lastUpdatedTime (Context.lastUpdated context) with
  | Some lastUpdated => (maxAgeMs <? now - lastUpdated)%Z
  | None => false
  end.

(** [cleanupIdleContexts] (lines 297-314).  [now] is [Date.now()] at the
    start of the sweep.  Deleting the entry under the cursor does not
    disturb the iteration of a [Map]: every entry is visited once. *)
Definition cleanupIdleContexts (maxAgeMs now : Z) (st : State)
  : nat * State :=
  let '(active, cleanedCount) :=
    foldl (λ '(active, cleanedCount) '(sessionId, context),
             if isIdle maxAgeMs now context
             then (delete sessionId active, S cleanedCount)
             else (active, cleanedCount))
      (activeContexts st, 0%nat) (map_to_list (activeContexts st)) in
  (cleanedCount, mkState active (storedSessions st)).

(** The default of the parameter [maxAgeMs]. *)
Definition defaultMaxAgeMs : Z := 30 * 60 * 1000.

(** The period handed to [setInterval] (lines 318-320). *)
Definition cleanupIntervalMs : Z := 15 * 60 * 1000.

(** The callback of the timer: [orchestrator.cleanupIdleContexts()]. *)
Definition timerCallback (now : Z) (st : State) : State :=
  (cleanupIdleContexts defaultMaxAgeMs now st).2.

(** The [k]-th firing of a timer armed at [start], in milliseconds. *)
Definition timerFiresAt (start : Z) (k : nat) : Z :=
  (start + (Z.of_nat k + 1) * cleanupIntervalMs)%Z.

(** ** Runs of the orchestrator *)

Inductive Event :=
  | Query (queryData : QueryData) (run : Run)
  | Cleanup (maxAgeMs now : Z)
  | TimerTick (now : Z).

Definition stepEvent (ev : Event) (st : State) : State :=
  match ev with
  | Query queryData run => (processQuery queryData run st).2
  | Cleanup maxAgeMs now => (cleanupIdleContexts maxAgeMs now st).2
  | TimerTick now => timerCallback now st
  end.

Definition runEvents (events : list Event) (st : State) : State :=
  foldl (λ st ev, stepEvent ev st) st events.
End Sweep.

(** ** Turn histories *)

Definition otherRole (r : Role) : Role :=
  match r with user => assistant | assistant => user end.

(** The roles alternate strictly, the first turn being [expected]'s. *)
Fixpoint alternatesFrom (expected : Role) (h : list Turn) : Prop :=
  match h with
  | [] => True
  | turn :: h' =>
      role turn = expected ∧ alternatesFrom (otherRole expected) h'
  end.

(** user, assistant, user, ... *)
Definition alternating (h : list Turn) : Prop := alternatesFrom user h.

(** A history made of whole exchanges: a user turn, then the assistant's. *)
Fixpoint exchanges (h : list Turn) : Prop :=
  match h with
  | [] => True
  | u :: a :: h' => role u = user ∧ role a = assistant ∧ exchanges h'
  | _ => False
  end.

(** Every context, in memory or stored, holds whole exchanges. *)
Definition settled (st : State) : Prop :=
  (∀ sid c, activeContexts st !! sid = Some c →
            exchanges (Context.conversationHistory c))
  ∧ (∀ sid c, storedSessions st !! sid = Some c →
              exchanges (Context.conversationHistory c)).

(** ** Example runs *)

Definition helloQuery : QueryData := mkQueryData "please echo hello" "s1" "ann".

Definition goodRun : Run :=
  {| newContextId := "ctx-1";
     newContextStamp := DateAbsent;
     retrieval := Resolved ();
     analysis := Resolved (mkIntent "echo", ["hello"]);
     planning := Resolved (mkPlan ["Echo"] 10);
     execution := Resolved (mkExecutionResults ["hello"] [mkToolRun "Echo" 3]);
     synthesis := Resolved (mkResponse "hello" None []);
     storing := Resolved ();
     userTurnTime := "2024-01-01T00:00:00.000Z";
     assistantTurnTime := "2024-01-01T00:00:01.000Z";
     fallbackContent := None;
     production := false |}.

(** The same run, with an executor that fails. *)
Definition failingRun : Run :=
  {| newContextId := "ctx-2";
     newContextStamp := DateAbsent;
     retrieval := Resolved ();
     analysis := Resolved (mkIntent "echo", ["hello"]);
     planning := Resolved (mkPlan ["Echo"] 10);
     execution := Rejected (mkError "TOOL_EXECUTION_FAILED" "boom");
     synthesis := Resolved (mkResponse "hello" None []);
     storing := Resolved ();
     userTurnTime := "2024-01-01T00:10:00.000Z";
     assistantTurnTime := "2024-01-01T00:10:01.000Z";
     fallbackContent := Some "Sorry.";
     production := true |}.

(** A date parser that knows no date. *)
Definition noDate (s : string) : option Z := None.

(** An orchestrator with three contexts in memory: one stamped an hour
    before 1.7·10^12 ms, one stamped a minute before, and one stamped with
    a string that is not a date. *)
Definition stampedState : State :=
  mkState
    {[ "old" := createToolExecutionContext "old" "ann" "ctx-old"
                  (DateMillis 1699996400000);
       "new" := createToolExecutionContext "new" "ann" "ctx-new"
                  (DateMillis 1699999940000);
       "odd" := createToolExecutionContext "odd" "ann" "ctx-odd"
                  (DateString "yesterday") ]}
    ∅.

(** [findTools({})] *)
Definition noCriteria : Criteria := mkCriteria "" "" [] "" "".

(** ** The ranking of [getToolRecommendations] *)

(** The score of a registry entry for a query. *)
Definition entryScore (r : ToolRegistry) (query : string)
    (e : string * Tool.t) : Q :=
  toolScore r (toLowerCase query) e.1 e.2.

(** The stable descending sort of [insertByScore], for any carrier. *)
Section RankBy.
Context {A : Type} (score : A → Q).

Fixpoint insertBy (a : A) (sorted : list A) : list A :=
  match sorted with
  | [] => [a]
  | b :: rest =>
      if Qltb (score a) (score b) then b :: insertBy a rest else a :: sorted
  end.

Definition sortBy (l : list A) : list A := foldr insertBy [] l.
End RankBy.

(** A list of scores that never increases. *)
Definition descending (l : list Q) : Prop :=
  StronglySorted (λ x y : Q, (y <= x)%Q) l.

#[local] Instance Qeq_decision (x y : Q) : Decision (x == y)%Q := Qeq_dec x y.

#[local] Instance Qlt_decision (x y : Q) : Decision (x < y)%Q :=
  match Qlt_le_dec x y with
  | left H => left H
  | right H => right (Qle_not_lt _ _ H)
  end.

(** The match score of [getToolRecommendations] in closed form. *)
Definition closedMatchScore (queryLower : string) (tool : Tool.t) : Z :=
  (10 * Z.of_nat
          (length (filter (λ keyword,
                             includes queryLower (toLowerCase keyword) = true)
                     (Tool.keywords tool)))
   + (if includes queryLower (toLowerCase (Tool.name tool)) then 5 else 0)
   + (if negb (String.eqb (Tool.description tool) "")
         && includes queryLower (toLowerCase (Tool.description tool))
      then 3 else 0))%Z.

(** The counters are integers that a binary64 number holds exactly
    ([Number.MAX_SAFE_INTEGER] is 2^53 - 1).  For such counters no score
    comes near the ends of the exponent range, and [binary64] rounds as
    the arithmetic of the code does. *)
Definition safeCounters (r : ToolRegistry) : Prop :=
  map_Forall (λ _ st, (Z.abs (successCount st) <= 2 ^ 53)%Z
                      ∧ (Z.abs (failureCount st) <= 2 ^ 53)%Z)
    (usageStats r).

(** ** The recommendation as the specification words it

    "+10 per keyword substring match against query (case-folded), +5 if
    query contains tool name (case-folded), +3 if query contains any 3-gram
    of description, final score multiplied by
    0.5 + 0.5 · (successes / max(1, successes+failures)); sort descending;
    ties broken by higher success-rate, then lexicographic name; zero-score
    tools are omitted." *)

Fixpoint trigrams (s : string) : list string :=
  match s with
  | String a (String b (String c _) as s') =>
      String a (String b (String c EmptyString)) :: trigrams s'
  | _ => []
  end.

Definition specSuccessRate (r : ToolRegistry) (id : string) : Q :=
  match usageStats r !! id with
  | Some st =>
      (inject_Z (successCount st)
       / inject_Z (Z.max 1 (successCount st + failureCount st)))%Q
  | None => 0%Q
  end.

Definition specMatchScore (queryLower : string) (tool : Tool.t) : Z :=
  (10 * Z.of_nat
          (length (filter (λ keyword,
                             includes queryLower (toLowerCase keyword) = true)
                     (Tool.keywords tool)))
   + (if includes queryLower (toLowerCase (Tool.name tool)) then 5 else 0)
   + (if existsb (includes queryLower)
           (trigrams (toLowerCase (Tool.description tool)))
      then 3 else 0))%Z.

Definition specScore (r : ToolRegistry) (query : string)
    (e : string * Tool.t) : Q :=
  (inject_Z (specMatchScore (toLowerCase query) e.2)
   * ((1 # 2) + (1 # 2) * specSuccessRate r e.1))%Q.

(** [specPrecedes r query a b]: [a] is ranked strictly before [b]. *)
Definition specPrecedes (r : ToolRegistry) (query : string)
    (a b : string * Tool.t) : bool :=
  Qltb (specScore r query b) (specScore r query a)
  || (Qeq_bool (specScore r query a) (specScore r query b)
      && (Qltb (specSuccessRate r b.1) (specSuccessRate r a.1)
          || (Qeq_bool (specSuccessRate r a.1) (specSuccessRate r b.1)
              && String.ltb (Tool.name a.2) (Tool.name b.2)))).

Fixpoint specInsert (r : ToolRegistry) (query : string)
    (a : string * Tool.t) (sorted : list (string * Tool.t))
  : list (string * Tool.t) :=
  match sorted with
  | [] => [a]
  | b :: rest =>
      if specPrecedes r query b a then b :: specInsert r query a rest
      else a :: sorted
  end.

Definition specRecommend (query : string) (r : ToolRegistry) : list Tool.t :=
  (foldr (specInsert r query) []
     (filter (λ e, Qltb 0 (specScore r query e) = true) (entries r))).*2.

(** ** Example registries for the recommendation *)

Definition plainDefinition (id name description : string)
    (keywords : list string) : ToolDefinition.t :=
  {| ToolDefinition.id := id;
     ToolDefinition.name := Some name;
     ToolDefinition.description := description;
     ToolDefinition.category := "";
     ToolDefinition.capabilities := [];
     ToolDefinition.keywords := keywords;
     ToolDefinition.inputTypes := [];
     ToolDefinition.outputTypes := [];
     ToolDefinition.execute := Some (FunctionRef 0) |}.

Definition plainTool (id name description : string) (keywords : list string)
  : Tool.t :=
  {| Tool.id := id;
     Tool.name := name;
     Tool.description := description;
     Tool.category := "";
     Tool.capabilities := [];
     Tool.keywords := keywords;
     Tool.inputTypes := [];
     Tool.outputTypes := [];
     Tool.execute := Some (FunctionRef 0) |}.

Definition registerAll (defs : list ToolDefinition.t) : ToolRegistry :=
  foldl (λ r d, (registerTool validateToolDefinition_spec d "uuid" r).2)
    emptyRegistry defs.

(** One tool, matched by its description only. *)
Definition weatherRegistry : ToolRegistry :=
  registerAll [plainDefinition "w" "WX" "weather forecast" []].

(** Two unused tools with the same keyword, ["beta"] registered first. *)
Definition tieRegistry : ToolRegistry :=
  registerAll [plainDefinition "1" "beta" "" ["echo"];
               plainDefinition "2" "alpha" "" ["echo"]].

(** Two tools with the same keyword; ["used"] has one success and one
    failure on record, ["fresh"] has never run. *)
Definition usedRegistry : ToolRegistry :=
  (recordToolUsage "2" (mkReport false None) "2024-01-02"
     (recordToolUsage "2" (mkReport true None) "2024-01-01"
        (registerAll [plainDefinition "1" "fresh" "" ["echo"];
                      plainDefinition "2" "used" "" ["echo"]])).2).2.

(** [recordToolUsage(toolId, {success})] for each of the outcomes. *)
Definition recordOutcomes (toolId : string) (outcomes : list bool)
    (r : ToolRegistry) : ToolRegistry :=
  foldl (λ r ok, (recordToolUsage toolId (mkReport ok None) "2024-01-01" r).2)
    r outcomes.

(** Two tools whose scores for ["pick alpha me"] are both 40/7 before
    rounding: ["zed"] matches by a keyword (10) and has succeeded once in
    seven uses, ["alpha"] matches by name and description (8) and has
    succeeded three times in seven. *)
Definition roundedRegistry : ToolRegistry :=
  recordOutcomes "2" [true; true; true; false; false; false; false]
    (recordOutcomes "1" [true; false; false; false; false; false; false]
       (registerAll [plainDefinition "1" "zed" "" ["pick"];
                     plainDefinition "2" "alpha" "me" []])).

(** ** Coherence of the indices with the primary map *)

(** [id] is listed under [key] in a set-valued index. *)
Definition listed (idx : gmap string (gset string)) (key id : string) : Prop :=
  id ∈ default ∅ (idx !! key).

#[local] Instance listed_dec (idx : gmap string (gset string))
    (key id : string) : Decision (listed idx key id).
Proof. unfold listed. apply _. Defined.

(** An index is coherent for a family of own keys when [id] is found under
    [key] exactly if [id] is a tool of the map and [key] is one of its own
    keys: no entry leads outside the map or to a foreign tool, and every
    tool is reached under each of its keys. *)
Definition coherentIndex (r : ToolRegistry)
    (found : string → string → Prop) (own : string → Tool.t → Prop) : Prop :=
  ∀ key id,
    found key id ↔ ∃ tool, map_get id (entries r) = Some tool ∧ own key tool.

Definition ownName (key : string) (tool : Tool.t) : Prop :=
  toLowerCase (Tool.name tool) = key.

Definition ownCategory (key : string) (tool : Tool.t) : Prop :=
  Tool.category tool = key ∧ key ≠ "".

Definition ownCapability (key : string) (tool : Tool.t) : Prop :=
  key ∈ toLowerCase <$> Tool.capabilities tool.

Definition ownKeyword (key : string) (tool : Tool.t) : Prop :=
  key ∈ toLowerCase <$> Tool.keywords tool.

Definition coherent (r : ToolRegistry) : Prop :=
  coherentIndex r (λ key id, byName (metadataIndex r) !! key = Some id) ownName
  ∧ coherentIndex r (listed (categories r)) ownCategory
  ∧ coherentIndex r (listed (byCapability (metadataIndex r))) ownCapability
  ∧ coherentIndex r (listed (byKeyword (metadataIndex r))) ownKeyword.

(** ** Sequences of registrations and unregistrations *)

Inductive RegistryOp :=
  | Register (toolDefinition : ToolDefinition.t) (uuid : string)
  | Unregister (toolIdentifier : string).

Section Traces.
Variable validateToolDefinition : ToolDefinition.t → ValidationError + Tool.t.

Definition applyOp (op : RegistryOp) (r : ToolRegistry) : ToolRegistry :=
  match op with
  | Register toolDefinition uuid =>
      (registerTool validateToolDefinition toolDefinition uuid r).2
  | Unregister toolIdentifier => (unregisterTool toolIdentifier r).2
  end.

Definition runOps (ops : list RegistryOp) (r : ToolRegistry) : ToolRegistry :=
  foldl (λ r op, applyOp op r) r ops.

(** A registration is new when the definition is rejected, or when the tool
    comes under an id that is not in the map and under a name that no tool
    of the map has, case aside. *)
Definition newRegistration (toolDefinition : ToolDefinition.t) (uuid : string)
    (r : ToolRegistry) : bool :=
  match validateToolDefinition toolDefinition with
  | inl _ => true
  | inr tool =>
      negb (map_has (toolIdOf tool uuid) (entries r))
      && forallb (λ e, negb (String.eqb (toLowerCase (Tool.name e.2))
                              (toLowerCase (Tool.name tool))))
           (entries r)
  end.

(** Every registration of the sequence is new at the time it is made. *)
Fixpoint newRegistrations (ops : list RegistryOp) (r : ToolRegistry) : bool :=
  match ops with
  | [] => true
  | op :: ops' =>
      match op with
      | Register toolDefinition uuid => newRegistration toolDefinition uuid r
      | Unregister _ => true
      end
      && newRegistrations ops' (applyOp op r)
  end.
End Traces.

(** The same tool as [echoDefinition], under the same id, moved to another
    category. *)
Definition movedEchoDefinition : ToolDefinition.t :=
  {| ToolDefinition.id := "a";
     ToolDefinition.name := Some "Echo";
     ToolDefinition.description := "";
     ToolDefinition.category := "audio";
     ToolDefinition.capabilities := ["Speak"];
     ToolDefinition.keywords := ["echo"];
     ToolDefinition.inputTypes := ["text/plain"];
     ToolDefinition.outputTypes := ["text/plain"];
     ToolDefinition.execute := Some (FunctionRef 0) |}.

(** ** What [findTools] selects *)

(** The entry passes every supplied criterion, as [findTools] tests it: the
    category and the capability through their index, each keyword through
    the keyword index if that index has an entry for it, the types through
    the tool itself. *)
Definition selects (criteria : Criteria) (r : ToolRegistry)
    (e : string * Tool.t) : Prop :=
  (c_category criteria = ""
   ∨ listed (categories r) (c_category criteria) e.1)
  ∧ (c_capability criteria = ""
     ∨ listed (byCapability (metadataIndex r))
         (toLowerCase (c_capability criteria)) e.1)
  ∧ Forall (λ keyword,
              byKeyword (metadataIndex r) !! toLowerCase keyword = None
              ∨ listed (byKeyword (metadataIndex r)) (toLowerCase keyword) e.1)
      (c_keywords criteria)
  ∧ (c_inputType criteria = "" ∨ c_inputType criteria ∈ Tool.inputTypes e.2)
  ∧ (c_outputType criteria = ""
     ∨ c_outputType criteria ∈ Tool.outputTypes e.2).

#[local] Instance selects_dec (criteria : Criteria) (r : ToolRegistry)
    (e : string * Tool.t) : Decision (selects criteria r e).
Proof. unfold selects. apply _. Defined.

(** ** The round trip through [exportData] and [importData] *)

(** What a tool becomes when its exported definition is stored as it is:
    the map key as its id, and no handler. *)
Definition withoutHandler (e : string * Tool.t) : string * Tool.t :=
  (e.1,
   {| Tool.id := e.1;
      Tool.name := Tool.name e.2;
      Tool.description := Tool.description e.2;
      Tool.category := Tool.category e.2;
      Tool.capabilities := Tool.capabilities e.2;
      Tool.keywords := Tool.keywords e.2;
      Tool.inputTypes := Tool.inputTypes e.2;
      Tool.outputTypes := Tool.outputTypes e.2;
      Tool.execute := None |}).

(** The definition, stored as it is. *)
Definition asGiven (d : ToolDefinition.t) (name : string) : Tool.t :=
  {| Tool.id := ToolDefinition.id d;
     Tool.name := name;
     Tool.description := ToolDefinition.description d;
     Tool.category := ToolDefinition.category d;
     Tool.capabilities := ToolDefinition.capabilities d;
     Tool.keywords := ToolDefinition.keywords d;
     Tool.inputTypes := ToolDefinition.inputTypes d;
     Tool.outputTypes := ToolDefinition.outputTypes d;
     Tool.execute := ToolDefinition.execute d |}.

(** The usage statistics are those of the tools of the map. *)
Definition statsForTools (r : ToolRegistry) : Prop :=
  ∀ id, is_Some (usageStats r !! id) ↔ is_Some (map_get id (entries r)).

(** The state of the import loop after the entries [seen] of the exported
    registry, when their definitions are stored as they are. *)
Definition imported (seen : list (string * Tool.t)) (r : ToolRegistry) : Prop :=
  entries r = withoutHandler <$> seen ∧ coherent r ∧ statsForTools r.

(** A validation that asks for the name only; it shows that the premise of
    the round trip without handlers can be met. *)
Definition validateNameOnly (d : ToolDefinition.t) : ValidationError + Tool.t :=
  match ToolDefinition.name d with
  | None => inl (MissingField "name")
  | Some n => inr (asGiven d n)
  end.

(** A registry with two tools, one of them used, for the round trip. *)
Definition roundTripRegistry : ToolRegistry :=
  (recordToolUsage "a" (mkReport true (Some (120 # 1))) "2024-01-01"
     (runOps validateToolDefinition_spec
        [Register echoDefinition "uuid-0";
         Register (plainDefinition "" "Alpha" "first letter" ["a"; "alpha"])
           "uuid-1"] emptyRegistry)).2.

(** * The rest of the registry and the simple orchestrator

    The operations of [ToolRegistry] that list and load, the orchestrator of
    [createSimpleOrchestrator], and the predicates of the further
    properties.

    - An array whose order the properties do not read ([getAllCategories],
      [getAllCapabilities]) is the set of its elements.
    - What the file system answers to [loadFromDirectory] is data: whether
      the directory can be accessed and listed, and for each file name what
      reading it gives.
    - What awaiting the handler of a tool gives is a parameter. *)

(** ** Listing the categories and the capabilities *)

(** [getAllCategories] (registry.js, lines 238-240): the keys of the
    category map.  A key occurs once in the array; the array is given by
    the set of its elements. *)
Definition getAllCategories (r : ToolRegistry) : gset string :=
  dom (categories r).

(** [getAllCapabilities] (lines 247-249): the elements of the capability
    set, as [registerTool] spelled them. *)
Definition getAllCapabilities (r : ToolRegistry) : gset string :=
  capabilities r.

(** ** Loading a directory of definitions *)

(** [s.endsWith(suffix)] *)
Definition endsWith (s suffix : string) : bool :=
  (String.length suffix <=? String.length s)%nat
  && String.eqb
       (substring (String.length s - String.length suffix)
          (String.length suffix) s)
       suffix.

(** What reading one file gives: [fs.readFile] with [JSON.parse], or the
    dynamic [import], either throws or yields a definition. *)
Inductive FileContent :=
  | Unloadable (e : Error)
  | Loaded (toolDefinition : ToolDefinition.t).

(** What the file system answers for a directory: [fs.access] rejects, or
    [fs.readdir] rejects, or the directory lists its files. *)
Inductive Directory :=
  | NotAccessible
  | NotListable (e : Error)
  | Files (files : list (string * FileContent)).

Section Loading.
Variable validateToolDefinition : ToolDefinition.t → ValidationError + Tool.t.

(** The loop over the files of [loadFromDirectory]: the state is the count
    of loaded tools, the registry and the number of [registerTool] calls
    made so far. *)
Definition loadFiles (uuids : nat → string)
    (files : list (string * FileContent)) (r : ToolRegistry)
  : nat * ToolRegistry * nat :=
  foldl (λ '(loadedCount, r, k) '(file, content),
           if endsWith file ".js" || endsWith file ".json" then
             match content with
             | Loaded toolDefinition =>
                 let '(ok, r') :=
                   registerTool validateToolDefinition toolDefinition
                     (uuids k) r in
                 (if ok then S loadedCount else loadedCount, r', S k)
             | Unloadable _ => (loadedCount, r, k)
             end
           else (loadedCount, r, k))
    (0%nat, r, 0%nat) files.

(** [loadFromDirectory] (lines 352-403).  A directory that cannot be
    accessed loads nothing; an error of [fs.readdir] is thrown again. *)
Definition loadFromDirectory (directory : Directory) (uuids : nat → string)
    (r : ToolRegistry) : Outcome (nat * ToolRegistry) :=
  match directory with
  | NotAccessible => Resolved (0%nat, r)
  | NotListable e => Rejected e
  | Files files =>
      let '(loadedCount, r', _) := loadFiles uuids files r in
      Resolved (loadedCount, r')
  end.

(** ** Every call that changes a registry *)

Inductive RegistryCall :=
  | CallRegisterTool (toolDefinition : ToolDefinition.t) (uuid : string)
  | CallUnregisterTool (toolIdentifier : string)
  | CallRecordToolUsage (toolId : string) (stats : UsageReport) (now : string)
  | CallImportData (data : ExportedData) (uuids : nat → string)
  | CallLoadFromDirectory (directory : Directory) (uuids : nat → string).

Definition applyCall (call : RegistryCall) (r : ToolRegistry) : ToolRegistry :=
  match call with
  | CallRegisterTool toolDefinition uuid =>
      (registerTool validateToolDefinition toolDefinition uuid r).2
  | CallUnregisterTool toolIdentifier => (unregisterTool toolIdentifier r).2
  | CallRecordToolUsage toolId stats now =>
      (recordToolUsage toolId stats now r).2
  | CallImportData data uuids =>
      (importData validateToolDefinition data uuids r).2
  | CallLoadFromDirectory directory uuids =>
      match loadFromDirectory directory uuids r with
      | Resolved (_, r') => r'
      | Rejected _ => r
      end
  end.

Definition runCalls (calls : list RegistryCall) (r : ToolRegistry)
  : ToolRegistry :=
  foldl (λ r call, applyCall call r) r calls.
End Loading.

(** [registerTool] takes the definition: its validation does not throw. *)
Definition accepts
    (validateToolDefinition : ToolDefinition.t → ValidationError + Tool.t)
    (toolDefinition : ToolDefinition.t) : bool :=
  if validateToolDefinition toolDefinition is inr _ then true else false.

(** The definitions that the files of a directory hold, in the order of the
    listing: those of the [.js] and [.json] files that load. *)
Definition loadableDefinitions (files : list (string * FileContent))
  : list ToolDefinition.t :=
  omap (λ '(file, content),
          if endsWith file ".js" || endsWith file ".json" then
            match content with
            | Loaded toolDefinition => Some toolDefinition
            | Unloadable _ => None
            end
          else None)
    files.

(** ** Predicates on registries *)

(** Every tool of the map is listed under its category, under each of its
    capabilities and under each of its keywords. *)
Definition reachesTools (r : ToolRegistry) : Prop :=
  ∀ id tool,
    map_get id (entries r) = Some tool →
    (Tool.category tool ≠ "" →
     listed (categories r) (Tool.category tool) id)
    ∧ (∀ capability, capability ∈ Tool.capabilities tool →
         listed (byCapability (metadataIndex r)) (toLowerCase capability) id)
    ∧ (∀ keyword, keyword ∈ Tool.keywords tool →
         listed (byKeyword (metadataIndex r)) (toLowerCase keyword) id).

(** No key of the index holds an empty set. *)
Definition inhabited (idx : gmap string (gset string)) : Prop :=
  ∀ key tools, idx !! key = Some tools → tools ≠ ∅.

(** The capabilities of the tools of the map are in the capability set. *)
Definition capabilitiesKnown (r : ToolRegistry) : Prop :=
  ∀ id tool capability,
    map_get id (entries r) = Some tool →
    capability ∈ Tool.capabilities tool → capability ∈ capabilities r.

(** What every call keeps: the keys of the map are distinct, the usage
    statistics are those of the tools of the map, every tool is reached
    through the indices, and no index holds an empty set. *)
Definition consistent (r : ToolRegistry) : Prop :=
  NoDup (entries r).*1
  ∧ statsForTools r
  ∧ reachesTools r
  ∧ capabilitiesKnown r
  ∧ inhabited (categories r)
  ∧ inhabited (byCapability (metadataIndex r))
  ∧ inhabited (byKeyword (metadataIndex r)).

(** No counter of the usage statistics is negative. *)
Definition countedUp (r : ToolRegistry) : Prop :=
  map_Forall (λ _ st, (0 <= successCount st)%Z ∧ (0 <= failureCount st)%Z)
    (usageStats r).

(** The tool has what the criteria ask for. *)
Definition meets (criteria : Criteria) (tool : Tool.t) : Prop :=
  (c_category criteria = "" ∨ Tool.category tool = c_category criteria)
  ∧ (c_capability criteria = ""
     ∨ toLowerCase (c_capability criteria)
       ∈ toLowerCase <$> Tool.capabilities tool)
  ∧ (∀ keyword, keyword ∈ c_keywords criteria →
       toLowerCase keyword ∈ toLowerCase <$> Tool.keywords tool)
  ∧ (c_inputType criteria = "" ∨ c_inputType criteria ∈ Tool.inputTypes tool)
  ∧ (c_outputType criteria = ""
     ∨ c_outputType criteria ∈ Tool.outputTypes tool).

(** The query matches the tool for [getToolRecommendations]: it contains
    one of the keywords, or the name, or the description, case aside. *)
Definition matchesQuery (query : string) (tool : Tool.t) : Prop :=
  (∃ keyword, keyword ∈ Tool.keywords tool
              ∧ includes (toLowerCase query) (toLowerCase keyword) = true)
  ∨ includes (toLowerCase query) (toLowerCase (Tool.name tool)) = true
  ∨ (Tool.description tool ≠ ""
     ∧ includes (toLowerCase query) (toLowerCase (Tool.description tool))
       = true).

(** ** The simple orchestrator ([createSimpleOrchestrator]) *)

(** [tool.keywords && tool.keywords.some(keyword =>
      query.toLowerCase().includes(keyword.toLowerCase()))] *)
Definition someKeywordIn (query : string) (tool : Tool.t) : bool :=
  existsb (λ keyword, includes (toLowerCase query) (toLowerCase keyword))
    (Tool.keywords tool).

(** The loop of [findBestTool] over [toolRegistry.entries()]. *)
Fixpoint firstKeywordMatch (query : string) (entries : list (string * Tool.t))
  : option Tool.t :=
  match entries with
  | [] => None
  | (_, tool) :: rest =>
      if someKeywordIn query tool then Some tool
      else firstKeywordMatch query rest
  end.

(** [findBestTool] (orchestrator.js, lines 393-405); [None] is [null]. *)
Definition findBestTool (query : string) (r : ToolRegistry) : option Tool.t :=
  match firstKeywordMatch query (entries r) with
  | Some tool => Some tool
  | None => map_get "default" (entries r)
  end.

(** The object that the simple [processQuery] returns. *)
Record SimpleResult := mkSimpleResult {
  resultSessionId : string;
  resultText : string;
  resultError : bool;
  resultErrorMessage : option string;
  resultToolsUsed : option (list string)
}.

(** [processQuery] of the simple orchestrator (lines 338-391).  [call] is
    what awaiting [bestTool.execute(text, {})] gives; a tool without an
    [execute] property makes the call throw, with the message
    [notAFunction].  The context object is local to the call. *)
Definition simpleProcessQuery (call : Handler → string → Outcome string)
    (notAFunction : string) (text sessionId : string) (r : ToolRegistry)
  : SimpleResult :=
  match findBestTool text r with
  | None =>
      mkSimpleResult sessionId "I don't know how to handle that request yet."
        true None None
  | Some bestTool =>
      let outcome :=
        match Tool.execute bestTool with
        | Some handler => call handler text
        | None => Rejected (mkError "" notAFunction)
        end in
      match outcome with
      | Resolved result =>
          mkSimpleResult sessionId result false None
            (Some [Tool.name bestTool])
      | Rejected error =>
          mkSimpleResult sessionId
            "I encountered an error while processing your request."
            true (Some (message error)) None
      end
  end.

(** ** Example data for the further properties *)

(** The registry after [registerTool(echoDefinition)] and the registration
    of a tool without an id, which comes under ["uuid-1"]. *)
Definition twoToolRegistry : ToolRegistry :=
  runOps validateToolDefinition_spec
    [Register echoDefinition "uuid-0";
     Register (plainDefinition "" "Alpha" "first letter" ["a"; "alpha"])
       "uuid-1"] emptyRegistry.

(** A successful query in a new orchestrator. *)
Definition answeredState : State :=
  (processQuery helloQuery goodRun initialState).2.

(** The tool that [movedEchoDefinition] is stored as. *)
Definition movedEchoTool : Tool.t :=
  {| Tool.id := "a";
     Tool.name := "Echo";
     Tool.description := "";
     Tool.category := "audio";
     Tool.capabilities := ["Speak"];
     Tool.keywords := ["echo"];
     Tool.inputTypes := ["text/plain"];
     Tool.outputTypes := ["text/plain"];
     Tool.execute := Some (FunctionRef 0) |}.

(** [echoDefinition] registered, then registered again under the same id in
    another category. *)
Definition movedEchoCalls : list RegistryCall :=
  [CallRegisterTool echoDefinition "uuid-0";
   CallRegisterTool movedEchoDefinition "uuid-1"].

(** ** The orchestrator, further *)

(** The context after the writes of a [processQuery] call whose analysis,
    planning, execution and synthesis succeed (steps 1 to 6). *)
Definition answeredContext (queryData : QueryData) (run : Run)
    (intent : Intent) (entities : list string) (plan : Plan)
    (executionResults : ExecutionResults) (response : Response)
    (context : Context.t) : Context.t :=
  pushTurn (mkTurn assistant (text response)
              (Some (toolName <$> toolsUsed executionResults))
              (assistantTurnTime run))
    (pushTurn (mkTurn user (queryText queryData) None (userTurnTime run))
       (setLastExecutionResults executionResults
          (setCurrentPlan plan
             (setAnalysis intent entities
                (setCurrentQuery (queryText queryData) context))))).

(** The user messages of [handleExecutionError]. *)
Definition userMessages : list string :=
  ["I had trouble using one of my tools to answer your question.";
   "Your question is too complex for me to handle at once.";
   "I'm currently handling too many requests. Please try again shortly.";
   "I couldn't understand your request properly.";
   "I encountered an issue while processing your request."].

(** The run of [goodRun], with a session store that fails. *)
Definition unsavedRun : Run :=
  {| newContextId := "ctx-3";
     newContextStamp := DateAbsent;
     retrieval := Rejected (mkError "STORE_DOWN" "no connection");
     analysis := Resolved (mkIntent "echo", ["hello"]);
     planning := Resolved (mkPlan ["Echo"] 10);
     execution := Resolved (mkExecutionResults ["hello"] [mkToolRun "Echo" 3]);
     synthesis := Resolved (mkResponse "hello" None []);
     storing := Rejected (mkError "STORE_DOWN" "no connection");
     userTurnTime := "2024-01-01T00:20:00.000Z";
     assistantTurnTime := "2024-01-01T00:20:01.000Z";
     fallbackContent := Some "Sorry.";
     production := false |}.

(** An orchestrator that holds one context, stamped with a string that is
    not a date. *)
Definition misdatedState : State :=
  mkState
    {[ "s9" := createToolExecutionContext "s9" "ann" "ctx-9"
                 (DateString "yesterday") ]}
    ∅.

(** * Properties *)

(** ** Facts about the association-list maps *)

Section JSMapFacts.
Context {V : Type}.

Lemma map_get_set (k k' : string) (v : V) (m : list (string * V)) :
  map_get k' (map_set k v m) = if decide (k' = k) then Some v else map_get k' m.
Proof.
  induction m as [|[k0 v0] m IH]; simpl.
  - repeat case_decide; congruence.
  - destruct (decide (k = k0)); simpl; repeat case_decide; congruence.
Qed.

Lemma map_get_delete (k k' : string) (m : list (string * V)) :
  map_get k' (map_delete k m) = if decide (k' = k) then None else map_get k' m.
Proof.
  unfold map_delete. induction m as [|[k0 v0] m IH]; simpl.
  - by case_decide.
  - destruct (decide (k0 = k)) as [->|Hne].
    + rewrite filter_cons_False by (simpl; auto). rewrite IH.
      repeat case_decide; congruence.
    + rewrite filter_cons_True by done. simpl. rewrite IH.
      repeat case_decide; congruence.
Qed.

Lemma map_get_Some_elem (k : string) (v : V) (m : list (string * V)) :
  map_get k m = Some v → (k, v) ∈ m.
Proof.
  induction m as [|[k0 v0] m IH]; simpl; [done|].
  case_decide; intros; simplify_eq; [left | right; auto].
Qed.

Lemma map_get_None (k : string) (m : list (string * V)) :
  map_get k m = None ↔ k ∉ m.*1.
Proof.
  induction m as [|[k0 v0] m IH]; simpl.
  - split; [intros _; apply not_elem_of_nil | done].
  - rewrite not_elem_of_cons, <- IH. case_decide; intuition congruence.
Qed.

Lemma map_get_NoDup (k : string) (v : V) (m : list (string * V)) :
  NoDup m.*1 → (k, v) ∈ m → map_get k m = Some v.
Proof.
  induction m as [|[k0 v0] m IH]; simpl.
  - intros _ H. by apply elem_of_nil in H.
  - rewrite NoDup_cons. intros [Hk Hnd] Hin.
    apply elem_of_cons in Hin as [Heq | Hin].
    + simplify_eq. by rewrite decide_True.
    + case_decide; [|auto]. subst. exfalso. apply Hk.
      apply list_elem_of_fmap. by exists (k0, v).
Qed.

Lemma map_set_fresh (k : string) (v : V) (m : list (string * V)) :
  map_get k m = None → map_set k v m = (m ++ [(k, v)])%list.
Proof.
  induction m as [|[k0 v0] m IH]; simpl; [done|].
  case_decide; [done|]. intros. by rewrite IH.
Qed.

Lemma map_set_keys_NoDup (k : string) (v : V) (m : list (string * V)) :
  NoDup m.*1 → NoDup (map_set k v m).*1.
Proof.
  induction m as [|[k0 v0] m IH]; simpl.
  - intros _. apply NoDup_singleton.
  - rewrite NoDup_cons. intros [Hk Hnd]. case_decide; simpl.
    + subst. by apply NoDup_cons.
    + apply NoDup_cons. split; [|auto].
      rewrite <- map_get_None, map_get_set, decide_False by done.
      by apply map_get_None.
Qed.

Lemma map_delete_keys_NoDup (k : string) (m : list (string * V)) :
  NoDup m.*1 → NoDup (map_delete k m).*1.
Proof.
  unfold map_delete. induction m as [|[k0 v0] m IH]; simpl; [done|].
  rewrite NoDup_cons, filter_cons. intros [Hk Hnd]. simpl.
  case_decide; simpl; [|auto]. apply NoDup_cons. split; [|auto].
  rewrite <- map_get_None. fold (map_delete k m).
  rewrite map_get_delete, decide_False by done. by apply map_get_None.
Qed.
End JSMapFacts.

(** ** Usage statistics *)

Lemma recordToolUsage_unknown (r : ToolRegistry) (toolId now : string)
    (rep : UsageReport) :
  usageStats r !! toolId = None →
  recordToolUsage toolId rep now r = (false, r).
Proof. intros H. unfold recordToolUsage. by rewrite H. Qed.

Lemma recordToolUsage_other (r : ToolRegistry) (toolId other now : string)
    (rep : UsageReport) :
  other ≠ toolId →
  usageStats (recordToolUsage toolId rep now r).2 !! other
  = usageStats r !! other.
Proof.
  intros Hne. unfold recordToolUsage.
  destruct (usageStats r !! toolId) as [st|]; [|done].
  destruct (executionTime rep); simpl; by rewrite lookup_insert_ne.
Qed.




(** C5 as stated fails: a call without a numeric execution time counts a
    success and leaves [totalExecutions] alone. *)
Lemma recordToolUsage_untimed_unbalances :
  (∃ st, usageStats echoRegistry !! "a" = Some st ∧ balanced st) ∧
  (∃ st', usageStats (recordToolUsage "a" (mkReport true None) "2024-01-01"
                        echoRegistry).2 !! "a" = Some st'
          ∧ ¬ balanced st').
Proof.
  split.
  - exists initialStats. split; reflexivity.
  - eexists. split; [reflexivity|]. unfold balanced. simpl. lia.
Qed.

(** C5, amended.  [totalExecutions] counts the calls that carried a numeric
    execution time: such a call keeps the difference between
    [successCount + failureCount] and [totalExecutions] (so it preserves
    their equality), and a call without one raises that difference by
    one. *)
Theorem recordToolUsage_counts (r : ToolRegistry) (toolId now : string)
    (st : ToolStats) (rep : UsageReport) :
  usageStats r !! toolId = Some st →
  ∃ st',
    usageStats (recordToolUsage toolId rep now r).2 !! toolId = Some st'
    ∧ (successCount st' + failureCount st' = successCount st + failureCount st + 1)%Z
    ∧ (totalExecutions st'
       = totalExecutions st + (if executionTime rep is Some _ then 1 else 0))%Z
    ∧ (is_Some (executionTime rep) → balanced st → balanced st').
Proof.
  intros Hst. unfold recordToolUsage, balanced. rewrite Hst.
  destruct rep as [ok [d|]]; destruct ok; simpl;
    rewrite lookup_insert_eq; eexists; (split; [reflexivity|]); simpl;
    repeat split; try lia; intros [? ?]; congruence.
Qed.

Lemma recordToolUsage_counts_witness :
  usageStats echoRegistry !! "a" = Some initialStats
  ∧ ∃ st',
      usageStats (recordToolUsage "a" (mkReport false (Some (7 # 2)))
                    "2024-01-01" echoRegistry).2 !! "a" = Some st'
      ∧ (successCount st' + failureCount st'
         = successCount initialStats + failureCount initialStats + 1)%Z
      ∧ (totalExecutions st'
         = totalExecutions initialStats
           + (if executionTime (mkReport false (Some (7 # 2))) is Some _
              then 1 else 0))%Z
      ∧ (is_Some (executionTime (mkReport false (Some (7 # 2)))) →
         balanced initialStats → balanced st').
Proof.
  split; [reflexivity|].
  apply (recordToolUsage_counts echoRegistry "a" "2024-01-01" initialStats
           (mkReport false (Some (7 # 2)))).
  reflexivity.
Defined.

(** ** Registration *)

(** C3 as stated fails on a name collision: ["echo"] collides with the
    registered ["Echo"], yet the definition is registered, the call returns
    [true] and the name index now leads to the new tool. *)
Lemma registerTool_accepts_name_collision :
  byName (metadataIndex echoRegistry) !! toLowerCase "echo" = Some "a" ∧
  ∃ r',
    registerTool validateToolDefinition_spec shoutDefinition "uuid-1"
      echoRegistry = (true, r')
    ∧ (entries r').*1 = ["a"; "b"]
    ∧ byName (metadataIndex r') !! toLowerCase "echo" = Some "b"
    ∧ r' ≠ echoRegistry.
Proof.
  split; [reflexivity|]. eexists. split; [reflexivity|].
  split; [reflexivity|]. split; [reflexivity|].
  intros Heq. apply (f_equal (λ r, length (entries r))) in Heq.
  vm_compute in Heq. discriminate.
Qed.

(** C3, amended.  A definition without [name] or without [execute] is
    rejected by the validation; [registerTool] catches the error, returns
    [false] and leaves the registry as it was.  (Nothing is said of name
    collisions: [registerTool] does not look for them.) *)
Theorem registerTool_missing_required_field (d : ToolDefinition.t)
    (uuid : string) (r : ToolRegistry) :
  ToolDefinition.name d = None ∨ ToolDefinition.execute d = None →
  (∃ e, validateToolDefinition_spec d = inl e)
  ∧ registerTool validateToolDefinition_spec d uuid r = (false, r).
Proof.
  intros Hmissing. unfold registerTool, validateToolDefinition_spec.
  destruct (ToolDefinition.name d) as [n|], (ToolDefinition.execute d) as [h|];
    try (split; [eexists; reflexivity | reflexivity]).
  destruct Hmissing; discriminate.
Qed.

Lemma registerTool_missing_required_field_witness :
  (ToolDefinition.name namelessDefinition = None
   ∨ ToolDefinition.execute namelessDefinition = None)
  ∧ (∃ e, validateToolDefinition_spec namelessDefinition = inl e)
  ∧ registerTool validateToolDefinition_spec namelessDefinition "uuid-2"
      echoRegistry = (false, echoRegistry).
Proof.
  split; [left; reflexivity|].
  apply (registerTool_missing_required_field namelessDefinition "uuid-2"
           echoRegistry).
  left. reflexivity.
Defined.

(** The keys of the registry stay distinct, as the keys of a [Map] are. *)
Lemma registerTool_keys_NoDup
    (validateToolDefinition : ToolDefinition.t → ValidationError + Tool.t)
    (d : ToolDefinition.t) (uuid : string) (r : ToolRegistry) :
  NoDup (entries r).*1 →
  NoDup (entries (registerTool validateToolDefinition d uuid r).2).*1.
Proof.
  intros Hnd. unfold registerTool.
  destruct (validateToolDefinition d); simpl; [done|].
  by apply map_set_keys_NoDup.
Qed.

Lemma unregisterTool_keys_NoDup (toolIdentifier : string) (r : ToolRegistry) :
  NoDup (entries r).*1 →
  NoDup (entries (unregisterTool toolIdentifier r).2).*1.
Proof.
  intros Hnd. unfold unregisterTool.
  destruct (if map_has toolIdentifier (entries r) then _ else _); [|done].
  destruct (map_get _ (entries r)); simpl; [|done].
  by apply map_delete_keys_NoDup.
Qed.

Lemma runOps_keys_NoDup
    (validateToolDefinition : ToolDefinition.t → ValidationError + Tool.t)
    (ops : list RegistryOp) (r : ToolRegistry) :
  NoDup (entries r).*1 →
  NoDup (entries (runOps validateToolDefinition ops r)).*1.
Proof.
  revert r. induction ops as [|op ops IH]; intros r Hnd; [done|].
  simpl. apply IH. destruct op; simpl.
  - by apply registerTool_keys_NoDup.
  - by apply unregisterTool_keys_NoDup.
Qed.

(** ** Search *)

Lemma omap_map_get_keys {V : Type} (m : list (string * V)) :
  length (omap (λ id, map_get id m) m.*1) = length m.
Proof.
  assert (Hgen : ∀ l : list (string * V),
            (∀ k, k ∈ l.*1 → is_Some (map_get k m)) →
            length (omap (λ id, map_get id m) l.*1) = length l).
  { induction l as [|[k v] l IH]; intros Hin; [done|]. simpl.
    destruct (Hin k) as [v' Hv']; [left|]. rewrite Hv'. simpl. f_equal.
    apply IH. intros k' Hk'. apply Hin. by right. }
  apply Hgen. intros k Hk.
  destruct (map_get k m) eqn:E; [eauto|]. by apply map_get_None in E.
Qed.

(** [findTools({})] returns as many tools as the registry holds. *)
Lemma findTools_no_criteria_length (r : ToolRegistry) :
  length (findTools noCriteria r) = length (entries r).
Proof. unfold findTools. simpl. apply omap_map_get_keys. Qed.

(** A keyword that no index entry exists for does not filter at all. *)
Lemma findTools_unindexed_keyword (r : ToolRegistry) (keyword : string) :
  byKeyword (metadataIndex r) !! toLowerCase keyword = None →
  findTools (mkCriteria "" "" [keyword] "" "") r = findTools noCriteria r.
Proof. intros H. unfold findTools. simpl. by rewrite H. Qed.

(** C4, on the registry that holds the one tool [echoTool] with the keyword
    ["echo"]: the criterion [keywords: ["zzz"]] matches no tool, and
    [findTools] returns [echoTool]; an unknown category or capability, on
    the other hand, yields no tool. *)
Theorem findTools_unknown_keyword_returns_all :
  ((entries echoRegistry).*2 = [echoTool])
  ∧ ("zzz" ∉ Tool.keywords echoTool)
  ∧ (findTools (mkCriteria "" "" ["zzz"] "" "") echoRegistry = [echoTool])
  ∧ (findTools (mkCriteria "zzz" "" [] "" "") echoRegistry = [])
  ∧ (findTools (mkCriteria "" "zzz" [] "" "") echoRegistry = []).
Proof.
  split; [reflexivity|]. split; [|repeat split; reflexivity].
  simpl. rewrite list_elem_of_singleton. discriminate.
Qed.

(** ** Recommendation *)

Lemma Qltb_lt (x y : Q) : Qltb x y = true ↔ (x < y)%Q.
Proof.
  unfold Qltb. rewrite negb_true_iff. split.
  - intros H. apply Qnot_le_lt. intros Hle.
    apply Qle_bool_iff in Hle. congruence.
  - intros H. destruct (Qle_bool y x) eqn:E; [|done].
    apply Qle_bool_iff in E. exfalso. by apply (Qlt_not_le x y).
Qed.

Lemma Qltb_ge (x y : Q) : Qltb x y = false ↔ (y <= x)%Q.
Proof.
  unfold Qltb. rewrite negb_false_iff. apply Qle_bool_iff.
Qed.

Section RankByFacts.
Context {A : Type} (score : A → Q).

Lemma insertBy_Permutation (a : A) (l : list A) :
  insertBy score a l ≡ₚ a :: l.
Proof.
  induction l as [|b l IH]; simpl; [done|].
  destruct (Qltb (score a) (score b)); [|done].
  rewrite IH. apply Permutation_swap.
Qed.

Lemma sortBy_Permutation (l : list A) : sortBy score l ≡ₚ l.
Proof.
  induction l as [|a l IH]; simpl; [done|].
  unfold sortBy in *. rewrite insertBy_Permutation. by rewrite IH.
Qed.

Lemma insertBy_descending (a : A) (l : list A) :
  StronglySorted (λ x y, (score y <= score x)%Q) l →
  StronglySorted (λ x y, (score y <= score x)%Q) (insertBy score a l).
Proof.
  induction l as [|b l IH]; simpl; intros Hs.
  - constructor; [constructor | constructor].
  - apply StronglySorted_inv in Hs as [Hl Hb].
    destruct (Qltb (score a) (score b)) eqn:E.
    + constructor; [auto|].
      rewrite insertBy_Permutation. constructor; [|done].
      apply Qltb_lt in E. by apply Qlt_le_weak.
    + apply Qltb_ge in E. constructor.
      * by constructor.
      * constructor; [done|].
        eapply Forall_impl; [exact Hb|]. simpl. intros x Hx.
        by apply Qle_trans with (score b).
Qed.

Lemma sortBy_descending (l : list A) :
  StronglySorted (λ x y, (score y <= score x)%Q) (sortBy score l).
Proof.
  induction l as [|a l IH]; simpl; [constructor|].
  by apply insertBy_descending.
Qed.

(** Stability: entries of equal score keep their order. *)
Lemma insertBy_stable (v : Q) (a : A) (l : list A) :
  filter (λ x, score x == v) (insertBy score a l)
  = filter (λ x, score x == v) (a :: l).
Proof.
  induction l as [|b l IH]; simpl; [done|].
  destruct (Qltb (score a) (score b)) eqn:E; [|done].
  apply Qltb_lt in E. rewrite filter_cons, IH.
  rewrite !(filter_cons _ a), (filter_cons _ b).
  destruct (decide (score b == v)) as [Hb|Hb],
           (decide (score a == v)) as [Ha|Ha]; try done.
  exfalso. rewrite Ha, Hb in E. by apply Qlt_irrefl in E.
Qed.

Lemma sortBy_stable (v : Q) (l : list A) :
  filter (λ x, score x == v) (sortBy score l)
  = filter (λ x, score x == v) l.
Proof.
  induction l as [|a l IH]; simpl; [done|].
  unfold sortBy in *. by rewrite insertBy_stable, !filter_cons, IH.
Qed.
End RankByFacts.

Lemma insertBy_fmap {A B : Type} (f : A → B) (score : B → Q) (a : A)
    (s : list A) :
  f <$> insertBy (score ∘ f) a s = insertBy score (f a) (f <$> s).
Proof.
  induction s as [|b s IH]; simpl; [done|].
  destruct (Qltb (score (f a)) (score (f b))); simpl; [|done].
  f_equal. exact IH.
Qed.

Lemma sortBy_fmap {A B : Type} (f : A → B) (score : B → Q) (l : list A) :
  f <$> sortBy (score ∘ f) l = sortBy score (f <$> l).
Proof.
  induction l as [|a l IH]; [done|].
  change (sortBy (score ∘ f) (a :: l))
    with (insertBy (score ∘ f) a (sortBy (score ∘ f) l)).
  rewrite insertBy_fmap, IH. reflexivity.
Qed.

Lemma sortByScore_sortBy (l : list (string * Q)) :
  sortByScore l = sortBy snd l.
Proof.
  unfold sortByScore, sortBy. induction l as [|a l IH]; simpl; [done|].
  rewrite IH. generalize (foldr (insertBy snd) [] l). intros s.
  induction s as [|b s IHs]; simpl; [done|]. by rewrite IHs.
Qed.

Lemma descending_fmap {A : Type} (score : A → Q) (l : list A) :
  StronglySorted (λ x y, (score y <= score x)%Q) l →
  descending (score <$> l).
Proof.
  unfold descending. induction 1 as [|a l Hl IH Ha]; simpl; constructor.
  - done.
  - apply Forall_fmap. eapply Forall_impl; [exact Ha|]. done.
Qed.

Lemma matchScores_filter (query : string) (r : ToolRegistry) :
  matchScores query r
  = (λ e, (e.1, entryScore r query e))
    <$> filter (λ e, (0 < entryScore r query e)%Q) (entries r).
Proof.
  unfold matchScores, entryScore. induction (entries r) as [|[id tool] l IH];
    simpl; [done|].
  rewrite filter_cons. simpl.
  destruct (Qltb 0 (toolScore r (toLowerCase query) id tool)) eqn:E.
  - apply Qltb_lt in E. rewrite decide_True by done. simpl. f_equal.
    exact IH.
  - apply Qltb_ge in E. rewrite decide_False by (by apply Qle_not_lt).
    exact IH.
Qed.

Lemma matchScore_closed (queryLower : string) (tool : Tool.t) :
  matchScore queryLower tool = closedMatchScore queryLower tool.
Proof.
  unfold matchScore, closedMatchScore.
  assert (Hfold : ∀ (kws : list string) (acc : Z),
            foldl (λ score keyword,
                     if includes queryLower (toLowerCase keyword)
                     then (score + 10)%Z else score) acc kws
            = (acc + 10 * Z.of_nat
                       (length (filter (λ keyword,
                                  includes queryLower (toLowerCase keyword)
                                  = true) kws)))%Z).
  { induction kws as [|k kws IH]; intros acc; simpl; [lia|].
    rewrite IH, filter_cons.
    destruct (includes queryLower (toLowerCase k)).
    - rewrite decide_True by done. rewrite length_cons. lia.
    - rewrite decide_False by done. lia. }
  rewrite Hfold.
  destruct (includes queryLower (toLowerCase (Tool.name tool)));
    destruct (negb (Tool.description tool =? "")%string
              && includes queryLower (toLowerCase (Tool.description tool)));
    lia.
Qed.

Lemma entryScore_closed (r : ToolRegistry) (query id : string)
    (tool : Tool.t) :
  entryScore r query (id, tool)
  = let score := inject_Z (closedMatchScore (toLowerCase query) tool) in
    match usageStats r !! id with
    | Some st =>
        let totalUses :=
          binary64 (inject_Z (successCount st) + inject_Z (failureCount st)) in
        if Qltb 0 totalUses
        then binary64
               (score
                * binary64
                    ((1 # 2)
                     + binary64
                         ((1 # 2)
                          * binary64 (inject_Z (successCount st) / totalUses))))
        else score
    | None => score
    end.
Proof.
  unfold entryScore, toolScore. simpl. by rewrite matchScore_closed.
Qed.

Lemma recommended_tools (r : ToolRegistry) (score : string * Tool.t → Q)
    (ranked : list (string * Tool.t)) :
  (∀ e, e ∈ ranked → map_get e.1 (entries r) = Some e.2) →
  omap (λ '(id, _), map_get id (entries r)) ((λ e, (e.1, score e)) <$> ranked)
  = ranked.*2.
Proof.
  induction ranked as [|e ranked IH]; intros H; simpl; [done|].
  rewrite (H e) by left. simpl. f_equal. apply IH. intros x Hx.
  apply H. by right.
Qed.

(** C2 as stated fails in each of its three parts.  A query that contains
    a 3-gram of the description, but not the description, scores nothing;
    two tools of equal score come out in registration order, not ordered by
    name; a tool that never ran keeps its full score, and so precedes a
    tool of the same match score with one success and one failure. *)
Lemma getToolRecommendations_differs_from_spec :
  (getToolRecommendations "the weather today" weatherRegistry = []
   ∧ specRecommend "the weather today" weatherRegistry
     = [plainTool "w" "WX" "weather forecast" []])
  ∧ (getToolRecommendations "echo" tieRegistry
     = [plainTool "1" "beta" "" ["echo"]; plainTool "2" "alpha" "" ["echo"]]
     ∧ specRecommend "echo" tieRegistry
       = [plainTool "2" "alpha" "" ["echo"]; plainTool "1" "beta" "" ["echo"]])
  ∧ (getToolRecommendations "echo" usedRegistry
     = [plainTool "1" "fresh" "" ["echo"]; plainTool "2" "used" "" ["echo"]]
     ∧ specRecommend "echo" usedRegistry
       = [plainTool "2" "used" "" ["echo"]; plainTool "1" "fresh" "" ["echo"]]).
Proof. repeat split; vm_compute; reflexivity. Qed.

(** C2, amended.  For counters that are safe integers,
    [getToolRecommendations] returns exactly the tools with a positive
    score, in descending order of score, tools of equal score in the order
    of their registration.  The score is +10 per keyword that is a
    case-folded substring of the query, +5 if the query contains the
    case-folded name, +3 if the query contains the whole case-folded
    description; for a tool that has been used
    ([successes + failures > 0]) this sum is multiplied by
    [0.5 + 0.5 * (successes / (successes + failures))], every operation
    rounding to binary64, so that scores are equal when the binary64
    numbers are, not when the exact values would be. *)
Theorem getToolRecommendations_ranking (query : string) (r : ToolRegistry) :
  NoDup (entries r).*1 →
  safeCounters r →
  ∃ ranked : list (string * Tool.t),
    getToolRecommendations query r = ranked.*2
    ∧ ranked ≡ₚ filter (λ e, (0 < entryScore r query e)%Q) (entries r)
    ∧ descending (entryScore r query <$> ranked)
    ∧ (∀ v : Q,
         filter (λ e, (entryScore r query e == v)%Q) ranked
         = filter (λ e, (entryScore r query e == v)%Q)
             (filter (λ e, (0 < entryScore r query e)%Q) (entries r)))
    ∧ (∀ (id : string) (tool : Tool.t),
         entryScore r query (id, tool)
         = let score :=
             inject_Z (closedMatchScore (toLowerCase query) tool) in
           match usageStats r !! id with
           | Some st =>
               let totalUses :=
                 binary64 (inject_Z (successCount st)
                           + inject_Z (failureCount st)) in
               if Qltb 0 totalUses
               then binary64
                      (score
                       * binary64
                           ((1 # 2)
                            + binary64
                                ((1 # 2)
                                 * binary64 (inject_Z (successCount st)
                                             / totalUses))))
               else score
           | None => score
           end).
Proof.
  intros Hnodup _.
  set (F := filter (λ e, (0 < entryScore r query e)%Q) (entries r)).
  exists (sortBy (entryScore r query) F). repeat split.
  - unfold getToolRecommendations.
    rewrite matchScores_filter, sortByScore_sortBy. fold F.
    rewrite <- (sortBy_fmap (λ e, (e.1, entryScore r query e)) snd F).
    change (snd ∘ (λ e, (e.1, entryScore r query e)))
      with (entryScore r query).
    apply recommended_tools. intros [id tool] He. simpl.
    apply map_get_NoDup; [done|].
    rewrite sortBy_Permutation in He. unfold F in He.
    by apply list_elem_of_filter in He as [_ He].
  - apply sortBy_Permutation.
  - apply descending_fmap, sortBy_descending.
  - intros v. apply sortBy_stable.
  - intros id tool. apply entryScore_closed.
Qed.

Lemma NoDup_roundedRegistry : NoDup (entries roundedRegistry).*1.
Proof. apply (bool_decide_unpack _). vm_compute. exact I. Defined.

Lemma safeCounters_roundedRegistry : safeCounters roundedRegistry.
Proof. apply (bool_decide_unpack _). vm_compute. exact I. Defined.

Lemma getToolRecommendations_ranking_witness :
  NoDup (entries roundedRegistry).*1
  ∧ safeCounters roundedRegistry
  ∧ ∃ ranked : list (string * Tool.t),
      getToolRecommendations "pick alpha me" roundedRegistry = ranked.*2
      ∧ ranked
        ≡ₚ filter (λ e, (0 < entryScore roundedRegistry "pick alpha me" e)%Q)
             (entries roundedRegistry)
      ∧ descending (entryScore roundedRegistry "pick alpha me" <$> ranked)
      ∧ (∀ v : Q,
           filter (λ e, (entryScore roundedRegistry "pick alpha me" e == v)%Q)
             ranked
           = filter
               (λ e, (entryScore roundedRegistry "pick alpha me" e == v)%Q)
               (filter
                  (λ e, (0 < entryScore roundedRegistry "pick alpha me" e)%Q)
                  (entries roundedRegistry)))
      ∧ (∀ (id : string) (tool : Tool.t),
           entryScore roundedRegistry "pick alpha me" (id, tool)
           = let score :=
               inject_Z (closedMatchScore (toLowerCase "pick alpha me") tool)
             in
             match usageStats roundedRegistry !! id with
             | Some st =>
                 let totalUses :=
                   binary64 (inject_Z (successCount st)
                             + inject_Z (failureCount st)) in
                 if Qltb 0 totalUses
                 then binary64
                        (score
                         * binary64
                             ((1 # 2)
                              + binary64
                                  ((1 # 2)
                                   * binary64 (inject_Z (successCount st)
                                               / totalUses))))
                 else score
             | None => score
             end).
Proof.
  split; [exact NoDup_roundedRegistry|].
  split; [exact safeCounters_roundedRegistry|].
  exact (getToolRecommendations_ranking "pick alpha me" roundedRegistry
           NoDup_roundedRegistry safeCounters_roundedRegistry).
Defined.

(** The scores are binary64 numbers.  The two tools of [roundedRegistry]
    both score 40/7 before rounding; in binary64 ["zed"] scores
    5.7142857142857135 and ["alpha"] 5.714285714285714, and ["alpha"],
    registered second, is recommended first. *)
Lemma getToolRecommendations_rounds_scores :
  (entryScore roundedRegistry "pick alpha me"
     ("1", plainTool "1" "zed" "" ["pick"])
   == 3216856876693211 # 562949953421312)%Q
  ∧ (entryScore roundedRegistry "pick alpha me"
       ("2", plainTool "2" "alpha" "me" [])
     == 6433713753386423 # 1125899906842624)%Q
  ∧ getToolRecommendations "pick alpha me" roundedRegistry
    = [plainTool "2" "alpha" "me" []; plainTool "1" "zed" "" ["pick"]].
Proof. repeat split; vm_compute; reflexivity. Qed.

(** [binary64] on numbers whose binary64 values are known: 0.1, 1/3, 2^53 + 1
    (a tie, to the even significand) and -7.5 (exact). *)
Lemma binary64_examples :
  (binary64 (1 # 10) == 3602879701896397 # 36028797018963968)%Q
  ∧ (binary64 (1 # 3) == 6004799503160661 # 18014398509481984)%Q
  ∧ (binary64 (9007199254740993 # 1) == 9007199254740992 # 1)%Q
  ∧ (binary64 (-15 # 2) == -15 # 2)%Q.
Proof. repeat split; vm_compute; reflexivity. Qed.

(** ** What [findTools] returns *)

Section FilterFacts.
Context {A : Type} (P Q : A → Prop) `{!∀ x, Decision (P x)}
  `{!∀ x, Decision (Q x)}.

Lemma filter_ext_in (l : list A) :
  (∀ x, x ∈ l → P x ↔ Q x) → filter P l = filter Q l.
Proof.
  induction l as [|x l IH]; intros Hl; [done|].
  rewrite !filter_cons.
  assert (Hx : P x ↔ Q x) by (apply Hl; left).
  rewrite IH by (intros y Hy; apply Hl; by right).
  destruct (decide (P x)), (decide (Q x)); tauto || done.
Qed.

Lemma filter_all (l : list A) : (∀ x, x ∈ l → P x) → filter P l = l.
Proof.
  induction l as [|x l IH]; intros Hl; [done|].
  rewrite filter_cons_True by (apply Hl; left).
  f_equal. apply IH. intros y Hy. apply Hl. by right.
Qed.

Lemma filter_none (l : list A) : (∀ x, x ∈ l → ¬ P x) → filter P l = [].
Proof.
  induction l as [|x l IH]; intros Hl; [done|].
  rewrite filter_cons_False by (apply Hl; left).
  apply IH. intros y Hy. apply Hl. by right.
Qed.
End FilterFacts.

Lemma filter_keys {B : Type} (P : string → Prop) (Q : string * B → Prop)
    `{!∀ x, Decision (P x)} `{!∀ e, Decision (Q e)} (l : list (string * B)) :
  (∀ e, e ∈ l → P e.1 ↔ Q e) → filter P l.*1 = (filter Q l).*1.
Proof.
  induction l as [|e l IH]; intros Hl; [done|].
  rewrite fmap_cons, !filter_cons.
  assert (He : P e.1 ↔ Q e) by (apply Hl; left).
  rewrite IH by (intros y Hy; apply Hl; by right).
  destruct (decide (P e.1)), (decide (Q e)); tauto || done.
Qed.

Lemma keyword_filters (idx : gmap string (gset string))
    (keywords : list string) (toolIds : list string) :
  foldl (λ toolIds keyword,
           match idx !! toLowerCase keyword with
           | Some keywordTools => filter (λ id, id ∈ keywordTools) toolIds
           | None => toolIds
           end) toolIds keywords
  = filter (λ id, Forall (λ keyword,
                            idx !! toLowerCase keyword = None
                            ∨ listed idx (toLowerCase keyword) id) keywords)
      toolIds.
Proof.
  revert toolIds. induction keywords as [|kw kws IH]; intros toolIds; simpl.
  - symmetry. apply filter_all. intros. constructor.
  - rewrite IH. unfold listed.
    destruct (idx !! toLowerCase kw) as [s|] eqn:Hkw.
    + rewrite list_filter_filter. apply filter_ext_in. intros id _.
      rewrite Forall_cons, Hkw. simpl. naive_solver.
    + apply filter_ext_in. intros id _. rewrite Forall_cons, Hkw.
      naive_solver.
Qed.

Lemma omap_map_get_values {V : Type} (l m : list (string * V)) :
  (∀ e, e ∈ l → map_get e.1 m = Some e.2) →
  omap (λ id, map_get id m) l.*1 = l.*2.
Proof.
  induction l as [|e l IH]; intros Hl; simpl; [done|].
  rewrite (Hl e) by left. simpl. f_equal. apply IH. intros x Hx.
  apply Hl. by right.
Qed.

(** [findTools] returns, in the order of the registry, the tools of the
    entries that [selects] describes. *)
Lemma findTools_selects (criteria : Criteria) (r : ToolRegistry) :
  NoDup (entries r).*1 →
  findTools criteria r = (filter (selects criteria r) (entries r)).*2.
Proof.
  intros Hnd. unfold findTools.
  assert (Hget : ∀ e, e ∈ entries r → map_get e.1 (entries r) = Some e.2).
  { intros [id tool] He. by apply map_get_NoDup. }
  set (P1 := λ id, c_category criteria = ""
                   ∨ listed (categories r) (c_category criteria) id).
  set (P2 := λ id, c_capability criteria = ""
                   ∨ listed (byCapability (metadataIndex r))
                       (toLowerCase (c_capability criteria)) id).
  assert (Hnone : ∀ (P : string → Prop),
            (∀ e, selects criteria r e → P e.1) → (∀ id, ¬ P id) →
            [] = (filter (selects criteria r) (entries r)).*2).
  { intros P Himp Hno. rewrite filter_none; [done|].
    intros e _ Hsel. by apply (Hno e.1), Himp. }
  assert (Hstage1 :
    match (if decide (c_category criteria = "") then Some (entries r).*1
           else filter_by_index (categories r) (c_category criteria)
                  (entries r).*1) with
    | Some ids => ids = filter P1 (entries r).*1
    | None => ∀ id, ¬ P1 id
    end).
  { unfold filter_by_index. case_decide as Hc.
    - symmetry. apply filter_all. intros id _. by left.
    - destruct (categories r !! c_category criteria) as [s|] eqn:Hidx; simpl.
      + apply filter_ext_in. intros id _. unfold P1, listed.
        rewrite Hidx. simpl. naive_solver.
      + intros id. unfold P1, listed. rewrite Hidx. simpl.
        intros [?|Hin]; [done | set_solver]. }
  destruct (if decide (c_category criteria = "") then _ else _) as [ids1|];
    [subst ids1 | apply (Hnone P1); [by intros e (? & _) | done]].
  assert (Hstage2 :
    match (if decide (c_capability criteria = "")
           then Some (filter P1 (entries r).*1)
           else filter_by_index (byCapability (metadataIndex r))
                  (toLowerCase (c_capability criteria))
                  (filter P1 (entries r).*1)) with
    | Some ids => ids = filter P2 (filter P1 (entries r).*1)
    | None => ∀ id, ¬ P2 id
    end).
  { unfold filter_by_index. case_decide as Hc.
    - symmetry. apply filter_all. intros id _. by left.
    - destruct (byCapability (metadataIndex r)
                  !! toLowerCase (c_capability criteria)) as [s|] eqn:Hidx;
        simpl.
      + apply filter_ext_in. intros id _. unfold P2, listed.
        rewrite Hidx. simpl. naive_solver.
      + intros id. unfold P2, listed. rewrite Hidx. simpl.
        intros [?|Hin]; [done | set_solver]. }
  destruct (if decide (c_capability criteria = "") then _ else _) as [ids2|];
    [subst ids2 | apply (Hnone P2); [by intros e (_ & ? & _) | done]].
  rewrite keyword_filters.
  set (P3 := λ id, Forall _ (c_keywords criteria)).
  set (P4 := λ id, c_inputType criteria = ""
                   ∨ declares Tool.inputTypes (c_inputType criteria)
                       (map_get id (entries r)) = true).
  set (P5 := λ id, c_outputType criteria = ""
                   ∨ declares Tool.outputTypes (c_outputType criteria)
                       (map_get id (entries r)) = true).
  assert (H4 : ∀ l : list string,
    (if decide (c_inputType criteria = "") then l
     else filter (λ id, declares Tool.inputTypes (c_inputType criteria)
                          (map_get id (entries r)) = true) l)
    = filter P4 l).
  { intros l. destruct (decide (c_inputType criteria = "")).
    - symmetry. apply filter_all. intros id _. by left.
    - apply filter_ext_in. intros id _. unfold P4. naive_solver. }
  assert (H5 : ∀ l : list string,
    (if decide (c_outputType criteria = "") then l
     else filter (λ id, declares Tool.outputTypes (c_outputType criteria)
                          (map_get id (entries r)) = true) l)
    = filter P5 l).
  { intros l. destruct (decide (c_outputType criteria = "")).
    - symmetry. apply filter_all. intros id _. by left.
    - apply filter_ext_in. intros id _. unfold P5. naive_solver. }
  cbv zeta. rewrite H4, H5, !list_filter_filter.
  rewrite (filter_keys _ (selects criteria r)).
  - apply omap_map_get_values. intros e He. apply Hget.
    by apply list_elem_of_filter in He as [_ He].
  - intros [id tool] He. pose proof (Hget _ He) as Hid. simpl in Hid.
    unfold selects, P1, P2, P3, P4, P5. simpl. rewrite Hid. simpl.
    rewrite !bool_decide_eq_true. tauto.
Qed.

(** ** Coherence of the indices *)

Lemma listed_index_add (idx : gmap string (gset string))
    (key toolId key' id : string) :
  listed (index_add key toolId idx) key' id
  ↔ (key' = key ∧ id = toolId) ∨ listed idx key' id.
Proof.
  unfold listed, index_add. destruct (decide (key = key')) as [->|Hne].
  - rewrite lookup_insert_eq. simpl. set_solver.
  - rewrite lookup_insert_ne by done. naive_solver.
Qed.

Lemma listed_index_add_all (f : string → string) (toolId : string)
    (l : list string) (idx : gmap string (gset string)) (key' id : string) :
  listed (foldl (λ idx x, index_add (f x) toolId idx) idx l) key' id
  ↔ (id = toolId ∧ key' ∈ f <$> l) ∨ listed idx key' id.
Proof.
  revert idx. induction l as [|x l IH]; intros idx; simpl.
  - rewrite elem_of_nil. naive_solver.
  - rewrite IH, listed_index_add, elem_of_cons. naive_solver.
Qed.

Lemma listed_index_remove (idx : gmap string (gset string))
    (key toolId key' id : string) :
  listed (index_remove key toolId idx) key' id
  ↔ listed idx key' id ∧ ¬ (key' = key ∧ id = toolId).
Proof.
  unfold listed, index_remove. destruct (idx !! key) as [tools|] eqn:Hkey.
  - destruct (decide (size (tools ∖ {[toolId]}) = 0%nat)) as [Hsize|Hsize].
    + apply size_empty_inv in Hsize.
      destruct (decide (key = key')) as [<-|Hne].
      * rewrite lookup_delete_eq, Hkey. simpl.
        split; [set_solver|]. intros [Hin Hnot].
        assert (id ∈ tools ∖ {[toolId]}) by set_solver. set_solver.
      * rewrite lookup_delete_ne by done. naive_solver.
    + destruct (decide (key = key')) as [<-|Hne].
      * rewrite lookup_insert_eq, Hkey. simpl. set_solver.
      * rewrite lookup_insert_ne by done. naive_solver.
  - split; [|naive_solver]. intros Hin. split; [done|].
    intros [-> _]. rewrite Hkey in Hin. simpl in Hin. set_solver.
Qed.

Lemma listed_index_remove_all (f : string → string) (toolId : string)
    (l : list string) (idx : gmap string (gset string)) (key' id : string) :
  listed (foldl (λ idx x, index_remove (f x) toolId idx) idx l) key' id
  ↔ listed idx key' id ∧ ¬ (id = toolId ∧ key' ∈ f <$> l).
Proof.
  revert idx. induction l as [|x l IH]; intros idx; simpl.
  - rewrite elem_of_nil. naive_solver.
  - rewrite IH, listed_index_remove, elem_of_cons. naive_solver.
Qed.

(** Adding a tool under a new id, with its own keys, keeps an index
    coherent. *)
Lemma coherentIndex_set (r r' : ToolRegistry) (toolId : string)
    (tool : Tool.t) (found found' : string → string → Prop)
    (own : string → Tool.t → Prop) :
  entries r' = map_set toolId tool (entries r) →
  map_get toolId (entries r) = None →
  (∀ key id, found' key id ↔ (id = toolId ∧ own key tool) ∨ found key id) →
  coherentIndex r found own → coherentIndex r' found' own.
Proof.
  intros Hentries Hfresh Hfound Hcoh key id. specialize (Hcoh key id).
  rewrite Hfound, Hcoh, Hentries, map_get_set. case_decide as Hid.
  - subst id. rewrite Hfresh. naive_solver.
  - naive_solver.
Qed.

(** Removing a tool together with its own keys keeps an index coherent. *)
Lemma coherentIndex_delete (r r' : ToolRegistry) (toolId : string)
    (tool : Tool.t) (found found' : string → string → Prop)
    (own : string → Tool.t → Prop) :
  entries r' = map_delete toolId (entries r) →
  map_get toolId (entries r) = Some tool →
  (∀ key id, found' key id ↔ found key id ∧ ¬ (id = toolId ∧ own key tool)) →
  coherentIndex r found own → coherentIndex r' found' own.
Proof.
  intros Hentries Htool Hfound Hcoh key id. specialize (Hcoh key id).
  rewrite Hfound, Hcoh, Hentries, map_get_delete. case_decide as Hid.
  - subst id. rewrite Htool. naive_solver.
  - naive_solver.
Qed.

Lemma coherent_emptyRegistry : coherent emptyRegistry.
Proof.
  repeat split; simpl; try (unfold listed; rewrite lookup_empty; simpl);
    try set_solver; naive_solver.
Qed.

Section CoherenceSteps.
Variable validateToolDefinition : ToolDefinition.t → ValidationError + Tool.t.

Lemma registerTool_coherent (d : ToolDefinition.t) (uuid : string)
    (r : ToolRegistry) :
  coherent r →
  newRegistration validateToolDefinition d uuid r = true →
  coherent (registerTool validateToolDefinition d uuid r).2.
Proof.
  intros (Hn & Hc & Hcap & Hkw) Hnew.
  unfold registerTool, newRegistration in *.
  destruct (validateToolDefinition d) as [e|tool]; [done|].
  apply andb_true_iff in Hnew as [Hid Hname].
  assert (Hfresh : map_get (toolIdOf tool uuid) (entries r) = None).
  { apply negb_true_iff in Hid. unfold map_has in Hid.
    apply bool_decide_eq_false in Hid.
    destruct (map_get (toolIdOf tool uuid) (entries r)); [|done].
    exfalso. apply Hid. eauto. }
  assert (Hnm : ∀ id t, map_get id (entries r) = Some t →
                toLowerCase (Tool.name t) ≠ toLowerCase (Tool.name tool)).
  { intros id t Hget Heq. apply map_get_Some_elem in Hget.
    rewrite forallb_forall in Hname. apply list_elem_of_In in Hget.
    specialize (Hname _ Hget). simpl in Hname.
    apply negb_true_iff, String.eqb_neq in Hname. done. }
  simpl. split; [|split; [|split]].
  - eapply coherentIndex_set; [reflexivity | exact Hfresh | | exact Hn].
    simpl. intros key id. unfold ownName. rewrite lookup_insert.
    case_decide as Hkey; [|naive_solver]. subst key.
    split; [naive_solver|]. intros [[-> _]|Hold]; [done|].
    apply Hn in Hold as (t & Hget & Hown). by apply Hnm in Hget.
  - eapply coherentIndex_set; [reflexivity | exact Hfresh | | exact Hc].
    simpl. intros key id. unfold ownCategory. case_decide as Hcat.
    + naive_solver.
    + rewrite listed_index_add. naive_solver.
  - eapply coherentIndex_set; [reflexivity | exact Hfresh | | exact Hcap].
    simpl. intros key id. apply listed_index_add_all.
  - eapply coherentIndex_set; [reflexivity | exact Hfresh | | exact Hkw].
    simpl. intros key id. apply listed_index_add_all.
Qed.

Lemma unregisterTool_coherent (toolIdentifier : string) (r : ToolRegistry) :
  coherent r → coherent (unregisterTool toolIdentifier r).2.
Proof.
  intros (Hn & Hc & Hcap & Hkw). unfold unregisterTool.
  destruct (if map_has toolIdentifier (entries r) then Some toolIdentifier
            else byName (metadataIndex r) !! toLowerCase toolIdentifier)
    as [toolId|]; [|done].
  destruct (map_get toolId (entries r)) as [tool|] eqn:Htool; [|done].
  simpl. split; [|split; [|split]].
  - eapply coherentIndex_delete; [reflexivity | exact Htool | | exact Hn].
    simpl. intros key id. unfold ownName. rewrite lookup_delete.
    case_decide as Hkey; [|naive_solver]. subst key.
    split; [done|]. intros [Hold Hnot]. exfalso. apply Hnot.
    split; [|done].
    assert (Hmine : byName (metadataIndex r) !! toLowerCase (Tool.name tool)
                    = Some toolId).
    { apply (Hn (toLowerCase (Tool.name tool)) toolId). by exists tool. }
    congruence.
  - eapply coherentIndex_delete; [reflexivity | exact Htool | | exact Hc].
    simpl. intros key id. unfold ownCategory. case_decide as Hcat.
    + naive_solver.
    + rewrite listed_index_remove. naive_solver.
  - eapply coherentIndex_delete; [reflexivity | exact Htool | | exact Hcap].
    simpl. intros key id. apply listed_index_remove_all.
  - eapply coherentIndex_delete; [reflexivity | exact Htool | | exact Hkw].
    simpl. intros key id. apply listed_index_remove_all.
Qed.

Lemma runOps_coherent (ops : list RegistryOp) (r : ToolRegistry) :
  coherent r →
  newRegistrations validateToolDefinition ops r = true →
  coherent (runOps validateToolDefinition ops r).
Proof.
  revert r. induction ops as [|op ops IH]; intros r Hcoh Hnew; [done|].
  simpl in Hnew. apply andb_true_iff in Hnew as [Hop Hops].
  simpl. apply IH; [|done]. destruct op as [d uuid|ident]; simpl.
  - by apply registerTool_coherent.
  - by apply unregisterTool_coherent.
Qed.
End CoherenceSteps.

(** C6 as stated fails.  After registering ["Echo"] under id ["a"] and then
    ["echo"] under id ["b"], the tool ["a"] is in the map and the name index
    leads to ["b"]; after registering ["a"] again under another category,
    the old category still lists it. *)
Lemma indices_incoherent_after_collision :
  ¬ coherent (runOps validateToolDefinition_spec
                [Register echoDefinition "uuid-0";
                 Register shoutDefinition "uuid-1"] emptyRegistry)
  ∧ ¬ coherent (runOps validateToolDefinition_spec
                  [Register echoDefinition "uuid-0";
                   Register movedEchoDefinition "uuid-1"] emptyRegistry).
Proof.
  split.
  - intros (Hn & _). destruct (Hn "echo" "a") as [_ Hback].
    assert (Hfalse : byName (metadataIndex
               (runOps validateToolDefinition_spec
                  [Register echoDefinition "uuid-0";
                   Register shoutDefinition "uuid-1"] emptyRegistry))
             !! "echo" = Some "a").
    { apply Hback. exists echoTool. split; reflexivity. }
    vm_compute in Hfalse. discriminate.
  - intros (_ & Hc & _). destruct (Hc "util" "a") as [Hfwd _].
    destruct Hfwd as (tool & Hget & Hcat & _).
    { unfold listed. vm_compute. reflexivity. }
    vm_compute in Hget. injection Hget as <-. simpl in Hcat. discriminate.
Qed.

(** C6, amended.  After every sequence of [registerTool] and
    [unregisterTool] calls in which every accepted registration brings an id
    that is not in the map and a name that no registered tool has (case
    aside), the by-name, by-category, by-capability and by-keyword indices
    are coherent with the primary map: every index entry refers to a tool of
    the map that has the entry's key, and every tool of the map is found
    under each of its own keys. *)
Theorem indices_coherent
    (validateToolDefinition : ToolDefinition.t → ValidationError + Tool.t)
    (ops : list RegistryOp) :
  newRegistrations validateToolDefinition ops emptyRegistry = true →
  coherent (runOps validateToolDefinition ops emptyRegistry).
Proof.
  intros Hnew. apply runOps_coherent; [apply coherent_emptyRegistry | done].
Qed.

Lemma indices_coherent_witness :
  newRegistrations validateToolDefinition_spec
    [Register echoDefinition "uuid-0";
     Register (plainDefinition "" "Alpha" "first letter" ["a"; "alpha"]) "uuid-1";
     Register namelessDefinition "uuid-2";
     Unregister "ECHO";
     Register shoutDefinition "uuid-3"] emptyRegistry = true
  ∧ coherent (runOps validateToolDefinition_spec
                [Register echoDefinition "uuid-0";
                 Register (plainDefinition "" "Alpha" "first letter"
                             ["a"; "alpha"]) "uuid-1";
                 Register namelessDefinition "uuid-2";
                 Unregister "ECHO";
                 Register shoutDefinition "uuid-3"] emptyRegistry).
Proof.
  split; [vm_compute; reflexivity|].
  apply (indices_coherent validateToolDefinition_spec
           [Register echoDefinition "uuid-0";
            Register (plainDefinition "" "Alpha" "first letter"
                        ["a"; "alpha"]) "uuid-1";
            Register namelessDefinition "uuid-2";
            Unregister "ECHO";
            Register shoutDefinition "uuid-3"]).
  vm_compute. reflexivity.
Defined.

(** X18.  On a coherent registry, and for keywords that the keyword index
    knows, [findTools] returns the intersection that the criteria describe:
    the tools of the given category, with the given capability, with every
    given keyword, and with the given input and output types. *)
Lemma findTools_intersection (criteria : Criteria) (r : ToolRegistry)
    (tool : Tool.t) :
  NoDup (entries r).*1 →
  coherent r →
  (∀ keyword, keyword ∈ c_keywords criteria →
     is_Some (byKeyword (metadataIndex r) !! toLowerCase keyword)) →
  tool ∈ findTools criteria r
  ↔ ∃ id,
      map_get id (entries r) = Some tool
      ∧ (c_category criteria = "" ∨ Tool.category tool = c_category criteria)
      ∧ (c_capability criteria = ""
         ∨ toLowerCase (c_capability criteria)
           ∈ toLowerCase <$> Tool.capabilities tool)
      ∧ (∀ keyword, keyword ∈ c_keywords criteria →
           toLowerCase keyword ∈ toLowerCase <$> Tool.keywords tool)
      ∧ (c_inputType criteria = ""
         ∨ c_inputType criteria ∈ Tool.inputTypes tool)
      ∧ (c_outputType criteria = ""
         ∨ c_outputType criteria ∈ Tool.outputTypes tool).
Proof.
  intros Hnd (_ & Hcat & Hcap & Hkw) Hknown.
  rewrite findTools_selects by done.
  assert (Hlisted : ∀ found own id key,
            coherentIndex r found own → map_get id (entries r) = Some tool →
            found key id ↔ own key tool).
  { intros found own id key Hcoh Hget. rewrite (Hcoh key id). split.
    - intros (tool' & Hget' & Hown). congruence.
    - intros Hown. eauto. }
  rewrite list_elem_of_fmap. split.
  - intros ([id tool'] & -> & He). simpl.
    apply list_elem_of_filter in He as [Hsel He].
    assert (Hget : map_get id (entries r) = Some tool')
      by (by apply map_get_NoDup).
    destruct Hsel as (Hc & Hp & Hk & Hi & Ho). simpl in *.
    exists id. split; [done|]. repeat split; try done.
    + destruct Hc as [?|Hc]; [by left|]. right.
      apply (Hlisted _ _ _ _ Hcat Hget) in Hc. by destruct Hc.
    + destruct Hp as [?|Hp]; [by left|]. right.
      by apply (Hlisted _ _ _ _ Hcap Hget) in Hp.
    + intros keyword Hin. rewrite Forall_forall in Hk.
      destruct (Hk keyword Hin) as [Hnone|Hl].
      * destruct (Hknown keyword Hin) as [s Hs]. congruence.
      * by apply (Hlisted _ _ _ _ Hkw Hget) in Hl.
  - intros (id & Hget & Hc & Hp & Hk & Hi & Ho).
    exists (id, tool). split; [done|].
    apply list_elem_of_filter. split; [|by apply map_get_Some_elem].
    repeat split; simpl; try done.
    + destruct Hc as [?|Hc]; [by left|].
      destruct (decide (c_category criteria = "")); [by left|]. right.
      by apply (Hlisted _ _ _ _ Hcat Hget).
    + destruct Hp as [?|Hp]; [by left|]. right.
      by apply (Hlisted _ _ _ _ Hcap Hget).
    + apply Forall_forall. intros keyword Hin. right.
      apply (Hlisted _ _ _ _ Hkw Hget). by apply Hk.
Qed.

(** ** Export and import *)

Lemma exportData_ids (r : ToolRegistry) :
  ToolDefinition.id <$> data_tools (exportData r) = (entries r).*1.
Proof.
  unfold exportData. simpl. induction (entries r) as [|[id tool] l IH];
    simpl; [done|]. f_equal. exact IH.
Qed.

Lemma exportData_no_handler (r : ToolRegistry) :
  Forall (λ d, ToolDefinition.execute d = None) (data_tools (exportData r)).
Proof.
  unfold exportData. simpl. induction (entries r) as [|[id tool] l IH];
    simpl; constructor; [done | exact IH].
Qed.

Section ImportFacts.
Variable validateToolDefinition : ToolDefinition.t → ValidationError + Tool.t.

(** Definitions that the validation rejects leave the registry alone and
    are not counted. *)
Lemma importTools_rejected (uuids : nat → string)
    (defs : list ToolDefinition.t) (r : ToolRegistry) :
  Forall (λ d, ∃ e, validateToolDefinition d = inl e) defs →
  importTools validateToolDefinition uuids defs r = (0%nat, r, length defs).
Proof.
  intros Hrej. unfold importTools.
  assert (Hgen : ∀ (count k : nat),
            foldl (λ '(importCount, r, k) toolDefinition,
                     let '(ok, r') :=
                       registerTool validateToolDefinition toolDefinition
                         (uuids k) r in
                     (if ok then S importCount else importCount, r', S k))
              (count, r, k) defs
            = (count, r, (k + length defs)%nat)).
  { induction Hrej as [|d defs [e He] _ IH]; intros count k; simpl.
    - f_equal. lia.
    - unfold registerTool at 2. rewrite He. rewrite IH. f_equal. lia. }
  apply Hgen.
Qed.
End ImportFacts.

Lemma importStats_no_tools (stats : gmap string ToolStats) (r : ToolRegistry) :
  entries r = [] → importStats stats r = r.
Proof.
  intros Hempty. unfold importStats. rewrite Hempty.
  assert (Hfold : ∀ (l : list (string * ToolStats))
                    (acc : gmap string ToolStats),
            foldl (λ acc '(toolId, st),
                     if map_has toolId ([] : list (string * Tool.t))
                     then <[toolId := st]> acc else acc) acc l = acc).
  { induction l as [|[k st] l IH]; intros acc; simpl; [done|]. apply IH. }
  rewrite Hfold. destruct r. simpl in *. by subst.
Qed.

(** C1 as stated fails: the registry that holds ["Echo"] comes back from
    the round trip without any tool. *)
Lemma importData_exportData_loses_tools :
  (entries echoRegistry).*1 = ["a"]
  ∧ importData validateToolDefinition_spec (exportData echoRegistry)
      (λ _, "uuid") echoRegistry
    = (0%nat, emptyRegistry).
Proof. split; vm_compute; reflexivity. Qed.

(** C1, amended.  [exportData] lists every tool of the registry under its
    id, without its [execute] handler, next to the usage statistics.
    [importData] takes the exported data alone, no handler table: it clears
    the registry and hands each definition to [registerTool].  With a
    validation that requires [execute], as the specification has it, the
    round trip imports no tool and leaves the registry empty, whatever it
    held. *)
Theorem importData_exportData
    (validateToolDefinition : ToolDefinition.t → ValidationError + Tool.t)
    (r r0 : ToolRegistry) (uuids : nat → string) :
  (∀ d, ToolDefinition.execute d = None →
        ∃ e, validateToolDefinition d = inl e) →
  ToolDefinition.id <$> data_tools (exportData r) = (entries r).*1
  ∧ data_usageStats (exportData r) = usageStats r
  ∧ Forall (λ d, ToolDefinition.execute d = None) (data_tools (exportData r))
  ∧ importData validateToolDefinition (exportData r) uuids r0
    = (0%nat, emptyRegistry).
Proof.
  intros Hrequired.
  split; [apply exportData_ids|]. split; [reflexivity|].
  split; [apply exportData_no_handler|].
  unfold importData. rewrite importTools_rejected.
  - by rewrite importStats_no_tools.
  - eapply Forall_impl; [apply exportData_no_handler|]. simpl.
    intros d Hd. by apply Hrequired.
Qed.

Lemma importData_exportData_witness :
  (∀ d, ToolDefinition.execute d = None →
        ∃ e, validateToolDefinition_spec d = inl e)
  ∧ ToolDefinition.id <$> data_tools (exportData usedRegistry)
    = (entries usedRegistry).*1
  ∧ data_usageStats (exportData usedRegistry) = usageStats usedRegistry
  ∧ Forall (λ d, ToolDefinition.execute d = None)
      (data_tools (exportData usedRegistry))
  ∧ importData validateToolDefinition_spec (exportData usedRegistry)
      (λ k, "uuid") echoRegistry
    = (0%nat, emptyRegistry).
Proof.
  assert (Hrequired : ∀ d, ToolDefinition.execute d = None →
                        ∃ e, validateToolDefinition_spec d = inl e).
  { intros d Hd. unfold validateToolDefinition_spec. rewrite Hd.
    destruct (ToolDefinition.name d); eexists; reflexivity. }
  split; [exact Hrequired|].
  exact (importData_exportData validateToolDefinition_spec usedRegistry
           echoRegistry (λ k, "uuid") Hrequired).
Defined.

(** ** The round trip under a validation that does not ask for a handler

    What the round trip keeps when the validation lets the exported
    definitions through as they are. *)

Lemma map_get_fmap_withoutHandler (id : string) (l : list (string * Tool.t)) :
  map_get id (withoutHandler <$> l)
  = (λ tool, (withoutHandler (id, tool)).2) <$> map_get id l.
Proof.
  induction l as [|[k t] l IH]; simpl; [done|].
  case_decide; [by subst|]. exact IH.
Qed.

Lemma stored_stats_fold (present : string → bool)
    (l : list (string * ToolStats)) (acc : gmap string ToolStats) (k : string) :
  NoDup l.*1 →
  (∀ e, e ∈ l → present e.1 = true) →
  foldl (λ acc '(toolId, st),
           if present toolId then <[toolId := st]> acc else acc) acc l !! k
  = match (list_to_map l : gmap string ToolStats) !! k with
    | Some st => Some st
    | None => acc !! k
    end.
Proof.
  revert acc. induction l as [|[k0 st0] l IH]; intros acc Hnd Hpresent.
  - simpl. by rewrite lookup_empty.
  - simpl in Hnd. apply NoDup_cons in Hnd as [Hk0 Hnd]. cbn [foldl].
    pose proof (Hpresent (k0, st0) ltac:(left)) as Hk0p. simpl in Hk0p.
    rewrite Hk0p.
    rewrite IH by (done || (intros e He; apply Hpresent; by right)).
    rewrite list_to_map_cons. destruct (decide (k0 = k)) as [->|Hk].
    + apply not_elem_of_list_to_map in Hk0. rewrite Hk0.
      by rewrite !lookup_insert_eq.
    + rewrite (lookup_insert_ne (list_to_map l)) by done.
      destruct (list_to_map l !! k); [done|]. by rewrite lookup_insert_ne.
Qed.

Section RoundTrip.
Variable validateToolDefinition : ToolDefinition.t → ValidationError + Tool.t.
Hypothesis accepts_named :
  ∀ d n, ToolDefinition.name d = Some n →
         validateToolDefinition d = inr (asGiven d n).

Lemma registerTool_exported (e : string * Tool.t) (uuid : string)
    (seen : list (string * Tool.t)) (r : ToolRegistry) :
  e.1 ≠ "" →
  e.1 ∉ seen.*1 →
  (∀ e', e' ∈ seen →
         toLowerCase (Tool.name e'.2) ≠ toLowerCase (Tool.name e.2)) →
  imported seen r →
  (registerTool validateToolDefinition (exportTool e.1 e.2) uuid r).1 = true
  ∧ imported (seen ++ [e])%list
      (registerTool validateToolDefinition (exportTool e.1 e.2) uuid r).2.
Proof.
  intros Hid Hfresh Hnames (Hentries & Hcoh & Hstats).
  assert (Hvalid : validateToolDefinition (exportTool e.1 e.2)
                   = inr (withoutHandler e).2).
  { by rewrite (accepts_named _ (Tool.name e.2)). }
  assert (HtoolId : toolIdOf (withoutHandler e).2 uuid = e.1).
  { unfold toolIdOf. simpl. by rewrite decide_False. }
  assert (Hnone : map_get e.1 (entries r) = None).
  { rewrite Hentries, map_get_fmap_withoutHandler.
    assert (map_get e.1 seen = None) as -> by (by apply map_get_None). done. }
  assert (Hnew : newRegistration validateToolDefinition (exportTool e.1 e.2)
                   uuid r = true).
  { unfold newRegistration. rewrite Hvalid, HtoolId.
    apply andb_true_iff. split.
    - unfold map_has. rewrite Hnone. apply negb_true_iff.
      apply bool_decide_eq_false. by intros [? ?].
    - apply forallb_forall. intros e' He'. apply list_elem_of_In in He'.
      rewrite Hentries in He'. apply list_elem_of_fmap in He' as (e0 & -> & He0).
      apply negb_true_iff, String.eqb_neq. simpl. by apply Hnames. }
  pose proof (registerTool_coherent validateToolDefinition _ uuid r Hcoh Hnew)
    as Hcoh'.
  unfold registerTool in *. rewrite Hvalid in *. rewrite HtoolId in *.
  simpl in *. split; [done|]. split; [|split; [done|]].
  - rewrite map_set_fresh by done. by rewrite Hentries, fmap_app.
  - intros id. simpl. rewrite lookup_insert, map_get_set.
    destruct (decide (e.1 = id)) as [->|Hne].
    + rewrite decide_True by done. split; eauto.
    + rewrite decide_False by done. apply Hstats.
Qed.

Lemma importTools_exported (uuids : nat → string)
    (todo seen : list (string * Tool.t)) (r : ToolRegistry) (count k : nat) :
  NoDup (seen ++ todo)%list.*1 →
  "" ∉ (seen ++ todo)%list.*1 →
  (∀ e1 e2, e1 ∈ (seen ++ todo)%list → e2 ∈ (seen ++ todo)%list →
            toLowerCase (Tool.name e1.2) = toLowerCase (Tool.name e2.2) →
            e1.1 = e2.1) →
  imported seen r →
  ∃ r',
    foldl (λ '(importCount, r, k) toolDefinition,
             let '(ok, r') :=
               registerTool validateToolDefinition toolDefinition (uuids k) r in
             (if ok then S importCount else importCount, r', S k))
      (count, r, k) ((λ '(id, tool), exportTool id tool) <$> todo)
    = ((count + length todo)%nat, r', (k + length todo)%nat)
    ∧ imported (seen ++ todo)%list r'.
Proof.
  revert seen r count k.
  induction todo as [|e todo IH]; intros seen r count k Hnd Hids Hnames Himp.
  - exists r. simpl. rewrite app_nil_r, !Nat.add_0_r. done.
  - assert (Hsplit : (seen ++ e :: todo = (seen ++ [e]) ++ todo)%list)
      by (by rewrite <- app_assoc).
    rewrite Hsplit in *.
    assert (Hnd' := Hnd). rewrite !fmap_app in Hnd'.
    apply NoDup_app in Hnd' as (Hnd1 & _ & _).
    apply NoDup_app in Hnd1 as (_ & Hdisj & _).
    destruct (registerTool_exported e (uuids k) seen r) as [Hok Himp'].
    + intros Hempty. apply Hids. rewrite !fmap_app. simpl.
      rewrite !elem_of_app. left. right. rewrite Hempty. by left.
    + intros Hin. apply (Hdisj _ Hin). by left.
    + intros e' He' Heq.
      assert (e'.1 = e.1) as Hsame.
      { apply Hnames; [|by (rewrite !elem_of_app; left; right; left)|done].
        rewrite !elem_of_app. by left; left. }
      apply (Hdisj e'.1); [|rewrite Hsame; by left].
      apply list_elem_of_fmap. by exists e'.
    + done.
    + destruct (IH (seen ++ [e])%list
                  (registerTool validateToolDefinition (exportTool e.1 e.2)
                     (uuids k) r).2
                  (S count) (S k) Hnd Hids Hnames Himp') as (r' & Hfold & Hr').
      exists r'. split; [|done]. cbn [fmap list_fmap foldl].
      destruct e as [id tool]. simpl in *.
      destruct (registerTool validateToolDefinition (exportTool id tool)
                  (uuids k) r) as [ok r1]. simpl in *. subst ok.
      rewrite Hfold. f_equal; [f_equal|]; lia.
Qed.

(** For a registry with distinct, non-empty ids, coherent indices and
    statistics for exactly its tools, the round trip brings back the same
    ids in the same order, the same name index, the same tools under every
    category, capability and keyword, and the same statistics; the tools
    come back without handler. *)
Lemma importData_exportData_without_handlers (r r0 : ToolRegistry)
    (uuids : nat → string) :
  NoDup (entries r).*1 →
  "" ∉ (entries r).*1 →
  coherent r →
  statsForTools r →
  ∃ r',
    importData validateToolDefinition (exportData r) uuids r0
    = (length (entries r), r')
    ∧ entries r' = withoutHandler <$> entries r
    ∧ byName (metadataIndex r') = byName (metadataIndex r)
    ∧ (∀ key id, listed (categories r') key id ↔ listed (categories r) key id)
    ∧ (∀ key id, listed (byCapability (metadataIndex r')) key id
                 ↔ listed (byCapability (metadataIndex r)) key id)
    ∧ (∀ key id, listed (byKeyword (metadataIndex r')) key id
                 ↔ listed (byKeyword (metadataIndex r)) key id)
    ∧ usageStats r' = usageStats r.
Proof.
  intros Hnd Hids (Hn & Hc & Hcap & Hkw) Hstats.
  assert (Hget : ∀ e, e ∈ entries r → map_get e.1 (entries r) = Some e.2).
  { intros [id tool] He. by apply map_get_NoDup. }
  destruct (importTools_exported uuids (entries r) [] emptyRegistry 0 0)
    as (r1 & Hfold & Hentries & (Hn1 & Hc1 & Hcap1 & Hkw1) & Hstats1).
  - done.
  - done.
  - simpl. intros e1 e2 He1 He2 Heq.
    assert (H1 : byName (metadataIndex r) !! toLowerCase (Tool.name e1.2)
                 = Some e1.1).
    { apply (Hn (toLowerCase (Tool.name e1.2)) e1.1). exists e1.2.
      split; [by apply Hget | reflexivity]. }
    assert (H2 : byName (metadataIndex r) !! toLowerCase (Tool.name e1.2)
                 = Some e2.1).
    { apply (Hn (toLowerCase (Tool.name e1.2)) e2.1). exists e2.2.
      split; [by apply Hget | by symmetry]. }
    congruence.
  - split; [done|]. split; [apply coherent_emptyRegistry|].
    intros id. simpl. rewrite lookup_empty. split; by intros [? ?].
  - simpl in Hfold, Hentries.
    exists (importStats (usageStats r) r1).
    unfold importData, importTools, exportData.
    cbn [data_tools data_usageStats]. rewrite Hfold. split; [done|].
    assert (Hsame : ∀ (own : string → Tool.t → Prop) key id,
              (∀ e, own key (withoutHandler e).2 ↔ own key e.2) →
              (∃ tool, map_get id (entries r1) = Some tool ∧ own key tool)
              ↔ (∃ tool, map_get id (entries r) = Some tool ∧ own key tool)).
    { intros own key id Hown.
      rewrite Hentries, map_get_fmap_withoutHandler.
      destruct (map_get id (entries r)) as [tool|]; simpl.
      - specialize (Hown (id, tool)). simpl in Hown. naive_solver.
      - naive_solver. }
    simpl. split; [done|]. split; [|split; [|split; [|split]]].
    + apply map_eq. intros key. apply option_eq. intros id.
      rewrite (Hn1 key id), (Hn key id). by apply Hsame.
    + intros key id. rewrite (Hc1 key id), (Hc key id). by apply Hsame.
    + intros key id. rewrite (Hcap1 key id), (Hcap key id). by apply Hsame.
    + intros key id. rewrite (Hkw1 key id), (Hkw key id). by apply Hsame.
    + apply map_eq. intros id.
      rewrite (stored_stats_fold (λ toolId, map_has toolId (entries r1))).
      * rewrite list_to_map_to_list.
        destruct (usageStats r !! id) as [st|] eqn:Hst; [done|].
        destruct (usageStats r1 !! id) as [st1|] eqn:Hst1; [|done].
        exfalso. assert (Hin : is_Some (map_get id (entries r1)))
          by (apply Hstats1; eauto).
        rewrite Hentries, map_get_fmap_withoutHandler in Hin.
        apply fmap_is_Some, Hstats in Hin. rewrite Hst in Hin.
        by destruct Hin.
      * apply NoDup_fst_map_to_list.
      * intros [id' st'] He. apply elem_of_map_to_list in He. simpl.
        unfold map_has. apply bool_decide_eq_true.
        rewrite Hentries, map_get_fmap_withoutHandler. apply fmap_is_Some.
        apply Hstats. eauto.
Qed.
End RoundTrip.

Lemma statsForTools_emptyRegistry : statsForTools emptyRegistry.
Proof. intros id. simpl. rewrite lookup_empty. split; by intros [? ?]. Qed.

Lemma registerTool_statsForTools
    (validateToolDefinition : ToolDefinition.t → ValidationError + Tool.t)
    (d : ToolDefinition.t) (uuid : string) (r : ToolRegistry) :
  statsForTools r →
  statsForTools (registerTool validateToolDefinition d uuid r).2.
Proof.
  intros Hstats. unfold registerTool.
  destruct (validateToolDefinition d) as [e|tool]; [done|].
  intros id. simpl. rewrite lookup_insert, map_get_set.
  destruct (decide (toolIdOf tool uuid = id)) as [->|Hne].
  - rewrite decide_True by done. split; eauto.
  - rewrite decide_False by done. apply Hstats.
Qed.

Lemma unregisterTool_statsForTools (toolIdentifier : string)
    (r : ToolRegistry) :
  statsForTools r → statsForTools (unregisterTool toolIdentifier r).2.
Proof.
  intros Hstats. unfold unregisterTool.
  destruct (if map_has toolIdentifier (entries r) then _ else _)
    as [toolId|]; [|done].
  destruct (map_get toolId (entries r)) as [tool|]; [|done].
  intros id. simpl. rewrite lookup_delete, map_get_delete.
  destruct (decide (toolId = id)) as [->|Hne].
  - rewrite decide_True by done. split; by intros [? ?].
  - rewrite decide_False by done. apply Hstats.
Qed.

Lemma recordToolUsage_statsForTools (toolId now : string) (rep : UsageReport)
    (r : ToolRegistry) :
  statsForTools r → statsForTools (recordToolUsage toolId rep now r).2.
Proof.
  intros Hstats. unfold recordToolUsage.
  destruct (usageStats r !! toolId) as [st|] eqn:Hst; [|done].
  assert (Hsame : ∀ st' id,
            is_Some (<[toolId := st']> (usageStats r) !! id)
            ↔ is_Some (map_get id (entries r))).
  { intros st' id. rewrite lookup_insert. case_decide as Hid; [|apply Hstats].
    subst id. rewrite <- (Hstats toolId), Hst. split; eauto. }
  destruct (executionTime rep); simpl; intros id; apply Hsame.
Qed.

Lemma runOps_statsForTools
    (validateToolDefinition : ToolDefinition.t → ValidationError + Tool.t)
    (ops : list RegistryOp) (r : ToolRegistry) :
  statsForTools r → statsForTools (runOps validateToolDefinition ops r).
Proof.
  revert r. induction ops as [|op ops IH]; intros r Hstats; [done|].
  simpl. apply IH. destruct op; simpl.
  - by apply registerTool_statsForTools.
  - by apply unregisterTool_statsForTools.
Qed.

Lemma recordToolUsage_coherent (toolId now : string) (rep : UsageReport)
    (r : ToolRegistry) :
  coherent r → coherent (recordToolUsage toolId rep now r).2.
Proof.
  intros Hcoh. unfold recordToolUsage.
  destruct (usageStats r !! toolId); [|done].
  by destruct (executionTime rep).
Qed.

Lemma validateNameOnly_accepts (d : ToolDefinition.t) (n : string) :
  ToolDefinition.name d = Some n → validateNameOnly d = inr (asGiven d n).
Proof. intros Hn. unfold validateNameOnly. by rewrite Hn. Qed.

(** The round trip of [roundTripRegistry] under [validateNameOnly]. *)
Lemma importData_exportData_without_handlers_example :
  ∃ r',
    importData validateNameOnly (exportData roundTripRegistry)
      (λ _, "uuid") emptyRegistry
    = (2%nat, r')
    ∧ entries r' = withoutHandler <$> entries roundTripRegistry
    ∧ byName (metadataIndex r') = byName (metadataIndex roundTripRegistry)
    ∧ usageStats r' = usageStats roundTripRegistry.
Proof.
  destruct (importData_exportData_without_handlers validateNameOnly
              validateNameOnly_accepts roundTripRegistry emptyRegistry
              (λ _, "uuid"))
    as (r' & Himport & Hentries & Hnames & _ & _ & _ & Hstats).
  - apply (bool_decide_unpack _). vm_compute. exact I.
  - apply (bool_decide_unpack _). vm_compute. exact I.
  - apply recordToolUsage_coherent, runOps_coherent;
      [apply coherent_emptyRegistry | vm_compute; reflexivity].
  - apply recordToolUsage_statsForTools, runOps_statsForTools,
      statsForTools_emptyRegistry.
  - exists r'. done.
Qed.

(** ** Turn histories *)

Lemma pairs_ind {A : Type} (P : list A → Prop) :
  P [] → (∀ x, P [x]) → (∀ x y l, P l → P (x :: y :: l)) → ∀ l, P l.
Proof.
  intros Hnil Hone Hstep l.
  assert (H : P l ∧ ∀ x, P (x :: l)); [|tauto].
  induction l as [|y l [IH1 IH2]]; split; auto.
Qed.

Lemma exchanges_alternating (h : list Turn) : exchanges h → alternating h.
Proof.
  unfold alternating. induction h as [|x|u a h IH] using pairs_ind; simpl.
  - done.
  - done.
  - intros (Hu & Ha & Hh). rewrite Hu, Ha. simpl. auto.
Qed.

Lemma exchanges_push (h : list Turn) (u a : Turn) :
  role u = user → role a = assistant →
  exchanges h → exchanges (h ++ [u; a]).
Proof.
  intros Hu Ha. induction h as [|x|x y h IH] using pairs_ind; simpl.
  - auto.
  - done.
  - intros (Hx & Hy & Hh). auto.
Qed.

(** ** One query *)

Lemma failQuery_state (sid : string) (error : Error) (run : Run) (st : State) :
  (failQuery sid error run st).2 = st.
Proof.
  unfold failQuery. by destruct (handleExecutionError _ _) as [[? ?] ?].
Qed.

Lemma writeContext_twice (sid : string) (c1 c2 : Context.t) (st : State) :
  writeContext sid c2 (writeContext sid c1 st) = writeContext sid c2 st.
Proof. unfold writeContext. simpl. by rewrite insert_insert_eq. Qed.

(** A path of [processQuery] that ends in the [catch] block before
    step 6. *)
Ltac history_kept :=
  rewrite failQuery_state, ?writeContext_twice; eexists;
  refine (conj _ (conj _ (or_introl eq_refl)));
  [reflexivity | left; reflexivity].

(** The state after [processQuery]: the context of the session, with its
    [lastUpdated] as it was and its history either as it was or two turns
    longer, written to [activeContexts] and, when the query went through,
    to the store. *)
Lemma processQuery_state (queryData : QueryData) (run : Run) (st : State) :
  let sid := sessionId queryData in
  let cs := getOrCreateContext sid (queryUserId queryData) run st in
  ∃ c',
    Context.lastUpdated c' = Context.lastUpdated cs.1
    ∧ (Context.conversationHistory c' = Context.conversationHistory cs.1
       ∨ ∃ u a, role u = user ∧ role a = assistant
                ∧ Context.conversationHistory c'
                  = (Context.conversationHistory cs.1 ++ [u; a])%list)
    ∧ ((processQuery queryData run st).2 = writeContext sid c' cs.2
       ∨ (processQuery queryData run st).2
         = storeSession sid c' (writeContext sid c' cs.2)).
Proof.
  simpl. unfold processQuery.
  destruct (getOrCreateContext _ _ run st) as [c0 st0]. simpl.
  destruct (analysis run) as [[intent entities]|e]; [|history_kept].
  destruct (planning run) as [plan|e]; [|history_kept].
  destruct (execution run) as [results|e]; [|history_kept].
  destruct (synthesis run) as [response|e]; [|history_kept].
  destruct (storing run) as [[]|e].
  - simpl. rewrite !writeContext_twice. eexists.
    refine (conj _ (conj _ (or_intror eq_refl))); [reflexivity|].
    right. eexists _, _. split; [|split]; [| |simpl; by rewrite <- app_assoc];
      reflexivity.
  - rewrite failQuery_state, !writeContext_twice. eexists.
    refine (conj _ (conj _ (or_introl eq_refl))); [reflexivity|].
    right. eexists _, _. split; [|split]; [| |simpl; by rewrite <- app_assoc];
      reflexivity.
Qed.

Lemma settled_writeContext (sid : string) (c : Context.t) (st : State) :
  settled st → exchanges (Context.conversationHistory c) →
  settled (writeContext sid c st).
Proof.
  intros [Hactive Hstored] Hc. split; simpl; [|done].
  intros sid' c'. rewrite lookup_insert. case_decide; [|eauto].
  by intros [= <-].
Qed.

Lemma settled_storeSession (sid : string) (c : Context.t) (st : State) :
  settled st → exchanges (Context.conversationHistory c) →
  settled (storeSession sid c st).
Proof.
  intros [Hactive Hstored] Hc. split; simpl; [done|].
  intros sid' c'. rewrite lookup_insert. case_decide; [|eauto].
  by intros [= <-].
Qed.

Lemma settled_getOrCreateContext (sid userId : string) (run : Run)
    (st : State) :
  settled st →
  settled (getOrCreateContext sid userId run st).2
  ∧ exchanges (Context.conversationHistory
                 (getOrCreateContext sid userId run st).1).
Proof.
  intros Hst. unfold getOrCreateContext, retrieveSession.
  destruct (activeContexts st !! sid) as [c|] eqn:Hactive.
  - split; [done|]. by apply (proj1 Hst sid).
  - destruct (retrieval run) as [[]|e]; simpl.
    + destruct (storedSessions st !! sid) as [saved|] eqn:Hsaved; simpl.
      * assert (exchanges (Context.conversationHistory saved))
          by (by apply (proj2 Hst sid)).
        split; [by apply settled_writeContext | done].
      * split; [by apply settled_writeContext | done].
    + split; [by apply settled_writeContext | done].
Qed.

Lemma settled_processQuery (queryData : QueryData) (run : Run) (st : State) :
  settled st → settled (processQuery queryData run st).2.
Proof.
  intros Hst.
  destruct (settled_getOrCreateContext (sessionId queryData)
              (queryUserId queryData) run st Hst) as [Hst0 Hc0].
  destruct (processQuery_state queryData run st)
    as (c' & _ & Hhist & Hstate). simpl in *.
  assert (Hc' : exchanges (Context.conversationHistory c')).
  { destruct Hhist as [->|(u & a & Hu & Ha & ->)]; [done|].
    by apply exchanges_push. }
  destruct Hstate as [-> | ->].
  - by apply settled_writeContext.
  - apply settled_storeSession; [by apply settled_writeContext | done].
Qed.

(** ** The idle sweep *)

Section SweepFacts.
Variable Date_parse : string → option Z.

Lemma sweep_fold (maxAgeMs now : Z) (l : list (string * Context.t))
    (active : gmap string Context.t) (count : nat) :
  NoDup l.*1 →
  let swept :=
    foldl (λ '(active, cleanedCount) '(sessionId, context),
             if isIdle Date_parse maxAgeMs now context
             then (delete sessionId active, S cleanedCount)
             else (active, cleanedCount))
      (active, count) l in
  (∀ sid,
     swept.1 !! sid
     = match (list_to_map l : gmap string Context.t) !! sid with
       | Some c =>
           if isIdle Date_parse maxAgeMs now c then None else active !! sid
       | None => active !! sid
       end)
  ∧ swept.2
    = (count
       + length (filter (λ kv, isIdle Date_parse maxAgeMs now kv.2 = true) l))%nat.
Proof.
  revert active count. induction l as [|[k c] l IH]; intros active count Hnd.
  - simpl. split; [intros sid; by rewrite lookup_empty | lia].
  - simpl in Hnd. apply NoDup_cons in Hnd as [Hk Hnd].
    cbn [foldl]. rewrite filter_cons. cbn [snd].
    destruct (isIdle Date_parse maxAgeMs now c) eqn:Hidle.
    + destruct (IH (delete k active) (S count) Hnd) as [Hlook Hcount].
      split.
      * intros sid. rewrite Hlook, list_to_map_cons, lookup_insert.
        case_decide as Hsid.
        -- subst sid. apply not_elem_of_list_to_map in Hk. rewrite Hk.
           by rewrite lookup_delete_eq, Hidle.
        -- by rewrite lookup_delete_ne.
      * rewrite Hcount, decide_True by done. simpl. lia.
    + destruct (IH active count Hnd) as [Hlook Hcount]. split.
      * intros sid. rewrite Hlook, list_to_map_cons, lookup_insert.
        case_decide as Hsid; [|done].
        subst sid. apply not_elem_of_list_to_map in Hk. rewrite Hk.
        by rewrite Hidle.
      * rewrite Hcount, decide_False by done. done.
Qed.

Lemma cleanupIdleContexts_lookup (maxAgeMs now : Z) (st : State)
    (sid : string) :
  activeContexts (cleanupIdleContexts Date_parse maxAgeMs now st).2 !! sid
  = match activeContexts st !! sid with
    | Some c =>
        if isIdle Date_parse maxAgeMs now c then None else Some c
    | None => None
    end.
Proof.
  unfold cleanupIdleContexts.
  pose proof (sweep_fold maxAgeMs now (map_to_list (activeContexts st))
                (activeContexts st) 0 (NoDup_fst_map_to_list _)) as [Hlook _].
  destruct (foldl _ _ _) as [active cleaned]. simpl in *.
  rewrite Hlook, list_to_map_to_list.
  destruct (activeContexts st !! sid) as [c|] eqn:Hc; [|done].
  by destruct (isIdle _ _ _ c).
Qed.

Lemma cleanupIdleContexts_count (maxAgeMs now : Z) (st : State) :
  (cleanupIdleContexts Date_parse maxAgeMs now st).1
  = length (filter (λ kv, isIdle Date_parse maxAgeMs now kv.2 = true)
              (map_to_list (activeContexts st))).
Proof.
  unfold cleanupIdleContexts.
  pose proof (sweep_fold maxAgeMs now (map_to_list (activeContexts st))
                (activeContexts st) 0 (NoDup_fst_map_to_list _)) as [_ Hcount].
  destruct (foldl _ _ _) as [active cleaned]. simpl in *. done.
Qed.

Lemma cleanupIdleContexts_stored (maxAgeMs now : Z) (st : State) :
  storedSessions (cleanupIdleContexts Date_parse maxAgeMs now st).2
  = storedSessions st.
Proof.
  unfold cleanupIdleContexts. by destruct (foldl _ _ _) as [active cleaned].
Qed.

Lemma isIdle_spec (maxAgeMs now : Z) (c : Context.t) :
  isIdle Date_parse maxAgeMs now c = true
  ↔ ∃ lastUpdated,
      lastUpdatedTime Date_parse (Context.lastUpdated c) = Some lastUpdated
      ∧ (now - lastUpdated > maxAgeMs)%Z.
Proof.
  unfold isIdle. destruct (lastUpdatedTime _ _) as [t|].
  - rewrite Z.ltb_lt. split.
    + intros H. exists t. split; [done | lia].
    + intros (t' & [= <-] & H). lia.
  - split; [done | by intros (t' & ? & _)].
Qed.

Lemma settled_cleanupIdleContexts (maxAgeMs now : Z) (st : State) :
  settled st → settled (cleanupIdleContexts Date_parse maxAgeMs now st).2.
Proof.
  intros [Hactive Hstored]. split.
  - intros sid c. rewrite cleanupIdleContexts_lookup.
    destruct (activeContexts st !! sid) as [c0|] eqn:Hc0; [|done].
    destruct (isIdle _ _ _ c0); [done|]. intros [= <-]. eauto.
  - rewrite cleanupIdleContexts_stored. done.
Qed.

Lemma settled_runEvents (events : list Event) (st : State) :
  settled st → settled (runEvents Date_parse events st).
Proof.
  revert st. induction events as [|ev events IH]; intros st Hst; [done|].
  simpl. apply IH. destruct ev as [queryData run|maxAgeMs now|now]; simpl.
  - by apply settled_processQuery.
  - by apply settled_cleanupIdleContexts.
  - by apply settled_cleanupIdleContexts.
Qed.
End SweepFacts.

Lemma length_filter_split {A : Type} (f : A → bool) (l : list A) :
  (length (filter (λ x, f x = false) l) + length (filter (λ x, f x = true) l)
   = length l)%nat.
Proof.
  induction l as [|x l IH]; [done|]. rewrite !filter_cons.
  destruct (f x) eqn:Hf.
  - rewrite decide_False, decide_True by done. simpl. lia.
  - rewrite decide_True, decide_False by done. simpl. lia.
Qed.

Lemma cleanupIdleContexts_kept (Date_parse : string → option Z)
    (maxAgeMs now : Z) (st : State) :
  activeContexts (cleanupIdleContexts Date_parse maxAgeMs now st).2
  = list_to_map
      (filter (λ kv, isIdle Date_parse maxAgeMs now kv.2 = false)
         (map_to_list (activeContexts st))).
Proof.
  rewrite <- (map_filter_alt
                (λ kv : string * Context.t,
                   isIdle Date_parse maxAgeMs now kv.2 = false)).
  apply map_eq. intros sid. rewrite cleanupIdleContexts_lookup.
  destruct (activeContexts st !! sid) as [c|] eqn:Hc.
  - destruct (isIdle Date_parse maxAgeMs now c) eqn:Hidle; symmetry.
    + apply map_lookup_filter_None. right. intros c' Hc' Hnot.
      rewrite Hc in Hc'. injection Hc' as <-. simpl in Hnot. congruence.
    + by apply map_lookup_filter_Some.
  - symmetry. apply map_lookup_filter_None. by left.
Qed.

(** C8.  The sweep removes from [activeContexts] exactly the contexts with
    [now - lastUpdated > maxAgeMs], where [lastUpdated] is the time that
    the stored [lastUpdated] of the context denotes: the number itself, the
    time that [Date.parse] gives for a string, the epoch when the property
    is absent or empty; a context whose [lastUpdated] denotes no time is
    kept.  The other contexts stay as they are, the stored sessions are not
    touched, and the number returned is the number of contexts removed.
    [maxAgeMs] defaults to 30 minutes, and the timer calls the sweep, with
    that default, every 15 minutes. *)
Theorem cleanupIdleContexts_evicts_idle (Date_parse : string → option Z)
    (maxAgeMs now : Z) (st : State) :
  activeContexts (cleanupIdleContexts Date_parse maxAgeMs now st).2
  = filter (λ kv, isIdle Date_parse maxAgeMs now kv.2 = false)
      (activeContexts st)
  ∧ (∀ c : Context.t,
       isIdle Date_parse maxAgeMs now c = true
       ↔ ∃ lastUpdated,
           lastUpdatedTime Date_parse (Context.lastUpdated c)
           = Some lastUpdated
           ∧ (now - lastUpdated > maxAgeMs)%Z)
  ∧ (∀ (sid : string) (c : Context.t),
       activeContexts st !! sid = Some c →
       activeContexts (cleanupIdleContexts Date_parse maxAgeMs now st).2
       !! sid
       = match Context.lastUpdated c with
         | DateAbsent =>
             if decide (maxAgeMs < now - 0)%Z then None else Some c
         | DateMillis ms =>
             if decide (Z.abs ms <= 8640000000000000)%Z
             then if decide (maxAgeMs < now - ms)%Z then None else Some c
             else Some c
         | DateString s =>
             if decide (s = "")
             then if decide (maxAgeMs < now - 0)%Z then None else Some c
             else match Date_parse s with
                  | Some ms =>
                      if decide (maxAgeMs < now - ms)%Z then None else Some c
                  | None => Some c
                  end
         end)
  ∧ (∀ sid : string,
       activeContexts st !! sid = None →
       activeContexts (cleanupIdleContexts Date_parse maxAgeMs now st).2
       !! sid = None)
  ∧ storedSessions (cleanupIdleContexts Date_parse maxAgeMs now st).2
    = storedSessions st
  ∧ (cleanupIdleContexts Date_parse maxAgeMs now st).1
    = length (filter (λ kv, isIdle Date_parse maxAgeMs now kv.2 = true)
                (map_to_list (activeContexts st)))
  ∧ (size (activeContexts (cleanupIdleContexts Date_parse maxAgeMs now st).2)
     + (cleanupIdleContexts Date_parse maxAgeMs now st).1
     = size (activeContexts st))%nat
  ∧ defaultMaxAgeMs = (30 * 60000)%Z
  ∧ cleanupIntervalMs = (15 * 60000)%Z
  ∧ timerCallback Date_parse now st
    = (cleanupIdleContexts Date_parse (30 * 60000) now st).2
  ∧ (∀ start k,
       timerFiresAt start (S k) - timerFiresAt start k = 15 * 60000)%Z.
Proof.
  split; [|split; [|split; [|split; [|split; [|split; [|split;
    [|split; [|split; [|split]]]]]]]]].
  - apply map_eq. intros sid. rewrite cleanupIdleContexts_lookup.
    destruct (activeContexts st !! sid) as [c|] eqn:Hc.
    + destruct (isIdle Date_parse maxAgeMs now c) eqn:Hidle.
      * symmetry. apply map_lookup_filter_None. right. intros c' Hc' Hnot.
        rewrite Hc in Hc'. injection Hc' as <-. simpl in Hnot. congruence.
      * symmetry. by apply map_lookup_filter_Some.
    + symmetry. apply map_lookup_filter_None. by left.
  - intros c. apply isIdle_spec.
  - intros sid c Hc. rewrite cleanupIdleContexts_lookup, Hc.
    unfold isIdle, lastUpdatedTime.
    destruct (Context.lastUpdated c) as [|ms|s].
    + destruct (Z.ltb_spec maxAgeMs (now - 0));
        destruct (decide (maxAgeMs < now - 0)%Z); done || lia.
    + destruct (Z.leb_spec (Z.abs ms) 8640000000000000);
        destruct (decide (Z.abs ms <= 8640000000000000)%Z); try lia; [|done].
      destruct (Z.ltb_spec maxAgeMs (now - ms));
        destruct (decide (maxAgeMs < now - ms)%Z); done || lia.
    + destruct (String.eqb_spec s ""); destruct (decide (s = "")); try done.
      * destruct (Z.ltb_spec maxAgeMs (now - 0));
          destruct (decide (maxAgeMs < now - 0)%Z); done || lia.
      * destruct (Date_parse s) as [ms|]; [|done].
        destruct (Z.ltb_spec maxAgeMs (now - ms));
          destruct (decide (maxAgeMs < now - ms)%Z); done || lia.
  - intros sid Hnone. by rewrite cleanupIdleContexts_lookup, Hnone.
  - apply cleanupIdleContexts_stored.
  - apply cleanupIdleContexts_count.
  - rewrite cleanupIdleContexts_kept, cleanupIdleContexts_count.
    rewrite map_size_list_to_map.
    + rewrite <- (length_map_to_list (activeContexts st)).
      apply length_filter_split.
    + apply (sublist_NoDup _ (map_to_list (activeContexts st)).*1);
        [apply NoDup_fst_map_to_list | apply fmap_sublist, sublist_filter].
  - reflexivity.
  - reflexivity.
  - reflexivity.
  - intros start k. unfold timerFiresAt, cleanupIntervalMs. lia.
Qed.

(** The sweep with the default bound at [now] = 1.7·10^12 ms on
    [stampedState]: the context stamped an hour before is removed, the one
    stamped a minute before and the one whose stamp is no date are kept,
    and the count is 1. *)
Lemma cleanupIdleContexts_evicts_idle_witness :
  activeContexts
    (cleanupIdleContexts noDate defaultMaxAgeMs 1700000000000
       stampedState).2 !! "old" = None
  ∧ activeContexts
      (cleanupIdleContexts noDate defaultMaxAgeMs 1700000000000
         stampedState).2 !! "new"
    = Some (createToolExecutionContext "new" "ann" "ctx-new"
              (DateMillis 1699999940000))
  ∧ activeContexts
      (cleanupIdleContexts noDate defaultMaxAgeMs 1700000000000
         stampedState).2 !! "odd"
    = Some (createToolExecutionContext "odd" "ann" "ctx-odd"
              (DateString "yesterday"))
  ∧ (size (activeContexts
             (cleanupIdleContexts noDate defaultMaxAgeMs 1700000000000
                stampedState).2)
     + (cleanupIdleContexts noDate defaultMaxAgeMs 1700000000000
          stampedState).1
     = size (activeContexts stampedState))%nat.
Proof.
  destruct (cleanupIdleContexts_evicts_idle noDate defaultMaxAgeMs
              1700000000000 stampedState)
    as (_ & _ & Hpoint & _ & _ & _ & Hsize & _).
  split; [exact (Hpoint "old" _ eq_refl)|].
  split; [exact (Hpoint "new" _ eq_refl)|].
  split; [exact (Hpoint "odd" _ eq_refl) | exact Hsize].
Defined.

(** ** Histories along a run *)

(** C9.  From a state whose contexts hold whole user/assistant exchanges
    (the fresh orchestrator is one), every query, whichever collaborator
    fails or none, and every sweep leads to such a state again; so in every
    context, in memory or stored, the roles alternate strictly user,
    assistant, user, ... *)
Theorem histories_alternate (Date_parse : string → option Z)
    (events : list Event) (st : State) :
  settled st →
  settled (runEvents Date_parse events st)
  ∧ (∀ sid c,
       activeContexts (runEvents Date_parse events st) !! sid = Some c →
       alternating (Context.conversationHistory c))
  ∧ (∀ sid c,
       storedSessions (runEvents Date_parse events st) !! sid = Some c →
       alternating (Context.conversationHistory c)).
Proof.
  intros Hst. pose proof (settled_runEvents Date_parse events st Hst) as Hrun.
  split; [done|]. destruct Hrun as [Hactive Hstored].
  split; intros sid c Hc; apply exchanges_alternating; eauto.
Qed.

Lemma histories_alternate_witness :
  settled initialState
  ∧ settled (runEvents noDate
               [Query helloQuery goodRun; Query helloQuery failingRun;
                Cleanup 2000000000000 1700000000000;
                Query helloQuery goodRun; TimerTick 1700000000000]
               initialState)
  ∧ (∀ sid c,
       activeContexts
         (runEvents noDate
            [Query helloQuery goodRun; Query helloQuery failingRun;
             Cleanup 2000000000000 1700000000000;
             Query helloQuery goodRun; TimerTick 1700000000000]
            initialState) !! sid = Some c →
       alternating (Context.conversationHistory c))
  ∧ (∀ sid c,
       storedSessions
         (runEvents noDate
            [Query helloQuery goodRun; Query helloQuery failingRun;
             Cleanup 2000000000000 1700000000000;
             Query helloQuery goodRun; TimerTick 1700000000000]
            initialState) !! sid = Some c →
       alternating (Context.conversationHistory c)).
Proof.
  assert (Hinit : settled initialState).
  { split; intros sid c; simpl; by rewrite lookup_empty. }
  split; [exact Hinit|].
  exact (histories_alternate noDate
           [Query helloQuery goodRun; Query helloQuery failingRun;
            Cleanup 2000000000000 1700000000000;
            Query helloQuery goodRun; TimerTick 1700000000000]
           initialState Hinit).
Defined.

(** ** Contexts without [lastUpdated] *)

(** [processQuery] leaves the [lastUpdated] of every context in memory as
    it is. *)
Lemma processQuery_lastUpdated (queryData : QueryData) (run : Run)
    (st : State) (sid : string) (c : Context.t) :
  activeContexts st !! sid = Some c →
  ∃ c', activeContexts (processQuery queryData run st).2 !! sid = Some c'
        ∧ Context.lastUpdated c' = Context.lastUpdated c.
Proof.
  intros Hc.
  destruct (processQuery_state queryData run st)
    as (c' & Hstamp & _ & Hstate). simpl in *.
  destruct (decide (sessionId queryData = sid)) as [Hsid|Hsid].
  - subst sid. unfold getOrCreateContext in *. rewrite Hc in *. simpl in *.
    exists c'. split; [|done].
    destruct Hstate as [-> | ->]; simpl; by rewrite lookup_insert_eq.
  - exists c. split; [|done].
    assert (Hkept : activeContexts
                      (getOrCreateContext (sessionId queryData)
                         (queryUserId queryData) run st).2 !! sid = Some c).
    { unfold getOrCreateContext.
      destruct (activeContexts st !! sessionId queryData); [done|].
      destruct (retrieveSession _ _ _) as [[saved|]|e]; simpl;
        by rewrite lookup_insert_ne. }
    destruct Hstate as [-> | ->]; simpl; by rewrite lookup_insert_ne.
Qed.

(** C10 as stated fails for a bound that exceeds the time elapsed since the
    epoch: the context of session ["s1"] has no [lastUpdated], and a sweep
    with [maxAgeMs] = 2·10^12 at [now] = 1.7·10^12 keeps it. *)
Lemma absent_lastUpdated_kept_under_large_bound :
  ∃ c,
    activeContexts (processQuery helloQuery goodRun initialState).2 !! "s1"
    = Some c
    ∧ Context.lastUpdated c = DateAbsent
    ∧ (0 < 2000000000000)%Z
    ∧ activeContexts
        (cleanupIdleContexts noDate 2000000000000 1700000000000
           (processQuery helloQuery goodRun initialState).2).2 !! "s1"
      = Some c.
Proof.
  eexists. split; [vm_compute; reflexivity|]. split; [reflexivity|].
  split; [lia|]. vm_compute. reflexivity.
Qed.

(** C10, amended.  For a context without [lastUpdated] the sweep takes the
    Unix epoch as the time of the last update, so the context is evicted
    exactly when [maxAgeMs < now], the time elapsed since the epoch (as it
    is for the default of 30 minutes), and this also right after a
    [processQuery] call has used the context. *)
Theorem absent_lastUpdated_evicted (Date_parse : string → option Z)
    (maxAgeMs now : Z) (st : State) (sid : string) (c : Context.t) :
  activeContexts st !! sid = Some c →
  Context.lastUpdated c = DateAbsent →
  lastUpdatedTime Date_parse (Context.lastUpdated c) = Some 0%Z
  ∧ (activeContexts (cleanupIdleContexts Date_parse maxAgeMs now st).2 !! sid
     = None ↔ (maxAgeMs < now)%Z)
  ∧ (∀ queryData run,
       activeContexts
         (cleanupIdleContexts Date_parse maxAgeMs now
            (processQuery queryData run st).2).2 !! sid = None
       ↔ (maxAgeMs < now)%Z).
Proof.
  intros Hc Habsent.
  assert (Hidle : ∀ c', Context.lastUpdated c' = DateAbsent →
            isIdle Date_parse maxAgeMs now c' = true ↔ (maxAgeMs < now)%Z).
  { intros c' Hc'. unfold isIdle. rewrite Hc'. simpl.
    rewrite Z.ltb_lt. lia. }
  split; [by rewrite Habsent|]. split.
  - rewrite cleanupIdleContexts_lookup, Hc.
    destruct (isIdle Date_parse maxAgeMs now c) eqn:E.
    + split; [|done]. intros _. by apply (Hidle c).
    + split; [done|]. intros Hlt. apply (Hidle c) in Hlt; congruence.
  - intros queryData run.
    destruct (processQuery_lastUpdated queryData run st sid c Hc)
      as (c' & Hc' & Hstamp).
    rewrite Habsent in Hstamp.
    rewrite cleanupIdleContexts_lookup, Hc'.
    destruct (isIdle Date_parse maxAgeMs now c') eqn:E.
    + split; [|done]. intros _. by apply (Hidle c').
    + split; [done|]. intros Hlt. apply (Hidle c') in Hlt; congruence.
Qed.

Lemma absent_lastUpdated_evicted_witness :
  activeContexts (processQuery helloQuery goodRun initialState).2 !! "s1"
  = Some (setCurrentQuery "please echo hello"
            (pushTurn (mkTurn assistant "hello" (Some ["Echo"])
                         "2024-01-01T00:00:01.000Z")
               (pushTurn (mkTurn user "please echo hello" None
                            "2024-01-01T00:00:00.000Z")
                  (setLastExecutionResults
                     (mkExecutionResults ["hello"] [mkToolRun "Echo" 3])
                     (setCurrentPlan (mkPlan ["Echo"] 10)
                        (setAnalysis (mkIntent "echo") ["hello"]
                           (createToolExecutionContext "s1" "ann"
                              "ctx-1" DateAbsent)))))))
  ∧ (activeContexts
       (cleanupIdleContexts noDate defaultMaxAgeMs 1700000000000
          (processQuery helloQuery goodRun initialState).2).2 !! "s1" = None
     ↔ (defaultMaxAgeMs < 1700000000000)%Z).
Proof.
  assert (Hc : activeContexts
                 (processQuery helloQuery goodRun initialState).2 !! "s1"
               = Some (setCurrentQuery "please echo hello"
                         (pushTurn (mkTurn assistant "hello" (Some ["Echo"])
                                      "2024-01-01T00:00:01.000Z")
                            (pushTurn (mkTurn user "please echo hello" None
                                         "2024-01-01T00:00:00.000Z")
                               (setLastExecutionResults
                                  (mkExecutionResults ["hello"]
                                     [mkToolRun "Echo" 3])
                                  (setCurrentPlan (mkPlan ["Echo"] 10)
                                     (setAnalysis (mkIntent "echo") ["hello"]
                                        (createToolExecutionContext "s1"
                                           "ann" "ctx-1" DateAbsent)))))))).
  { vm_compute. reflexivity. }
  split; [exact Hc|].
  exact (proj1 (proj2 (absent_lastUpdated_evicted noDate defaultMaxAgeMs
                         1700000000000 _ "s1" _ Hc eq_refl))).
Defined.

(** * What every call keeps *)

Lemma inhabited_index_add (idx : gmap string (gset string))
    (key toolId : string) :
  inhabited idx → inhabited (index_add key toolId idx).
Proof.
  intros Hidx key' tools. unfold index_add. rewrite lookup_insert_Some.
  intros [[_ <-] | [_ Hold]]; [set_solver | by eapply Hidx].
Qed.

Lemma inhabited_index_add_all (f : string → string) (toolId : string)
    (l : list string) (idx : gmap string (gset string)) :
  inhabited idx →
  inhabited (foldl (λ idx x, index_add (f x) toolId idx) idx l).
Proof.
  revert idx. induction l as [|x l IH]; intros idx Hidx; [done|].
  simpl. apply IH. by apply inhabited_index_add.
Qed.

Lemma inhabited_index_remove (idx : gmap string (gset string))
    (key toolId : string) :
  inhabited idx → inhabited (index_remove key toolId idx).
Proof.
  intros Hidx key' tools. unfold index_remove.
  destruct (idx !! key) as [old|] eqn:Hold; [|apply Hidx].
  destruct (decide (size (old ∖ {[toolId]}) = 0%nat)) as [Hsize|Hsize].
  - rewrite lookup_delete_Some. intros [_ Hkey']. by eapply Hidx.
  - rewrite lookup_insert_Some. intros [[_ <-] | [_ Hkey']].
    + intros Hempty. apply Hsize. rewrite Hempty. apply size_empty.
    + by eapply Hidx.
Qed.

Lemma inhabited_index_remove_all (f : string → string) (toolId : string)
    (l : list string) (idx : gmap string (gset string)) :
  inhabited idx →
  inhabited (foldl (λ idx x, index_remove (f x) toolId idx) idx l).
Proof.
  revert idx. induction l as [|x l IH]; intros idx Hidx; [done|].
  simpl. apply IH. by apply inhabited_index_remove.
Qed.

(** In an index without empty sets, a key is present exactly when it lists
    some id. *)
Lemma inhabited_lookup (idx : gmap string (gset string)) (key : string) :
  inhabited idx → is_Some (idx !! key) ↔ ∃ id, listed idx key id.
Proof.
  intros Hidx. unfold listed. split.
  - intros [tools Htools]. rewrite Htools. simpl.
    apply set_choose_L. by eapply Hidx.
  - intros [id Hid]. destruct (idx !! key); [eauto | set_solver].
Qed.

Lemma elem_of_capabilities_added (l : list string) (s : gset string)
    (c : string) :
  c ∈ foldl (λ acc capability, {[capability]} ∪ acc) s l ↔ c ∈ l ∨ c ∈ s.
Proof.
  revert s. induction l as [|x l IH]; intros s; simpl.
  - set_solver.
  - rewrite IH. set_solver.
Qed.

Lemma consistent_emptyRegistry : consistent emptyRegistry.
Proof.
  split; [constructor|]. split; [apply statsForTools_emptyRegistry|].
  split; [by intros id tool|]. split; [by intros id tool c|].
  by repeat split; intros key tools; simpl; rewrite lookup_empty.
Qed.

Section ConsistentSteps.
Variable validateToolDefinition : ToolDefinition.t → ValidationError + Tool.t.

Lemma registerTool_reachesTools (d : ToolDefinition.t) (uuid : string)
    (r : ToolRegistry) :
  reachesTools r →
  reachesTools (registerTool validateToolDefinition d uuid r).2.
Proof.
  intros Hr. unfold registerTool.
  destruct (validateToolDefinition d) as [e|new]; [done|].
  intros id tool. simpl. rewrite map_get_set.
  destruct (decide (id = toolIdOf new uuid)) as [->|Hne].
  - intros [= <-]. split; [|split].
    + intros Hcat. rewrite decide_False by done.
      apply listed_index_add. by left.
    + intros c Hc. apply listed_index_add_all. left. split; [done|].
      by apply list_elem_of_fmap_2.
    + intros k Hk. apply listed_index_add_all. left. split; [done|].
      by apply list_elem_of_fmap_2.
  - intros Htool. destruct (Hr id tool Htool) as (Hcat & Hcap & Hkw).
    split; [|split].
    + intros Hne'. case_decide; [by apply Hcat|].
      apply listed_index_add. right. by apply Hcat.
    + intros c Hc. apply listed_index_add_all. right. by apply Hcap.
    + intros k Hk. apply listed_index_add_all. right. by apply Hkw.
Qed.

Lemma unregisterTool_reachesTools (toolIdentifier : string)
    (r : ToolRegistry) :
  reachesTools r → reachesTools (unregisterTool toolIdentifier r).2.
Proof.
  intros Hr. unfold unregisterTool.
  destruct (if map_has toolIdentifier (entries r) then Some toolIdentifier
            else byName (metadataIndex r) !! toLowerCase toolIdentifier)
    as [toolId|]; [|done].
  destruct (map_get toolId (entries r)) as [gone|] eqn:Hgone; [|done].
  intros id tool. simpl. rewrite map_get_delete.
  destruct (decide (id = toolId)) as [->|Hne]; [done|].
  intros Htool. destruct (Hr id tool Htool) as (Hcat & Hcap & Hkw).
  split; [|split].
  - intros Hne'. case_decide; [by apply Hcat|].
    apply listed_index_remove. split; [by apply Hcat | naive_solver].
  - intros c Hc. apply listed_index_remove_all.
    split; [by apply Hcap | naive_solver].
  - intros k Hk. apply listed_index_remove_all.
    split; [by apply Hkw | naive_solver].
Qed.

Lemma registerTool_capabilitiesKnown (d : ToolDefinition.t) (uuid : string)
    (r : ToolRegistry) :
  capabilitiesKnown r →
  capabilitiesKnown (registerTool validateToolDefinition d uuid r).2.
Proof.
  intros Hr. unfold registerTool.
  destruct (validateToolDefinition d) as [e|new]; [done|].
  intros id tool c. simpl. rewrite map_get_set, elem_of_capabilities_added.
  destruct (decide (id = toolIdOf new uuid)) as [->|Hne].
  - intros [= <-] Hc. by left.
  - intros Htool Hc. right. by eapply Hr.
Qed.

Lemma unregisterTool_capabilitiesKnown (toolIdentifier : string)
    (r : ToolRegistry) :
  capabilitiesKnown r → capabilitiesKnown (unregisterTool toolIdentifier r).2.
Proof.
  intros Hr. unfold unregisterTool.
  destruct (if map_has toolIdentifier (entries r) then Some toolIdentifier
            else byName (metadataIndex r) !! toLowerCase toolIdentifier)
    as [toolId|]; [|done].
  destruct (map_get toolId (entries r)) as [gone|] eqn:Hgone; [|done].
  intros id tool c. simpl. rewrite map_get_delete.
  destruct (decide (id = toolId)) as [->|Hne]; [done|].
  intros Htool Hc. by eapply Hr.
Qed.

Lemma registerTool_consistent (d : ToolDefinition.t) (uuid : string)
    (r : ToolRegistry) :
  consistent r → consistent (registerTool validateToolDefinition d uuid r).2.
Proof.
  intros (Hkeys & Hstats & Hreach & Hknown & Hcat & Hcap & Hkw).
  split; [by apply registerTool_keys_NoDup|].
  split; [by apply registerTool_statsForTools|].
  split; [by apply registerTool_reachesTools|].
  split; [by apply registerTool_capabilitiesKnown|].
  unfold registerTool.
  destruct (validateToolDefinition d) as [e|new]; [done|]. simpl.
  split; [|split].
  - case_decide; [done|]. by apply inhabited_index_add.
  - by apply inhabited_index_add_all.
  - by apply inhabited_index_add_all.
Qed.

Lemma unregisterTool_consistent (toolIdentifier : string) (r : ToolRegistry) :
  consistent r → consistent (unregisterTool toolIdentifier r).2.
Proof.
  intros (Hkeys & Hstats & Hreach & Hknown & Hcat & Hcap & Hkw).
  split; [by apply unregisterTool_keys_NoDup|].
  split; [by apply unregisterTool_statsForTools|].
  split; [by apply unregisterTool_reachesTools|].
  split; [by apply unregisterTool_capabilitiesKnown|].
  unfold unregisterTool.
  destruct (if map_has toolIdentifier (entries r) then Some toolIdentifier
            else byName (metadataIndex r) !! toLowerCase toolIdentifier)
    as [toolId|]; [|done].
  destruct (map_get toolId (entries r)) as [gone|] eqn:Hgone; [|done].
  simpl. split; [|split].
  - case_decide; [done|]. by apply inhabited_index_remove.
  - by apply inhabited_index_remove_all.
  - by apply inhabited_index_remove_all.
Qed.

Lemma recordToolUsage_consistent (toolId now : string) (rep : UsageReport)
    (r : ToolRegistry) :
  consistent r → consistent (recordToolUsage toolId rep now r).2.
Proof.
  intros (Hkeys & Hstats & Hrest).
  pose proof (recordToolUsage_statsForTools toolId now rep r Hstats) as Hst.
  revert Hst. unfold recordToolUsage.
  destruct (usageStats r !! toolId); [|done].
  by destruct (executionTime rep).
Qed.

(** A property that [registerTool] keeps holds after the loop of
    [importData] and after the loop of [loadFromDirectory]. *)
Lemma importTools_keeps (P : ToolRegistry → Prop) (uuids : nat → string)
    (defs : list ToolDefinition.t) (r : ToolRegistry) :
  (∀ d uuid r, P r → P (registerTool validateToolDefinition d uuid r).2) →
  P r → P (importTools validateToolDefinition uuids defs r).1.2.
Proof.
  intros Hstep Hr. unfold importTools.
  change r with (0%nat, r, 0%nat).1.2 in Hr. revert Hr.
  generalize (0%nat, r, 0%nat). clear r.
  induction defs as [|d defs IH]; intros [[count r] k] Hr; [done|].
  simpl in *. apply IH. specialize (Hstep d (uuids k) r Hr).
  by destruct (registerTool validateToolDefinition d (uuids k) r) as [ok r'].
Qed.

Lemma loadFiles_keeps (P : ToolRegistry → Prop) (uuids : nat → string)
    (files : list (string * FileContent)) (r : ToolRegistry) :
  (∀ d uuid r, P r → P (registerTool validateToolDefinition d uuid r).2) →
  P r → P (loadFiles validateToolDefinition uuids files r).1.2.
Proof.
  intros Hstep Hr. unfold loadFiles.
  change r with (0%nat, r, 0%nat).1.2 in Hr. revert Hr.
  generalize (0%nat, r, 0%nat). clear r.
  induction files as [|[file content] files IH]; intros [[count r] k] Hr;
    [done|].
  simpl in *. apply IH.
  destruct (endsWith file ".js" || endsWith file ".json"); [|done].
  destruct content as [e|d]; [done|].
  specialize (Hstep d (uuids k) r Hr).
  by destruct (registerTool validateToolDefinition d (uuids k) r) as [ok r'].
Qed.

Lemma importStats_statsForTools (stats : gmap string ToolStats)
    (r : ToolRegistry) :
  statsForTools r → statsForTools (importStats stats r).
Proof.
  unfold statsForTools. simpl. generalize (map_to_list stats).
  generalize (usageStats r). intros acc l. revert acc.
  induction l as [|[k st] l IH]; intros acc Hacc; [apply Hacc|].
  simpl. apply IH. intros id'.
  destruct (map_has k (entries r)) eqn:Hk; [|apply Hacc].
  rewrite lookup_insert. case_decide as Hid; [|apply Hacc]. subst id'.
  apply bool_decide_eq_true in Hk. split; eauto.
Qed.

Lemma importData_consistent (data : ExportedData) (uuids : nat → string)
    (r : ToolRegistry) :
  consistent (importData validateToolDefinition data uuids r).2.
Proof.
  unfold importData.
  pose proof (importTools_keeps consistent uuids (data_tools data)
                emptyRegistry registerTool_consistent consistent_emptyRegistry)
    as Himp.
  destruct (importTools validateToolDefinition uuids (data_tools data)
              emptyRegistry) as [[count r'] k].
  simpl in *. destruct Himp as (Hkeys & Hstats & Hrest).
  split; [done|]. split; [by apply importStats_statsForTools | done].
Qed.

Lemma applyCall_consistent (call : RegistryCall) (r : ToolRegistry) :
  consistent r → consistent (applyCall validateToolDefinition call r).
Proof.
  intros Hr.
  destruct call as [d uuid|ident|toolId rep now|data uuids|directory uuids];
    simpl.
  - by apply registerTool_consistent.
  - by apply unregisterTool_consistent.
  - by apply recordToolUsage_consistent.
  - apply importData_consistent.
  - destruct directory as [|e|files]; simpl; [done | done|].
    pose proof (loadFiles_keeps consistent uuids files r
                  registerTool_consistent Hr) as Hload.
    by destruct (loadFiles validateToolDefinition uuids files r)
      as [[count r'] k].
Qed.

Lemma runCalls_consistent (calls : list RegistryCall) (r : ToolRegistry) :
  consistent r → consistent (runCalls validateToolDefinition calls r).
Proof.
  revert r. induction calls as [|call calls IH]; intros r Hr; [done|].
  simpl. apply IH. by apply applyCall_consistent.
Qed.

Lemma runOps_consistent (ops : list RegistryOp) (r : ToolRegistry) :
  consistent r → consistent (runOps validateToolDefinition ops r).
Proof.
  revert r. induction ops as [|op ops IH]; intros r Hr; [done|].
  simpl. apply IH. destruct op; simpl.
  - by apply registerTool_consistent.
  - by apply unregisterTool_consistent.
Qed.
End ConsistentSteps.

(** * Further properties of the registry *)

(** X1.  In every registry that calls of [registerTool], [unregisterTool],
    [recordToolUsage], [importData] and [loadFromDirectory] lead to from a
    new one, the usage statistics are kept for the tools of the map and for
    nothing else; so [recordToolUsage] returns [true] exactly for the id of
    a registered tool (a name is not accepted). *)
Theorem recordToolUsage_registered
    (validateToolDefinition : ToolDefinition.t → ValidationError + Tool.t)
    (calls : list RegistryCall) (toolId now : string) (rep : UsageReport) :
  statsForTools (runCalls validateToolDefinition calls emptyRegistry)
  ∧ ((recordToolUsage toolId rep now
        (runCalls validateToolDefinition calls emptyRegistry)).1 = true
     ↔ is_Some (map_get toolId
                  (entries (runCalls validateToolDefinition calls
                              emptyRegistry)))).
Proof.
  destruct (runCalls_consistent validateToolDefinition calls emptyRegistry
              consistent_emptyRegistry) as (_ & Hstats & _).
  split; [done|]. rewrite <- (Hstats toolId). unfold recordToolUsage.
  destruct (usageStats _ !! toolId) as [st|] eqn:Hst.
  - destruct (executionTime rep); simpl; split; eauto.
  - simpl. split; [done | by intros [? ?]].
Qed.

(** X2.  [findTools] never misses a tool: in every registry reached by
    calls from a new one, a tool of the map that has the category, the
    capability and every keyword asked for (case aside) and declares the
    input and output types asked for is in the result. *)
Theorem findTools_complete
    (validateToolDefinition : ToolDefinition.t → ValidationError + Tool.t)
    (calls : list RegistryCall) (criteria : Criteria) (id : string)
    (tool : Tool.t) :
  map_get id (entries (runCalls validateToolDefinition calls emptyRegistry))
  = Some tool →
  meets criteria tool →
  tool ∈ findTools criteria
           (runCalls validateToolDefinition calls emptyRegistry).
Proof.
  set (r := runCalls validateToolDefinition calls emptyRegistry).
  intros Htool (Hcat & Hcap & Hkw & Hin & Hout).
  destruct (runCalls_consistent validateToolDefinition calls emptyRegistry
              consistent_emptyRegistry) as (Hkeys & _ & Hreach & _).
  fold r in Hkeys, Hreach.
  destruct (Hreach id tool Htool) as (Rcat & Rcap & Rkw).
  rewrite findTools_selects by done.
  apply list_elem_of_fmap. exists (id, tool). split; [done|].
  apply list_elem_of_filter. split; [|by apply map_get_Some_elem].
  split; [|split; [|split; [|split]]]; simpl.
  - destruct (decide (c_category criteria = "")) as [|Hne]; [by left|].
    right. destruct Hcat as [|Hcat]; [done|]. rewrite <- Hcat.
    apply Rcat. by rewrite Hcat.
  - destruct Hcap as [|Hcap]; [by left|]. right.
    apply list_elem_of_fmap in Hcap as (c & Hc & Hin').
    rewrite Hc. by apply Rcap.
  - apply Forall_forall. intros keyword Hkeyword. right.
    apply Hkw in Hkeyword.
    apply list_elem_of_fmap in Hkeyword as (k & Hk & Hin').
    rewrite Hk. by apply Rkw.
  - done.
  - done.
Qed.

Lemma findTools_complete_witness :
  map_get "a" (entries (runCalls validateToolDefinition_spec movedEchoCalls
                          emptyRegistry)) = Some movedEchoTool
  ∧ meets (mkCriteria "audio" "SPEAK" ["Echo"] "text/plain" "") movedEchoTool
  ∧ movedEchoTool
    ∈ findTools (mkCriteria "audio" "SPEAK" ["Echo"] "text/plain" "")
        (runCalls validateToolDefinition_spec movedEchoCalls emptyRegistry).
Proof.
  assert (Hmeets : meets (mkCriteria "audio" "SPEAK" ["Echo"] "text/plain" "")
                     movedEchoTool).
  { split; [by right|]. split; [right; set_solver|].
    split; [|split; [right; set_solver | by left]].
    intros keyword Hkeyword. apply list_elem_of_singleton in Hkeyword as ->.
    set_solver. }
  split; [reflexivity|]. split; [exact Hmeets|].
  exact (findTools_complete validateToolDefinition_spec movedEchoCalls
           (mkCriteria "audio" "SPEAK" ["Echo"] "text/plain" "") "a"
           movedEchoTool eq_refl Hmeets).
Defined.

(** X3.  In every registry reached by calls from a new one, [findTools]
    lists tools of the map in the order of the map, which is the order in
    which their ids were first registered, and no entry twice. *)
Theorem findTools_in_order
    (validateToolDefinition : ToolDefinition.t → ValidationError + Tool.t)
    (calls : list RegistryCall) (criteria : Criteria) :
  findTools criteria (runCalls validateToolDefinition calls emptyRegistry)
  `sublist_of`
  (entries (runCalls validateToolDefinition calls emptyRegistry)).*2.
Proof.
  destruct (runCalls_consistent validateToolDefinition calls emptyRegistry
              consistent_emptyRegistry) as (Hkeys & _).
  rewrite findTools_selects by done.
  apply fmap_sublist, sublist_filter.
Qed.

(** X4.  After registrations that are all new and any unregistrations,
    [getAllCategories] lists exactly the categories of the tools that are
    registered: the category of a tool that has been unregistered is
    dropped with its last tool. *)
Theorem getAllCategories_exact
    (validateToolDefinition : ToolDefinition.t → ValidationError + Tool.t)
    (ops : list RegistryOp) (category : string) :
  newRegistrations validateToolDefinition ops emptyRegistry = true →
  category ∈ getAllCategories (runOps validateToolDefinition ops emptyRegistry)
  ↔ ∃ id tool,
      map_get id (entries (runOps validateToolDefinition ops emptyRegistry))
      = Some tool
      ∧ Tool.category tool = category ∧ category ≠ "".
Proof.
  intros Hnew.
  destruct (runOps_consistent validateToolDefinition ops emptyRegistry
              consistent_emptyRegistry) as (_ & _ & _ & _ & Hcat & _).
  destruct (runOps_coherent validateToolDefinition ops emptyRegistry
              coherent_emptyRegistry Hnew) as (_ & Hcoh & _).
  unfold getAllCategories. rewrite elem_of_dom, (inhabited_lookup _ _ Hcat).
  split.
  - intros [id Hid]. exists id. by apply Hcoh.
  - intros (id & tool & Htool & Hown). exists id. apply Hcoh. by exists tool.
Qed.

Lemma getAllCategories_exact_witness :
  newRegistrations validateToolDefinition_spec
    [Register echoDefinition "uuid-0";
     Register (plainDefinition "" "Alpha" "first letter" ["a"; "alpha"])
       "uuid-1";
     Unregister "ECHO"] emptyRegistry = true
  ∧ ("util"
     ∈ getAllCategories
         (runOps validateToolDefinition_spec
            [Register echoDefinition "uuid-0";
             Register (plainDefinition "" "Alpha" "first letter"
                         ["a"; "alpha"]) "uuid-1";
             Unregister "ECHO"] emptyRegistry)
     ↔ ∃ id tool,
         map_get id
           (entries (runOps validateToolDefinition_spec
                       [Register echoDefinition "uuid-0";
                        Register (plainDefinition "" "Alpha" "first letter"
                                    ["a"; "alpha"]) "uuid-1";
                        Unregister "ECHO"] emptyRegistry))
         = Some tool
         ∧ Tool.category tool = "util" ∧ "util" ≠ "").
Proof.
  split; [reflexivity|].
  exact (getAllCategories_exact validateToolDefinition_spec
           [Register echoDefinition "uuid-0";
            Register (plainDefinition "" "Alpha" "first letter"
                        ["a"; "alpha"]) "uuid-1";
            Unregister "ECHO"] "util" eq_refl).
Defined.

(** X5.  In every registry reached by calls from a new one, the category of
    each registered tool is among [getAllCategories] and its capabilities,
    as it spells them, are among [getAllCapabilities]. *)
Theorem listings_cover_tools
    (validateToolDefinition : ToolDefinition.t → ValidationError + Tool.t)
    (calls : list RegistryCall) (id : string) (tool : Tool.t) :
  map_get id (entries (runCalls validateToolDefinition calls emptyRegistry))
  = Some tool →
  (Tool.category tool ≠ "" →
   Tool.category tool
   ∈ getAllCategories (runCalls validateToolDefinition calls emptyRegistry))
  ∧ (∀ capability, capability ∈ Tool.capabilities tool →
       capability
       ∈ getAllCapabilities
           (runCalls validateToolDefinition calls emptyRegistry)).
Proof.
  intros Htool.
  destruct (runCalls_consistent validateToolDefinition calls emptyRegistry
              consistent_emptyRegistry)
    as (_ & _ & Hreach & Hknown & Hcat & _).
  split.
  - intros Hne. unfold getAllCategories.
    rewrite elem_of_dom, (inhabited_lookup _ _ Hcat). exists id.
    by apply (Hreach id tool Htool).
  - intros capability Hcapability. by apply (Hknown id tool).
Qed.

Lemma listings_cover_tools_witness :
  map_get "a" (entries (runCalls validateToolDefinition_spec movedEchoCalls
                          emptyRegistry)) = Some movedEchoTool
  ∧ (Tool.category movedEchoTool ≠ "" →
     Tool.category movedEchoTool
     ∈ getAllCategories
         (runCalls validateToolDefinition_spec movedEchoCalls emptyRegistry))
  ∧ (∀ capability, capability ∈ Tool.capabilities movedEchoTool →
       capability
       ∈ getAllCapabilities
           (runCalls validateToolDefinition_spec movedEchoCalls
              emptyRegistry)).
Proof.
  split; [reflexivity|].
  exact (listings_cover_tools validateToolDefinition_spec movedEchoCalls
           "a" movedEchoTool eq_refl).
Defined.

Lemma applyOp_capabilities
    (validateToolDefinition : ToolDefinition.t → ValidationError + Tool.t)
    (op : RegistryOp) (r : ToolRegistry) :
  capabilities r ⊆ capabilities (applyOp validateToolDefinition op r).
Proof.
  destruct op as [d uuid|ident]; simpl.
  - unfold registerTool. destruct (validateToolDefinition d); [done|].
    simpl. intros c Hc. apply elem_of_capabilities_added. by right.
  - unfold unregisterTool.
    destruct (if map_has ident (entries r) then _ else _); [|done].
    by destruct (map_get _ (entries r)).
Qed.

(** X6.  [getAllCapabilities] keeps what it has once listed: a capability
    of a tool that was registered stays in the list through all later
    registrations and unregistrations, also that of the tool itself. *)
Theorem getAllCapabilities_never_forgets
    (validateToolDefinition : ToolDefinition.t → ValidationError + Tool.t)
    (toolDefinition : ToolDefinition.t) (uuid : string) (tool : Tool.t)
    (capability : string) (ops : list RegistryOp) (r : ToolRegistry) :
  validateToolDefinition toolDefinition = inr tool →
  capability ∈ Tool.capabilities tool →
  capability
  ∈ getAllCapabilities
      (runOps validateToolDefinition ops
         (registerTool validateToolDefinition toolDefinition uuid r).2).
Proof.
  intros Hvalid Hcap. unfold getAllCapabilities.
  assert (Hfirst : capability
                   ∈ capabilities
                       (registerTool validateToolDefinition toolDefinition
                          uuid r).2).
  { unfold registerTool. rewrite Hvalid. simpl.
    apply elem_of_capabilities_added. by left. }
  revert Hfirst. generalize (registerTool validateToolDefinition
                               toolDefinition uuid r).2.
  induction ops as [|op ops IH]; intros r' Hr'; [done|].
  simpl. apply IH. by apply applyOp_capabilities.
Qed.

Lemma getAllCapabilities_never_forgets_witness :
  validateToolDefinition_spec echoDefinition = inr echoTool
  ∧ "Speak" ∈ Tool.capabilities echoTool
  ∧ "Speak"
    ∈ getAllCapabilities
        (runOps validateToolDefinition_spec [Unregister "a"]
           (registerTool validateToolDefinition_spec echoDefinition "uuid-0"
              emptyRegistry).2).
Proof.
  assert (Hcap : "Speak" ∈ Tool.capabilities echoTool) by set_solver.
  split; [reflexivity|]. split; [exact Hcap|].
  exact (getAllCapabilities_never_forgets validateToolDefinition_spec
           echoDefinition "uuid-0" echoTool "Speak" [Unregister "a"]
           emptyRegistry eq_refl Hcap).
Defined.

(** * Registering and unregistering *)

Lemma map_has_true {V : Type} (k : string) (m : list (string * V)) :
  map_has k m = true ↔ is_Some (map_get k m).
Proof. unfold map_has. apply bool_decide_eq_true. Qed.

Lemma map_has_false {V : Type} (k : string) (m : list (string * V)) :
  map_has k m = false ↔ map_get k m = None.
Proof.
  unfold map_has. rewrite bool_decide_eq_false, eq_None_not_Some. done.
Qed.

Lemma map_delete_set_fresh {V : Type} (k : string) (v : V)
    (m : list (string * V)) :
  map_get k m = None → map_delete k (map_set k v m) = m.
Proof.
  intros Hk. rewrite (map_set_fresh k v m Hk). unfold map_delete.
  rewrite filter_app. simpl. rewrite filter_cons_False by naive_solver.
  rewrite filter_nil, app_nil_r. apply filter_all.
  intros [k' v'] Hin Heq. simpl in Heq. subst k'.
  apply map_get_None in Hk. apply Hk.
  apply list_elem_of_fmap. by exists (k, v').
Qed.

Lemma map_set_keys_present {V : Type} (k : string) (v : V)
    (m : list (string * V)) :
  is_Some (map_get k m) → (map_set k v m).*1 = m.*1.
Proof.
  induction m as [|[k' v'] m IH]; simpl.
  - by intros [? ?].
  - destruct (decide (k = k')) as [->|Hne]; [done|].
    intros Hk. simpl. f_equal. by apply IH.
Qed.

(** X7.  On a registry whose indices are coherent, [unregisterTool]
    returns [true] exactly when the identifier is the id of a registered
    tool or, case aside, the name of one; when it returns [false] it has
    left the registry as it was. *)
Theorem unregisterTool_succeeds_iff (toolIdentifier : string)
    (r : ToolRegistry) :
  coherent r →
  ((unregisterTool toolIdentifier r).1 = true
   ↔ is_Some (map_get toolIdentifier (entries r))
     ∨ ∃ id tool, map_get id (entries r) = Some tool
                  ∧ toLowerCase (Tool.name tool) = toLowerCase toolIdentifier)
  ∧ ((unregisterTool toolIdentifier r).1 = false →
     (unregisterTool toolIdentifier r).2 = r).
Proof.
  intros (Hname & _). unfold unregisterTool.
  destruct (map_has toolIdentifier (entries r)) eqn:Hhas.
  - apply map_has_true in Hhas as Hsome. destruct Hsome as [tool Htool].
    rewrite Htool. simpl. split; [|done]. split; [|done]. intros _. left.
    by exists tool.
  - apply map_has_false in Hhas.
    destruct (byName (metadataIndex r) !! toLowerCase toolIdentifier)
      as [toolId|] eqn:Hid.
    + apply (Hname (toLowerCase toolIdentifier) toolId) in Hid
        as (tool & Htool & Hown).
      rewrite Htool. simpl. split; [|done]. split; [|done]. intros _.
      right. by exists toolId, tool.
    + simpl. split; [|done]. split; [done|].
      intros [[tool Htool] | (id & tool & Htool & Hown)]; [congruence|].
      assert (Hfound : byName (metadataIndex r) !! toLowerCase toolIdentifier
                       = Some id).
      { apply (Hname (toLowerCase toolIdentifier) id). by exists tool. }
      congruence.
Qed.

Lemma unregisterTool_succeeds_iff_witness :
  coherent twoToolRegistry
  ∧ ((unregisterTool "ALPHA" twoToolRegistry).1 = true
     ↔ is_Some (map_get "ALPHA" (entries twoToolRegistry))
       ∨ ∃ id tool, map_get id (entries twoToolRegistry) = Some tool
                    ∧ toLowerCase (Tool.name tool) = toLowerCase "ALPHA")
  ∧ ((unregisterTool "ALPHA" twoToolRegistry).1 = false →
     (unregisterTool "ALPHA" twoToolRegistry).2 = twoToolRegistry).
Proof.
  assert (Hcoh : coherent twoToolRegistry).
  { apply runOps_coherent; [apply coherent_emptyRegistry | reflexivity]. }
  split; [exact Hcoh|].
  exact (unregisterTool_succeeds_iff "ALPHA" twoToolRegistry Hcoh).
Defined.

(** X8.  On a registry whose indices are coherent, an identifier that is
    not an id and that is, case aside, the name of a registered tool
    unregisters that tool, as its id does: the tool leaves the map, its
    statistics and its name leave with it, and the other tools stay. *)
Theorem unregisterTool_by_name (toolIdentifier id : string) (tool : Tool.t)
    (r : ToolRegistry) :
  coherent r →
  map_get id (entries r) = Some tool →
  toLowerCase toolIdentifier = toLowerCase (Tool.name tool) →
  map_get toolIdentifier (entries r) = None →
  unregisterTool toolIdentifier r = unregisterTool id r
  ∧ (unregisterTool toolIdentifier r).1 = true
  ∧ map_get id (entries (unregisterTool toolIdentifier r).2) = None
  ∧ usageStats (unregisterTool toolIdentifier r).2 !! id = None
  ∧ byName (metadataIndex (unregisterTool toolIdentifier r).2)
    !! toLowerCase toolIdentifier = None
  ∧ (∀ other, other ≠ id →
       map_get other (entries (unregisterTool toolIdentifier r).2)
       = map_get other (entries r)).
Proof.
  intros (Hname & _) Htool Hlower Hnot.
  assert (Hfound : byName (metadataIndex r) !! toLowerCase toolIdentifier
                   = Some id).
  { apply (Hname (toLowerCase toolIdentifier) id). by exists tool. }
  assert (Hsame : unregisterTool toolIdentifier r = unregisterTool id r).
  { unfold unregisterTool.
    rewrite (proj2 (map_has_false toolIdentifier (entries r)) Hnot), Hfound.
    by rewrite (proj2 (map_has_true id (entries r))) by eauto. }
  split; [exact Hsame|]. rewrite Hsame. unfold unregisterTool.
  rewrite (proj2 (map_has_true id (entries r))) by eauto.
  rewrite Htool. simpl. split; [done|].
  split; [by rewrite map_get_delete, decide_True|].
  split; [by rewrite lookup_delete_eq|].
  split; [by rewrite Hlower, lookup_delete_eq|].
  intros other Hother. by rewrite map_get_delete, decide_False.
Qed.

Lemma unregisterTool_by_name_witness :
  coherent twoToolRegistry
  ∧ map_get "uuid-1" (entries twoToolRegistry)
    = Some (Tool.mk "" "Alpha" "first letter" "" [] ["a"; "alpha"] [] []
              (Some (FunctionRef 0)))
  ∧ toLowerCase "ALPHA" = toLowerCase "Alpha"
  ∧ map_get "ALPHA" (entries twoToolRegistry) = None
  ∧ unregisterTool "ALPHA" twoToolRegistry
    = unregisterTool "uuid-1" twoToolRegistry
  ∧ (unregisterTool "ALPHA" twoToolRegistry).1 = true
  ∧ map_get "uuid-1" (entries (unregisterTool "ALPHA" twoToolRegistry).2)
    = None
  ∧ usageStats (unregisterTool "ALPHA" twoToolRegistry).2 !! "uuid-1" = None
  ∧ byName (metadataIndex (unregisterTool "ALPHA" twoToolRegistry).2)
    !! toLowerCase "ALPHA" = None
  ∧ (∀ other, other ≠ "uuid-1" →
       map_get other (entries (unregisterTool "ALPHA" twoToolRegistry).2)
       = map_get other (entries twoToolRegistry)).
Proof.
  assert (Hcoh : coherent twoToolRegistry).
  { apply runOps_coherent; [apply coherent_emptyRegistry | reflexivity]. }
  split; [exact Hcoh|]. split; [reflexivity|]. split; [reflexivity|].
  split; [reflexivity|].
  exact (unregisterTool_by_name "ALPHA" "uuid-1"
           (Tool.mk "" "Alpha" "first letter" "" [] ["a"; "alpha"] [] []
              (Some (FunctionRef 0)))
           twoToolRegistry Hcoh eq_refl eq_refl eq_refl).
Defined.

(** X9.  On a registry whose indices are coherent and whose usage
    statistics are those of its tools, [unregisterTool] undoes a new
    registration, the capability list aside: after a tool has been
    registered under an id that is not in the map and a name that no tool
    of the map has, case aside, and has been unregistered by its id, the
    map, the name index, what the other indices list and the usage
    statistics are what they were; [getAllCapabilities] has kept its
    capabilities.  (Without coherent indices this fails: an id that an
    index still lists from an earlier registration loses that listing.) *)
Theorem unregisterTool_undoes_registerTool
    (validateToolDefinition : ToolDefinition.t → ValidationError + Tool.t)
    (toolDefinition : ToolDefinition.t) (uuid : string) (tool : Tool.t)
    (r : ToolRegistry) :
  coherent r →
  statsForTools r →
  validateToolDefinition toolDefinition = inr tool →
  newRegistration validateToolDefinition toolDefinition uuid r = true →
  ∃ r',
    unregisterTool (toolIdOf tool uuid)
      (registerTool validateToolDefinition toolDefinition uuid r).2
    = (true, r')
    ∧ entries r' = entries r
    ∧ byName (metadataIndex r') = byName (metadataIndex r)
    ∧ (∀ key id, listed (categories r') key id ↔ listed (categories r) key id)
    ∧ (∀ key id, listed (byCapability (metadataIndex r')) key id
                 ↔ listed (byCapability (metadataIndex r)) key id)
    ∧ (∀ key id, listed (byKeyword (metadataIndex r')) key id
                 ↔ listed (byKeyword (metadataIndex r)) key id)
    ∧ usageStats r' = usageStats r
    ∧ getAllCapabilities r' = getAllCapabilities r
                              ∪ list_to_set (Tool.capabilities tool).
Proof.
  intros (Hname & Hcat & Hcap & Hkw) Hstats Hvalid Hnew.
  unfold newRegistration in Hnew. rewrite Hvalid in Hnew.
  apply andb_true_iff in Hnew as [Hid Hnames].
  apply negb_true_iff, map_has_false in Hid.
  set (toolId := toolIdOf tool uuid) in *.
  assert (Hfresh : ∀ tool', ¬ map_get toolId (entries r) = Some tool')
    by (intros tool'; congruence).
  assert (Hunnamed : byName (metadataIndex r) !! toLowerCase (Tool.name tool)
                     = None).
  { destruct (byName (metadataIndex r) !! toLowerCase (Tool.name tool))
      as [id'|] eqn:Hid'; [|done]. exfalso.
    apply (Hname _ id') in Hid' as (tool' & Htool' & Hown).
    apply map_get_Some_elem, list_elem_of_In in Htool'.
    rewrite forallb_forall in Hnames. specialize (Hnames _ Htool').
    simpl in Hnames. apply negb_true_iff in Hnames.
    unfold ownName in Hown. rewrite Hown, String.eqb_refl in Hnames. done. }
  unfold registerTool. rewrite Hvalid. fold toolId. simpl.
  unfold unregisterTool. simpl.
  assert (Hstored : map_get toolId (map_set toolId tool (entries r))
                    = Some tool)
    by (by rewrite map_get_set, decide_True).
  rewrite (proj2 (map_has_true toolId _)) by (rewrite Hstored; eauto).
  rewrite Hstored. eexists. split; [reflexivity|]. simpl.
  split; [by apply map_delete_set_fresh|].
  split; [by apply delete_insert_id|].
  split; [|split; [|split; [|split]]].
  - intros key id. case_decide as Hempty; [done|].
    rewrite listed_index_remove, listed_index_add. split; [naive_solver|].
    intros Hold. split; [by right|]. intros [-> ->].
    apply Hcat in Hold as (tool' & Htool' & _). by eapply Hfresh.
  - intros key id.
    rewrite listed_index_remove_all, listed_index_add_all.
    split; [naive_solver|].
    intros Hold. split; [by right|]. intros [-> _].
    apply Hcap in Hold as (tool' & Htool' & _). by eapply Hfresh.
  - intros key id.
    rewrite listed_index_remove_all, listed_index_add_all.
    split; [naive_solver|].
    intros Hold. split; [by right|]. intros [-> _].
    apply Hkw in Hold as (tool' & Htool' & _). by eapply Hfresh.
  - apply delete_insert_id. apply eq_None_not_Some. rewrite (Hstats toolId).
    intros [tool' Htool']. by eapply Hfresh.
  - unfold getAllCapabilities. apply set_eq. intros c.
    rewrite elem_of_capabilities_added, elem_of_union, elem_of_list_to_set.
    tauto.
Qed.

Lemma unregisterTool_undoes_registerTool_witness :
  coherent echoRegistry
  ∧ statsForTools echoRegistry
  ∧ validateToolDefinition_spec
      (plainDefinition "" "Alpha" "first letter" ["a"; "alpha"])
    = inr (plainTool "" "Alpha" "first letter" ["a"; "alpha"])
  ∧ newRegistration validateToolDefinition_spec
      (plainDefinition "" "Alpha" "first letter" ["a"; "alpha"]) "uuid-1"
      echoRegistry = true
  ∧ ∃ r',
      unregisterTool
        (toolIdOf (plainTool "" "Alpha" "first letter" ["a"; "alpha"])
           "uuid-1")
        (registerTool validateToolDefinition_spec
           (plainDefinition "" "Alpha" "first letter" ["a"; "alpha"])
           "uuid-1" echoRegistry).2
      = (true, r')
      ∧ entries r' = entries echoRegistry
      ∧ byName (metadataIndex r') = byName (metadataIndex echoRegistry)
      ∧ (∀ key id, listed (categories r') key id
                   ↔ listed (categories echoRegistry) key id)
      ∧ (∀ key id, listed (byCapability (metadataIndex r')) key id
                   ↔ listed (byCapability (metadataIndex echoRegistry)) key id)
      ∧ (∀ key id, listed (byKeyword (metadataIndex r')) key id
                   ↔ listed (byKeyword (metadataIndex echoRegistry)) key id)
      ∧ usageStats r' = usageStats echoRegistry
      ∧ getAllCapabilities r'
        = getAllCapabilities echoRegistry
          ∪ list_to_set
              (Tool.capabilities
                 (plainTool "" "Alpha" "first letter" ["a"; "alpha"])).
Proof.
  assert (Hcoh : coherent echoRegistry).
  { apply (registerTool_coherent validateToolDefinition_spec echoDefinition
             "uuid-0" emptyRegistry coherent_emptyRegistry).
    reflexivity. }
  assert (Hstats : statsForTools echoRegistry).
  { apply registerTool_statsForTools, statsForTools_emptyRegistry. }
  split; [exact Hcoh|]. split; [exact Hstats|]. split; [reflexivity|].
  split; [reflexivity|].
  exact (unregisterTool_undoes_registerTool validateToolDefinition_spec
           (plainDefinition "" "Alpha" "first letter" ["a"; "alpha"])
           "uuid-1" (plainTool "" "Alpha" "first letter" ["a"; "alpha"])
           echoRegistry Hcoh Hstats eq_refl eq_refl).
Defined.

(** X10.  An accepted registration stores the tool under its own id or,
    when it has none, under the id drawn for it.  A new id goes to the end
    of the map; an id that is in the map keeps its place there, and the
    tool that it held is replaced.  Either way the usage statistics of the
    id start anew, and the tools and statistics under other ids are left
    alone. *)
Theorem registerTool_position
    (validateToolDefinition : ToolDefinition.t → ValidationError + Tool.t)
    (toolDefinition : ToolDefinition.t) (uuid : string) (tool : Tool.t)
    (r : ToolRegistry) :
  validateToolDefinition toolDefinition = inr tool →
  ∃ toolId r',
    registerTool validateToolDefinition toolDefinition uuid r = (true, r')
    ∧ toolId = (if decide (Tool.id tool = "") then uuid else Tool.id tool)
    ∧ map_get toolId (entries r') = Some tool
    ∧ usageStats r' !! toolId = Some initialStats
    ∧ (map_get toolId (entries r) = None →
       entries r' = (entries r ++ [(toolId, tool)])%list)
    ∧ (is_Some (map_get toolId (entries r)) →
       (entries r').*1 = (entries r).*1)
    ∧ (∀ other, other ≠ toolId →
         map_get other (entries r') = map_get other (entries r)
         ∧ usageStats r' !! other = usageStats r !! other).
Proof.
  intros Hvalid. exists (toolIdOf tool uuid). eexists.
  unfold registerTool. rewrite Hvalid. split; [reflexivity|]. simpl.
  split; [done|].
  split; [by rewrite map_get_set, decide_True|].
  split; [by rewrite lookup_insert_eq|].
  split; [apply map_set_fresh|].
  split; [apply map_set_keys_present|].
  intros other Hother.
  by rewrite map_get_set, decide_False, lookup_insert_ne.
Qed.

Lemma registerTool_position_witness :
  validateToolDefinition_spec movedEchoDefinition = inr movedEchoTool
  ∧ ∃ toolId r',
      registerTool validateToolDefinition_spec movedEchoDefinition "uuid-9"
        twoToolRegistry = (true, r')
      ∧ toolId = (if decide (Tool.id movedEchoTool = "") then "uuid-9"
                  else Tool.id movedEchoTool)
      ∧ map_get toolId (entries r') = Some movedEchoTool
      ∧ usageStats r' !! toolId = Some initialStats
      ∧ (map_get toolId (entries twoToolRegistry) = None →
         entries r'
         = (entries twoToolRegistry ++ [(toolId, movedEchoTool)])%list)
      ∧ (is_Some (map_get toolId (entries twoToolRegistry)) →
         (entries r').*1 = (entries twoToolRegistry).*1)
      ∧ (∀ other, other ≠ toolId →
           map_get other (entries r') = map_get other (entries twoToolRegistry)
           ∧ usageStats r' !! other = usageStats twoToolRegistry !! other).
Proof.
  split; [reflexivity|].
  exact (registerTool_position validateToolDefinition_spec
           movedEchoDefinition "uuid-9" movedEchoTool twoToolRegistry
           eq_refl).
Defined.

(** * Who is recommended, and the choice of the simple orchestrator *)

Lemma pow2_pos (k : Z) : (0 < pow2 k)%Z.
Proof. unfold pow2. apply Z.pow_pos_nonneg; lia. Qed.

(** The scaled significand is at least 1. *)
Lemma scaled_ge (a d k : Z) :
  (0 < a)%Z → (0 < d)%Z → (Z.log2 d + 1 <= Z.log2 a + k)%Z →
  (d * pow2 (- k) <= a * pow2 k)%Z.
Proof.
  intros Ha Hd Hk.
  destruct (Z.log2_spec a Ha) as [Hla _].
  destruct (Z.log2_spec d Hd) as [_ Hld].
  pose proof (Z.log2_nonneg a) as Hla0.
  pose proof (Z.log2_nonneg d) as Hld0.
  unfold pow2. destruct (Z_le_gt_dec 0 k) as [Hpos|Hneg].
  - rewrite (Z.max_l 0 (- k)), (Z.max_r 0 k) by lia.
    rewrite Z.pow_0_r, Z.mul_1_r.
    assert (Hle : (2 ^ Z.succ (Z.log2 d) <= 2 ^ (Z.log2 a + k))%Z)
      by (apply Z.pow_le_mono_r; lia).
    rewrite Z.pow_add_r in Hle by lia.
    assert (H2k : (0 < 2 ^ k)%Z) by (apply Z.pow_pos_nonneg; lia).
    nia.
  - rewrite (Z.max_r 0 (- k)), (Z.max_l 0 k) by lia.
    rewrite Z.pow_0_r, Z.mul_1_r.
    assert (Hle : (2 ^ (Z.succ (Z.log2 d) + - k) <= 2 ^ Z.log2 a)%Z)
      by (apply Z.pow_le_mono_r; lia).
    rewrite Z.pow_add_r in Hle by lia.
    assert (H2k : (0 < 2 ^ (- k))%Z) by (apply Z.pow_pos_nonneg; lia).
    nia.
Qed.

(** Rounding keeps the sign. *)
Lemma binary64_sgn (x : Q) : Z.sgn (Qnum (binary64 x)) = Z.sgn (Qnum x).
Proof.
  unfold binary64. destruct (Qnum x =? 0)%Z eqn:Hzero.
  - apply Z.eqb_eq in Hzero. by rewrite Hzero.
  - apply Z.eqb_neq in Hzero. cbv zeta. cbn [Qnum].
    set (a := Z.abs (Qnum x)). set (d := Z.pos (Qden x)).
    set (e0 := (Z.log2 a - Z.log2 d)%Z).
    set (e := if (a * pow2 (- e0) <? d * pow2 e0)%Z then (e0 - 1)%Z else e0).
    set (k := (52 - e)%Z).
    set (num := (a * pow2 k)%Z). set (den := (d * pow2 (- k))%Z).
    set (m := if (2 * (num mod den) <? den)%Z then (num / den)%Z
              else if (den <? 2 * (num mod den))%Z then (num / den + 1)%Z
                   else if Z.even (num / den) then (num / den)%Z
                        else (num / den + 1)%Z).
    assert (Ha : (0 < a)%Z) by (unfold a; lia).
    assert (Hd : (0 < d)%Z) by (unfold d; lia).
    assert (He : (e <= e0)%Z).
    { unfold e. destruct (a * pow2 (- e0) <? d * pow2 e0)%Z; lia. }
    assert (Hden : (0 < den)%Z).
    { unfold den. pose proof (pow2_pos (- k)). nia. }
    assert (Hge : (den <= num)%Z).
    { unfold den, num. apply scaled_ge; [done | done|]. unfold k, e0 in *.
      lia. }
    assert (Hq : (0 < num / den)%Z) by (apply Z.div_str_pos; lia).
    assert (Hm : (0 < m)%Z).
    { unfold m. destruct (2 * (num mod den) <? den)%Z; [done|].
      destruct (den <? 2 * (num mod den))%Z; [lia|].
      destruct (Z.even (num / den)); lia. }
    pose proof (pow2_pos (- k)) as Hp.
    assert (Hmp : (0 < m * pow2 (- k))%Z) by nia.
    rewrite <- Z.mul_assoc, Z.sgn_mul, (Z.sgn_pos (m * pow2 (- k))) by done.
    rewrite Z.mul_1_r. destruct (Qnum x); done.
Qed.

Lemma Qlt_0_sgn (x : Q) : (0 < x)%Q ↔ Z.sgn (Qnum x) = 1%Z.
Proof. unfold Qlt. simpl. rewrite Z.sgn_pos_iff. lia. Qed.

Lemma Qle_0_sgn (x : Q) : (0 <= x)%Q ↔ (0 <= Z.sgn (Qnum x))%Z.
Proof. unfold Qle. simpl. rewrite Z.sgn_nonneg. lia. Qed.

Lemma binary64_pos (x : Q) : (0 < binary64 x)%Q ↔ (0 < x)%Q.
Proof. by rewrite !Qlt_0_sgn, binary64_sgn. Qed.

Lemma binary64_nonneg (x : Q) : (0 <= binary64 x)%Q ↔ (0 <= x)%Q.
Proof. by rewrite !Qle_0_sgn, binary64_sgn. Qed.

(** The weight of a tool that has been used is positive when no counter is
    negative. *)
Lemma weight_positive (s : Z) (totalUses : Q) :
  (0 <= s)%Z → (0 < totalUses)%Q →
  (0 < binary64 ((1 # 2)
                 + binary64 ((1 # 2) * binary64 (inject_Z s / totalUses))))%Q.
Proof.
  intros Hs Htotal. apply binary64_pos.
  apply Qlt_le_trans with (1 # 2)%Q; [reflexivity|].
  rewrite <- (Qplus_0_r (1 # 2)) at 1. apply Qplus_le_r.
  apply binary64_nonneg. apply Qmult_le_0_compat; [discriminate|].
  apply binary64_nonneg. apply Qle_shift_div_l; [done|].
  rewrite Qmult_0_l. change 0%Q with (inject_Z 0). by rewrite <- Zle_Qle.
Qed.

Lemma closedMatchScore_positive (query : string) (tool : Tool.t) :
  (0 < closedMatchScore (toLowerCase query) tool)%Z ↔ matchesQuery query tool.
Proof.
  unfold closedMatchScore, matchesQuery.
  set (ql := toLowerCase query).
  set (hits := filter (λ keyword, includes ql (toLowerCase keyword) = true)
                 (Tool.keywords tool)).
  assert (Hhits : (∃ keyword, keyword ∈ Tool.keywords tool
                     ∧ includes ql (toLowerCase keyword) = true)
                  ↔ (0 < length hits)%nat).
  { split.
    - intros (keyword & Hin & Hinc).
      assert (Hhit : keyword ∈ hits) by (by apply list_elem_of_filter).
      destruct hits; [by apply elem_of_nil in Hhit | simpl; lia].
    - intros Hlen. destruct hits as [|keyword rest] eqn:Hrest;
        [simpl in Hlen; lia|].
      exists keyword.
      assert (Hhit : keyword ∈ hits) by (rewrite Hrest; left).
      apply list_elem_of_filter in Hhit as [Hinc Hin]. done. }
  rewrite Hhits. generalize (length hits). intros n.
  destruct (includes ql (toLowerCase (Tool.name tool))) eqn:Hname;
    destruct (String.eqb (Tool.description tool) "") eqn:Hdesc;
    destruct (includes ql (toLowerCase (Tool.description tool))) eqn:Hd;
    simpl;
    (apply String.eqb_eq in Hdesc || apply String.eqb_neq in Hdesc);
    (split;
     [intros Hpos; first [by right; left | by right; right | left; lia]
     |intros [Hlen | [Hn | [Hne Hd']]]; try lia; try done]).
Qed.

Lemma Qmult_pos_r (z : Z) (w : Q) :
  (0 < w)%Q → (0 < inject_Z z * w)%Q ↔ (0 < z)%Z.
Proof.
  intros Hw. split.
  - intros Hpos. destruct (Z_lt_le_dec 0 z) as [|Hle]; [done|]. exfalso.
    apply (Qlt_not_le _ _ Hpos). rewrite <- (Qmult_0_l w).
    apply Qmult_le_compat_r; [|by apply Qlt_le_weak].
    change 0%Q with (inject_Z 0). by rewrite <- Zle_Qle.
  - intros Hpos. apply Qmult_lt_0_compat; [|done].
    change 0%Q with (inject_Z 0). by rewrite <- Zlt_Qlt.
Qed.

Lemma entryScore_positive (r : ToolRegistry) (query : string)
    (e : string * Tool.t) :
  countedUp r → (0 < entryScore r query e)%Q ↔ matchesQuery query e.2.
Proof.
  intros Hcount. rewrite <- closedMatchScore_positive.
  destruct e as [id tool]. rewrite entryScore_closed. cbv zeta. simpl.
  assert (Hplain : (0 < inject_Z (closedMatchScore (toLowerCase query) tool))%Q
                   ↔ (0 < closedMatchScore (toLowerCase query) tool)%Z).
  { change 0%Q with (inject_Z 0). by rewrite <- Zlt_Qlt. }
  destruct (usageStats r !! id) as [st|] eqn:Hst; [|done].
  destruct (Hcount id st Hst) as [Hs Hf].
  destruct (Qltb 0 (binary64 (inject_Z (successCount st)
                              + inject_Z (failureCount st)))) eqn:Hused;
    [|done].
  apply Qltb_lt in Hused. rewrite binary64_pos.
  apply Qmult_pos_r. by apply weight_positive.
Qed.

Lemma getToolRecommendations_sortBy (query : string) (r : ToolRegistry) :
  NoDup (entries r).*1 →
  getToolRecommendations query r
  = (sortBy (entryScore r query)
       (filter (λ e, (0 < entryScore r query e)%Q) (entries r))).*2.
Proof.
  intros Hnodup.
  set (F := filter (λ e, (0 < entryScore r query e)%Q) (entries r)).
  unfold getToolRecommendations.
  rewrite matchScores_filter, sortByScore_sortBy. fold F.
  rewrite <- (sortBy_fmap (λ e, (e.1, entryScore r query e)) snd F).
  change (snd ∘ (λ e, (e.1, entryScore r query e)))
    with (entryScore r query).
  apply recommended_tools. intros [id tool] He. simpl.
  apply map_get_NoDup; [done|].
  rewrite sortBy_Permutation in He. unfold F in He.
  by apply list_elem_of_filter in He as [_ He].
Qed.

Lemma getToolRecommendations_elem (query : string) (r : ToolRegistry)
    (tool : Tool.t) :
  NoDup (entries r).*1 →
  tool ∈ getToolRecommendations query r
  ↔ ∃ id, map_get id (entries r) = Some tool
          ∧ (0 < entryScore r query (id, tool))%Q.
Proof.
  intros Hnodup. rewrite getToolRecommendations_sortBy by done.
  rewrite list_elem_of_fmap. split.
  - intros ([id tool'] & -> & He). rewrite sortBy_Permutation in He.
    apply list_elem_of_filter in He as [Hpos He]. exists id. simpl.
    split; [by apply map_get_NoDup | done].
  - intros (id & Htool & Hpos). exists (id, tool). split; [done|].
    rewrite sortBy_Permutation. apply list_elem_of_filter.
    split; [done | by apply map_get_Some_elem].
Qed.

Lemma NoDup_usedRegistry : NoDup (entries usedRegistry).*1.
Proof. apply (bool_decide_unpack _). vm_compute. exact I. Defined.

Lemma countedUp_usedRegistry : countedUp usedRegistry.
Proof. apply (bool_decide_unpack _). vm_compute. exact I. Defined.

(** X11.  With no negative counter in the usage statistics,
    [getToolRecommendations] recommends exactly the registered tools that
    the query matches: those with a keyword, the name or the description
    inside the query, case aside.  The past failures of a tool lower its
    rank and never take it out of the list. *)
Theorem getToolRecommendations_matches (query : string) (r : ToolRegistry)
    (tool : Tool.t) :
  NoDup (entries r).*1 →
  countedUp r →
  tool ∈ getToolRecommendations query r
  ↔ ∃ id,
      map_get id (entries r) = Some tool
      ∧ ((∃ keyword, keyword ∈ Tool.keywords tool
                     ∧ includes (toLowerCase query) (toLowerCase keyword)
                       = true)
         ∨ includes (toLowerCase query) (toLowerCase (Tool.name tool)) = true
         ∨ (Tool.description tool ≠ ""
            ∧ includes (toLowerCase query)
                (toLowerCase (Tool.description tool)) = true)).
Proof.
  intros Hnodup Hcount. rewrite getToolRecommendations_elem by done.
  split; intros (id & Htool & Hmatch); exists id; (split; [done|]).
  - by apply (entryScore_positive r query (id, tool)) in Hmatch.
  - by apply (entryScore_positive r query (id, tool)).
Qed.

Lemma getToolRecommendations_matches_witness :
  NoDup (entries usedRegistry).*1
  ∧ countedUp usedRegistry
  ∧ (plainTool "2" "used" "" ["echo"]
     ∈ getToolRecommendations "Echo this" usedRegistry
     ↔ ∃ id,
         map_get id (entries usedRegistry)
         = Some (plainTool "2" "used" "" ["echo"])
         ∧ ((∃ keyword,
               keyword ∈ Tool.keywords (plainTool "2" "used" "" ["echo"])
               ∧ includes (toLowerCase "Echo this") (toLowerCase keyword)
                 = true)
            ∨ includes (toLowerCase "Echo this")
                (toLowerCase (Tool.name (plainTool "2" "used" "" ["echo"])))
              = true
            ∨ (Tool.description (plainTool "2" "used" "" ["echo"]) ≠ ""
               ∧ includes (toLowerCase "Echo this")
                   (toLowerCase
                      (Tool.description (plainTool "2" "used" "" ["echo"])))
                 = true))).
Proof.
  split; [exact NoDup_usedRegistry|]. split; [exact countedUp_usedRegistry|].
  exact (getToolRecommendations_matches "Echo this" usedRegistry
           (plainTool "2" "used" "" ["echo"]) NoDup_usedRegistry
           countedUp_usedRegistry).
Defined.

Lemma someKeywordIn_true (query : string) (tool : Tool.t) :
  someKeywordIn query tool = true
  ↔ ∃ keyword, keyword ∈ Tool.keywords tool
               ∧ includes (toLowerCase query) (toLowerCase keyword) = true.
Proof.
  unfold someKeywordIn. rewrite existsb_exists.
  split; intros (keyword & Hin & Hinc); exists keyword;
    (split; [by apply list_elem_of_In | done]).
Qed.

Lemma firstKeywordMatch_None (query : string)
    (l : list (string * Tool.t)) :
  firstKeywordMatch query l = None
  ↔ Forall (λ e, someKeywordIn query e.2 = false) l.
Proof.
  induction l as [|[id tool] l IH]; simpl; [by split|].
  rewrite Forall_cons. simpl.
  destruct (someKeywordIn query tool); [|by rewrite IH; split; [|intros []]].
  by split; [|intros []].
Qed.

Lemma firstKeywordMatch_Some (query : string)
    (l : list (string * Tool.t)) (tool : Tool.t) :
  firstKeywordMatch query l = Some tool
  ↔ ∃ before id after,
      l = (before ++ (id, tool) :: after)%list
      ∧ someKeywordIn query tool = true
      ∧ Forall (λ e, someKeywordIn query e.2 = false) before.
Proof.
  induction l as [|[id0 tool0] l IH]; simpl.
  - split; [done|]. intros (before & id & after & Hl & _).
    by destruct before.
  - destruct (someKeywordIn query tool0) eqn:Hfirst.
    + split.
      * intros [= <-]. by exists [], id0, l.
      * intros (before & id & after & Hl & Hmatch & Hbefore).
        destruct before as [|e before]; simpl in Hl.
        -- by injection Hl as _ <- _.
        -- injection Hl as <- _. apply Forall_cons in Hbefore as [Hno _].
           simpl in Hno. congruence.
    + rewrite IH. split.
      * intros (before & id & after & -> & Hmatch & Hbefore).
        exists ((id0, tool0) :: before), id, after.
        split; [done|]. split; [done|]. by apply Forall_cons.
      * intros (before & id & after & Hl & Hmatch & Hbefore).
        destruct before as [|e before]; simpl in Hl.
        -- injection Hl as _ <- _. congruence.
        -- injection Hl as <- ->. apply Forall_cons in Hbefore as [_ Hrest].
           by exists before, id, after.
Qed.

(** X12.  [findBestTool] of the simple orchestrator returns the first tool,
    in the order of the map, one of whose keywords occurs in the query,
    case aside; when no tool has such a keyword it returns the tool under
    the id ['default'], and [null] when there is none. *)
Theorem findBestTool_first_match (query : string) (r : ToolRegistry)
    (found : option Tool.t) :
  findBestTool query r = found
  ↔ (∃ before id tool after,
       found = Some tool
       ∧ entries r = (before ++ (id, tool) :: after)%list
       ∧ someKeywordIn query tool = true
       ∧ Forall (λ e, someKeywordIn query e.2 = false) before)
    ∨ (Forall (λ e, someKeywordIn query e.2 = false) (entries r)
       ∧ found = map_get "default" (entries r)).
Proof.
  unfold findBestTool.
  destruct (firstKeywordMatch query (entries r)) as [tool|] eqn:Hfirst.
  - pose proof Hfirst as Hsome.
    apply firstKeywordMatch_Some in Hfirst
      as (before & id & after & Hl & Hmatch & Hbefore).
    split.
    + intros <-. left. by exists before, id, tool, after.
    + intros [(before' & id' & tool' & after' & -> & Hl' & Hmatch' & Hbefore')
             | [Hnone _]].
      * assert (Hsome' : firstKeywordMatch query (entries r) = Some tool').
        { apply firstKeywordMatch_Some. by exists before', id', after'. }
        congruence.
      * apply firstKeywordMatch_None in Hnone. congruence.
  - pose proof Hfirst as Hnone. apply firstKeywordMatch_None in Hfirst.
    split.
    + intros <-. by right.
    + intros [(before & id & tool & after & -> & Hl & Hmatch & Hbefore)
             | [_ ->]]; [|done].
      assert (Hsome : firstKeywordMatch query (entries r) = Some tool).
      { apply firstKeywordMatch_Some. by exists before, id, after. }
      congruence.
Qed.

(** X13.  When a keyword of some registered tool occurs in the query, the
    tool that [findBestTool] picks is one that [getToolRecommendations]
    recommends for the same query (the statistics holding no negative
    counter). *)
Theorem findBestTool_recommended (query : string) (r : ToolRegistry)
    (id : string) (candidate : Tool.t) :
  NoDup (entries r).*1 →
  countedUp r →
  map_get id (entries r) = Some candidate →
  someKeywordIn query candidate = true →
  ∃ tool,
    findBestTool query r = Some tool
    ∧ someKeywordIn query tool = true
    ∧ tool ∈ getToolRecommendations query r.
Proof.
  intros Hnodup Hcount Hcandidate Hmatch. unfold findBestTool.
  destruct (firstKeywordMatch query (entries r)) as [tool|] eqn:Hfirst.
  - exists tool. split; [done|].
    apply firstKeywordMatch_Some in Hfirst
      as (before & id' & after & Hl & Hmatch' & _).
    split; [done|]. apply getToolRecommendations_elem; [done|].
    exists id'. split.
    + apply map_get_NoDup; [done|]. rewrite Hl.
      apply elem_of_app. right. left.
    + apply (entryScore_positive r query (id', tool) Hcount). left.
      by apply someKeywordIn_true.
  - exfalso. apply firstKeywordMatch_None in Hfirst.
    rewrite Forall_forall in Hfirst.
    apply map_get_Some_elem in Hcandidate.
    specialize (Hfirst _ Hcandidate). simpl in Hfirst. congruence.
Qed.

Lemma findBestTool_recommended_witness :
  NoDup (entries usedRegistry).*1
  ∧ countedUp usedRegistry
  ∧ map_get "2" (entries usedRegistry)
    = Some (plainTool "2" "used" "" ["echo"])
  ∧ someKeywordIn "Echo this" (plainTool "2" "used" "" ["echo"]) = true
  ∧ ∃ tool,
      findBestTool "Echo this" usedRegistry = Some tool
      ∧ someKeywordIn "Echo this" tool = true
      ∧ tool ∈ getToolRecommendations "Echo this" usedRegistry.
Proof.
  split; [exact NoDup_usedRegistry|]. split; [exact countedUp_usedRegistry|].
  split; [reflexivity|]. split; [reflexivity|].
  exact (findBestTool_recommended "Echo this" usedRegistry "2"
           (plainTool "2" "used" "" ["echo"]) NoDup_usedRegistry
           countedUp_usedRegistry eq_refl eq_refl).
Defined.

(** X14.  The simple orchestrator answers that it does not know how to
    handle the request exactly when no keyword of a registered tool occurs
    in the text and no tool is registered under the id ['default'],
    whatever the handlers of the tools would do. *)
Theorem simpleProcessQuery_unknown (call : Handler → string → Outcome string)
    (notAFunction text sessionId : string) (r : ToolRegistry) :
  simpleProcessQuery call notAFunction text sessionId r
  = mkSimpleResult sessionId "I don't know how to handle that request yet."
      true None None
  ↔ Forall (λ e, someKeywordIn text e.2 = false) (entries r)
    ∧ map_get "default" (entries r) = None.
Proof.
  unfold simpleProcessQuery, findBestTool.
  destruct (firstKeywordMatch text (entries r)) as [tool|] eqn:Hfirst.
  - split.
    + by destruct (match Tool.execute tool with
                   | Some handler => call handler text
                   | None => Rejected (mkError "" notAFunction)
                   end).
    + intros [Hnone _]. apply firstKeywordMatch_None in Hnone. congruence.
  - apply firstKeywordMatch_None in Hfirst.
    destruct (map_get "default" (entries r)) as [tool|] eqn:Hdefault.
    + split; [|by intros [_ ?]].
      by destruct (match Tool.execute tool with
                   | Some handler => call handler text
                   | None => Rejected (mkError "" notAFunction)
                   end).
    + by split.
Qed.

(** * Importing data and loading a directory *)

Lemma registerTool_accepts
    (validateToolDefinition : ToolDefinition.t → ValidationError + Tool.t)
    (d : ToolDefinition.t) (uuid : string) (r : ToolRegistry) :
  (registerTool validateToolDefinition d uuid r).1
  = accepts validateToolDefinition d.
Proof.
  unfold registerTool, accepts. by destruct (validateToolDefinition d).
Qed.

Lemma length_map_set {V : Type} (k : string) (v : V) (m : list (string * V)) :
  (length (map_set k v m) ≤ S (length m))%nat.
Proof.
  induction m as [|[k' v'] m IH]; simpl; [lia|].
  destruct (decide (k = k')); simpl; lia.
Qed.

Lemma registerTool_length
    (validateToolDefinition : ToolDefinition.t → ValidationError + Tool.t)
    (d : ToolDefinition.t) (uuid : string) (r : ToolRegistry) :
  (length (entries (registerTool validateToolDefinition d uuid r).2)
   ≤ length (entries r)
     + (if accepts validateToolDefinition d then 1 else 0))%nat.
Proof.
  unfold registerTool, accepts.
  destruct (validateToolDefinition d) as [e|tool]; simpl; [lia|].
  pose proof (length_map_set (toolIdOf tool uuid) tool (entries r)). lia.
Qed.

Lemma registerTool_keeps_ids
    (validateToolDefinition : ToolDefinition.t → ValidationError + Tool.t)
    (id : string) (d : ToolDefinition.t) (uuid : string) (r : ToolRegistry) :
  is_Some (map_get id (entries r)) →
  is_Some (map_get id (entries (registerTool validateToolDefinition d uuid
                                  r).2)).
Proof.
  unfold registerTool.
  destruct (validateToolDefinition d) as [e|tool]; simpl; [done|].
  rewrite map_get_set. by case_decide.
Qed.

Section ImportCount.
Variable validateToolDefinition : ToolDefinition.t → ValidationError + Tool.t.

Lemma importTools_count (uuids : nat → string) (defs : list ToolDefinition.t)
    (r : ToolRegistry) (count k : nat) :
  ∃ r',
    foldl (λ '(importCount, r, k) toolDefinition,
             let '(ok, r') :=
               registerTool validateToolDefinition toolDefinition (uuids k) r in
             (if ok then S importCount else importCount, r', S k))
      (count, r, k) defs
    = ((count
        + length (filter (λ d, accepts validateToolDefinition d = true) defs))
       %nat,
       r', (k + length defs)%nat)
    ∧ (length (entries r')
       ≤ length (entries r)
         + length (filter (λ d, accepts validateToolDefinition d = true) defs))
      %nat.
Proof.
  revert r count k. induction defs as [|d defs IH]; intros r count k.
  - exists r. simpl. rewrite !Nat.add_0_r. done.
  - cbn [foldl].
    pose proof (registerTool_accepts validateToolDefinition d (uuids k) r)
      as Hok.
    pose proof (registerTool_length validateToolDefinition d (uuids k) r)
      as Hlen.
    destruct (registerTool validateToolDefinition d (uuids k) r) as [ok r1].
    simpl in Hok, Hlen. subst ok.
    destruct (IH r1 (if accepts validateToolDefinition d then S count
                     else count) (S k)) as (r' & Hfold & Hlen').
    exists r'. rewrite Hfold, filter_cons.
    destruct (accepts validateToolDefinition d) eqn:Hd.
    + rewrite decide_True by done. simpl. split; [f_equal; [f_equal|]; lia|].
      lia.
    + rewrite decide_False by done. simpl. split; [f_equal; lia|]. lia.
Qed.

(** [loadFromDirectory] makes the calls of [registerTool] that
    [importData] would make for the definitions of the files that load. *)
Lemma loadFiles_importTools (uuids : nat → string)
    (files : list (string * FileContent)) (r : ToolRegistry) :
  loadFiles validateToolDefinition uuids files r
  = importTools validateToolDefinition uuids (loadableDefinitions files) r.
Proof.
  unfold loadFiles, importTools. generalize (0%nat, r, 0%nat). clear r.
  induction files as [|[file content] files IH]; intros [[count r] k];
    [done|].
  cbn [foldl]. unfold loadableDefinitions. cbn [omap list_omap].
  fold (loadableDefinitions files).
  destruct (endsWith file ".js" || endsWith file ".json");
    [destruct content as [e|d]|]; simpl; apply IH.
Qed.
End ImportCount.

Lemma imported_stats_fold (present : string → bool)
    (l : list (string * ToolStats)) (acc : gmap string ToolStats) (k : string) :
  NoDup l.*1 →
  foldl (λ acc '(toolId, st),
           if present toolId then <[toolId := st]> acc else acc) acc l !! k
  = match (list_to_map l : gmap string ToolStats) !! k with
    | Some st => if present k then Some st else acc !! k
    | None => acc !! k
    end.
Proof.
  revert acc. induction l as [|[k0 st0] l IH]; intros acc Hnd.
  - simpl. by rewrite lookup_empty.
  - simpl in Hnd. apply NoDup_cons in Hnd as [Hk0 Hnd]. cbn [foldl].
    rewrite IH by done. rewrite list_to_map_cons.
    destruct (decide (k0 = k)) as [->|Hk].
    + apply not_elem_of_list_to_map in Hk0. rewrite Hk0, lookup_insert_eq.
      destruct (present k); [by rewrite lookup_insert_eq | done].
    + rewrite (lookup_insert_ne (list_to_map l)) by done.
      assert (Hacc : (if present k0 then <[k0 := st0]> acc else acc) !! k
                     = acc !! k).
      { destruct (present k0); [by rewrite lookup_insert_ne | done]. }
      by rewrite Hacc.
Qed.

(** X15.  [importData] returns the number of definitions of [data.tools]
    that [registerTool] accepts, which the number of tools in the registry
    does not exceed (two definitions may share an id).  Afterwards the
    registry has statistics for its tools only: those of
    [data.usageStats] where it has some for the id, the initial ones
    otherwise. *)
Theorem importData_result
    (validateToolDefinition : ToolDefinition.t → ValidationError + Tool.t)
    (data : ExportedData) (uuids : nat → string) (r0 : ToolRegistry) :
  ∃ r',
    importData validateToolDefinition data uuids r0
    = (length (filter (λ d, accepts validateToolDefinition d = true)
                 (data_tools data)), r')
    ∧ (length (entries r')
       ≤ length (filter (λ d, accepts validateToolDefinition d = true)
                   (data_tools data)))%nat
    ∧ (∀ id,
         usageStats r' !! id
         = if map_has id (entries r')
           then Some (default initialStats (data_usageStats data !! id))
           else None).
Proof.
  unfold importData.
  pose proof (importTools_keeps validateToolDefinition
                (λ r, ∀ id, usageStats r !! id
                            = if map_has id (entries r)
                              then Some initialStats else None)
                uuids (data_tools data) emptyRegistry) as Hfresh.
  unfold importTools in *.
  destruct (importTools_count validateToolDefinition uuids (data_tools data)
              emptyRegistry 0 0) as (r1 & Hfold & Hlen).
  rewrite Hfold in *. simpl in Hfresh, Hlen. eexists. split; [reflexivity|]. split; [done|].
  intros id. simpl.
  rewrite imported_stats_fold by apply NoDup_fst_map_to_list.
  rewrite list_to_map_to_list.
  rewrite Hfresh.
  - destruct (data_usageStats data !! id); by destruct (map_has id (entries r1)).
  - clear. intros d uuid r Hr id. unfold registerTool.
    destruct (validateToolDefinition d) as [e|tool]; [apply Hr|]. simpl.
    rewrite lookup_insert. unfold map_has. rewrite map_get_set.
    destruct (decide (toolIdOf tool uuid = id)) as [->|Hne].
    + rewrite decide_True by done. by rewrite bool_decide_eq_true_2.
    + rewrite decide_False by done. apply Hr.
  - intros id'. simpl. by rewrite lookup_empty.
Qed.

(** X16.  [loadFromDirectory], for a directory that lists its files,
    registers the definitions of the [.js] and [.json] files that load, in
    the order of the listing, as [importData] registers a list of
    definitions; a file that does not load, or of another kind, is passed
    over and the files after it are still loaded.  The count returned is
    the number of definitions accepted, and no id leaves the map. *)
Theorem loadFromDirectory_files
    (validateToolDefinition : ToolDefinition.t → ValidationError + Tool.t)
    (files : list (string * FileContent)) (uuids : nat → string)
    (r : ToolRegistry) :
  ∃ r',
    loadFromDirectory validateToolDefinition (Files files) uuids r
    = Resolved
        (length (filter (λ d, accepts validateToolDefinition d = true)
                   (loadableDefinitions files)), r')
    ∧ importTools validateToolDefinition uuids (loadableDefinitions files) r
      = (length (filter (λ d, accepts validateToolDefinition d = true)
                   (loadableDefinitions files)), r',
         length (loadableDefinitions files))
    ∧ (length (entries r')
       ≤ length (entries r)
         + length (filter (λ d, accepts validateToolDefinition d = true)
                     (loadableDefinitions files)))%nat
    ∧ (∀ id, is_Some (map_get id (entries r)) →
             is_Some (map_get id (entries r'))).
Proof.
  unfold loadFromDirectory. rewrite loadFiles_importTools.
  assert (Hkept : ∀ id, is_Some (map_get id (entries r)) →
            is_Some (map_get id
                       (entries (importTools validateToolDefinition uuids
                                   (loadableDefinitions files) r).1.2))).
  { intros id Hid.
    apply (importTools_keeps validateToolDefinition
             (λ r, is_Some (map_get id (entries r)))); [|done].
    intros d uuid r1. apply registerTool_keeps_ids. }
  revert Hkept. unfold importTools.
  destruct (importTools_count validateToolDefinition uuids
              (loadableDefinitions files) r 0 0) as (r' & -> & Hlen).
  simpl. intros Hkept. by exists r'.
Qed.

(** * The search, on an example *)

Lemma NoDup_twoToolRegistry : NoDup (entries twoToolRegistry).*1.
Proof. apply (bool_decide_unpack _). vm_compute. exact I. Defined.

Lemma coherent_twoToolRegistry : coherent twoToolRegistry.
Proof.
  apply runOps_coherent; [apply coherent_emptyRegistry | reflexivity].
Qed.

Lemma findTools_intersection_witness :
  NoDup (entries twoToolRegistry).*1
  ∧ coherent twoToolRegistry
  ∧ (∀ keyword,
       keyword ∈ c_keywords (mkCriteria "util" "SPEAK" ["Echo"] "" "text/plain") →
       is_Some (byKeyword (metadataIndex twoToolRegistry)
                !! toLowerCase keyword))
  ∧ (echoTool
     ∈ findTools (mkCriteria "util" "SPEAK" ["Echo"] "" "text/plain")
         twoToolRegistry
     ↔ ∃ id,
         map_get id (entries twoToolRegistry) = Some echoTool
         ∧ (c_category (mkCriteria "util" "SPEAK" ["Echo"] "" "text/plain") = ""
            ∨ Tool.category echoTool
              = c_category (mkCriteria "util" "SPEAK" ["Echo"] "" "text/plain"))
         ∧ (c_capability (mkCriteria "util" "SPEAK" ["Echo"] "" "text/plain")
            = ""
            ∨ toLowerCase
                (c_capability
                   (mkCriteria "util" "SPEAK" ["Echo"] "" "text/plain"))
              ∈ toLowerCase <$> Tool.capabilities echoTool)
         ∧ (∀ keyword,
              keyword
              ∈ c_keywords (mkCriteria "util" "SPEAK" ["Echo"] "" "text/plain") →
              toLowerCase keyword ∈ toLowerCase <$> Tool.keywords echoTool)
         ∧ (c_inputType (mkCriteria "util" "SPEAK" ["Echo"] "" "text/plain")
            = ""
            ∨ c_inputType (mkCriteria "util" "SPEAK" ["Echo"] "" "text/plain")
              ∈ Tool.inputTypes echoTool)
         ∧ (c_outputType (mkCriteria "util" "SPEAK" ["Echo"] "" "text/plain")
            = ""
            ∨ c_outputType (mkCriteria "util" "SPEAK" ["Echo"] "" "text/plain")
              ∈ Tool.outputTypes echoTool)).
Proof.
  assert (Hindexed :
            ∀ keyword,
              keyword
              ∈ c_keywords (mkCriteria "util" "SPEAK" ["Echo"] "" "text/plain") →
              is_Some (byKeyword (metadataIndex twoToolRegistry)
                       !! toLowerCase keyword)).
  { intros keyword Hkeyword. simpl in Hkeyword.
    apply list_elem_of_singleton in Hkeyword as ->.
    vm_compute. eauto. }
  split; [exact NoDup_twoToolRegistry|].
  split; [exact coherent_twoToolRegistry|]. split; [exact Hindexed|].
  exact (findTools_intersection
           (mkCriteria "util" "SPEAK" ["Echo"] "" "text/plain")
           twoToolRegistry echoTool NoDup_twoToolRegistry
           coherent_twoToolRegistry Hindexed).
Defined.

(** * Further properties of the orchestrator *)

Lemma getOrCreateContext_stored (sid userId : string) (run : Run)
    (st : State) :
  storedSessions (getOrCreateContext sid userId run st).2 = storedSessions st.
Proof.
  unfold getOrCreateContext.
  destruct (activeContexts st !! sid); [done|].
  by destruct (retrieveSession sid (retrieval run) st) as [[saved|]|e].
Qed.

Lemma getOrCreateContext_active (sid userId : string) (run : Run)
    (st : State) :
  activeContexts (getOrCreateContext sid userId run st).2 !! sid
  = Some (getOrCreateContext sid userId run st).1.
Proof.
  unfold getOrCreateContext.
  destruct (activeContexts st !! sid) as [c|] eqn:Hc; [done|].
  destruct (retrieveSession sid (retrieval run) st) as [[saved|]|e]; simpl;
    by rewrite lookup_insert_eq.
Qed.

Lemma getOrCreateContext_others (sid userId : string) (run : Run)
    (st : State) (other : string) :
  other ≠ sid →
  activeContexts (getOrCreateContext sid userId run st).2 !! other
  = activeContexts st !! other.
Proof.
  intros Hother. unfold getOrCreateContext.
  destruct (activeContexts st !! sid) as [c|] eqn:Hc; [done|].
  destruct (retrieveSession sid (retrieval run) st) as [[saved|]|e]; simpl;
    by rewrite lookup_insert_ne.
Qed.

(** X19.  [getOrCreateContext] leaves the session with a context in
    memory, the one it returns; it writes nothing to the session store and
    touches no other session; and a further call for the session returns
    the same context without a change, whatever the store would answer. *)
Theorem getOrCreateContext_cached (sid userId : string) (run : Run)
    (st : State) :
  ∃ c st',
    getOrCreateContext sid userId run st = (c, st')
    ∧ activeContexts st' !! sid = Some c
    ∧ storedSessions st' = storedSessions st
    ∧ (∀ other, other ≠ sid →
         activeContexts st' !! other = activeContexts st !! other)
    ∧ (∀ userId' run', getOrCreateContext sid userId' run' st' = (c, st')).
Proof.
  pose proof (getOrCreateContext_active sid userId run st) as Hactive.
  pose proof (getOrCreateContext_stored sid userId run st) as Hstored.
  pose proof (getOrCreateContext_others sid userId run st) as Hothers.
  destruct (getOrCreateContext sid userId run st) as [c st'].
  simpl in *. exists c, st'. split; [done|]. split; [done|].
  split; [done|]. split; [done|].
  intros userId' run'. unfold getOrCreateContext. by rewrite Hactive.
Qed.

Lemma processQuery_resolved (queryData : QueryData) (run : Run) (st : State)
    (intent : Intent) (entities : list string) (plan : Plan)
    (executionResults : ExecutionResults) (response : Response) :
  analysis run = Resolved (intent, entities) →
  planning run = Resolved plan →
  execution run = Resolved executionResults →
  synthesis run = Resolved response →
  let cs := getOrCreateContext (sessionId queryData) (queryUserId queryData)
              run st in
  let c := answeredContext queryData run intent entities plan
             executionResults response cs.1 in
  processQuery queryData run st
  = match storing run with
    | Resolved _ =>
        (Answer (sessionId queryData) (text response)
           (toolsUsed executionResults),
         storeSession (sessionId queryData) c
           (writeContext (sessionId queryData) c cs.2))
    | Rejected error =>
        failQuery (sessionId queryData) error run
          (writeContext (sessionId queryData) c cs.2)
    end.
Proof.
  intros Ha Hp He Hs. simpl. unfold processQuery.
  destruct (getOrCreateContext _ _ run st) as [c0 st0].
  rewrite Ha, Hp, He, Hs. simpl. rewrite !writeContext_twice.
  by destruct (storing run).
Qed.

Lemma failQuery_Failure (sid : string) (error : Error) (run : Run)
    (st : State) :
  ∃ text errorType errorMessage,
    failQuery sid error run st = (Failure sid text errorType errorMessage, st).
Proof.
  unfold failQuery.
  destruct (handleExecutionError error (fallbackContent run))
    as [[text errorType] userMessage]. eauto.
Qed.

Lemma processQuery_Answer_inv (queryData : QueryData) (run : Run)
    (st st' : State) (s t : string) (tools : list ToolRun) :
  processQuery queryData run st = (Answer s t tools, st') →
  ∃ intent entities plan executionResults response u,
    analysis run = Resolved (intent, entities)
    ∧ planning run = Resolved plan
    ∧ execution run = Resolved executionResults
    ∧ synthesis run = Resolved response
    ∧ storing run = Resolved u.
Proof.
  unfold processQuery.
  destruct (getOrCreateContext _ _ run st) as [c0 st0].
  destruct (analysis run) as [[intent entities]|e].
  2: { destruct (failQuery_Failure (sessionId queryData) e run
                   (writeContext (sessionId queryData)
                      (setCurrentQuery (queryText queryData) c0) st0))
         as (? & ? & ? & ->). done. }
  destruct (planning run) as [plan|e].
  2: { match goal with
       | |- failQuery ?sid ?e ?run ?st = _ → _ =>
           destruct (failQuery_Failure sid e run st) as (? & ? & ? & ->)
       end. done. }
  destruct (execution run) as [executionResults|e].
  2: { match goal with
       | |- failQuery ?sid ?e ?run ?st = _ → _ =>
           destruct (failQuery_Failure sid e run st) as (? & ? & ? & ->)
       end. done. }
  destruct (synthesis run) as [response|e].
  2: { match goal with
       | |- failQuery ?sid ?e ?run ?st = _ → _ =>
           destruct (failQuery_Failure sid e run st) as (? & ? & ? & ->)
       end. done. }
  destruct (storing run) as [u|e].
  2: { match goal with
       | |- failQuery ?sid ?e ?run ?st = _ → _ =>
           destruct (failQuery_Failure sid e run st) as (? & ? & ? & ->)
       end. done. }
  intros _. by exists intent, entities, plan, executionResults, response, u.
Qed.

(** X20.  When [processQuery] answers, the answer carries the session id of
    the query, the text of the synthesized response and the tools that the
    execution used; the context of the session is then the same in memory
    and in the session store, and its history is the history it had
    before, followed by the user turn with the text of the query and the
    assistant turn with the text of the answer and the names of the
    tools. *)
Theorem processQuery_answer (queryData : QueryData) (run : Run)
    (st st' : State) (s t : string) (tools : list ToolRun) :
  processQuery queryData run st = (Answer s t tools, st') →
  s = sessionId queryData
  ∧ (∃ response executionResults,
       synthesis run = Resolved response ∧ t = text response
       ∧ execution run = Resolved executionResults
       ∧ tools = toolsUsed executionResults)
  ∧ ∃ c,
      activeContexts st' !! s = Some c
      ∧ storedSessions st' !! s = Some c
      ∧ Context.conversationHistory c
        = (Context.conversationHistory
             (getOrCreateContext s (queryUserId queryData) run st).1
           ++ [mkTurn user (queryText queryData) None (userTurnTime run);
               mkTurn assistant t (Some (toolName <$> tools))
                 (assistantTurnTime run)])%list.
Proof.
  intros Hanswer.
  destruct (processQuery_Answer_inv _ _ _ _ _ _ _ Hanswer)
    as (intent & entities & plan & executionResults & response & u
        & Ha & Hp & He & Hs & Hst).
  rewrite (processQuery_resolved queryData run st _ _ _ _ _ Ha Hp He Hs)
    in Hanswer.
  rewrite Hst in Hanswer. injection Hanswer as <- <- <- <-.
  split; [done|]. split; [by exists response, executionResults|].
  eexists. split; [apply lookup_insert_eq|]. split; [apply lookup_insert_eq|].
  simpl. by rewrite <- app_assoc.
Qed.

Lemma processQuery_answer_witness :
  processQuery helloQuery goodRun initialState
  = (Answer "s1" "hello" [mkToolRun "Echo" 3], answeredState)
  ∧ "s1" = sessionId helloQuery
  ∧ (∃ response executionResults,
       synthesis goodRun = Resolved response ∧ "hello" = text response
       ∧ execution goodRun = Resolved executionResults
       ∧ [mkToolRun "Echo" 3] = toolsUsed executionResults)
  ∧ ∃ c,
      activeContexts answeredState !! "s1" = Some c
      ∧ storedSessions answeredState !! "s1" = Some c
      ∧ Context.conversationHistory c
        = (Context.conversationHistory
             (getOrCreateContext "s1" (queryUserId helloQuery) goodRun
                initialState).1
           ++ [mkTurn user (queryText helloQuery) None (userTurnTime goodRun);
               mkTurn assistant "hello"
                 (Some (toolName <$> [mkToolRun "Echo" 3]))
                 (assistantTurnTime goodRun)])%list.
Proof.
  split; [reflexivity|].
  exact (processQuery_answer helloQuery goodRun initialState answeredState
           "s1" "hello" [mkToolRun "Echo" 3] eq_refl).
Defined.

(** X21.  A conversation that was answered survives the sweep: whether or
    not [cleanupIdleContexts] evicts the context from memory,
    [getOrCreateContext] returns, when the session store answers, the
    context that the query stored, with the turns of the query at the end
    of its history. *)
Theorem answered_session_survives_sweep (Date_parse : string → option Z)
    (queryData : QueryData) (run : Run) (st st1 : State) (s t : string)
    (tools : list ToolRun) (maxAgeMs now : Z) (userId' : string)
    (run' : Run) :
  processQuery queryData run st = (Answer s t tools, st1) →
  retrieval run' = Resolved () →
  ∃ c earlier,
    storedSessions st1 !! s = Some c
    ∧ (getOrCreateContext s userId' run'
         (cleanupIdleContexts Date_parse maxAgeMs now st1).2).1 = c
    ∧ Context.conversationHistory c
      = (earlier
         ++ [mkTurn user (queryText queryData) None (userTurnTime run);
             mkTurn assistant t (Some (toolName <$> tools))
               (assistantTurnTime run)])%list.
Proof.
  intros Hanswer Hretrieval.
  destruct (processQuery_Answer_inv _ _ _ _ _ _ _ Hanswer)
    as (intent & entities & plan & executionResults & response & u
        & Ha & Hp & He & Hs & Hst).
  rewrite (processQuery_resolved queryData run st _ _ _ _ _ Ha Hp He Hs)
    in Hanswer.
  rewrite Hst in Hanswer. injection Hanswer as <- <- <- <-.
  eexists. eexists. split; [apply lookup_insert_eq|]. split.
  - unfold getOrCreateContext. rewrite cleanupIdleContexts_lookup.
    simpl. rewrite lookup_insert_eq.
    destruct (isIdle Date_parse maxAgeMs now _); [|done].
    unfold retrieveSession. rewrite Hretrieval.
    rewrite cleanupIdleContexts_stored. simpl. by rewrite lookup_insert_eq.
  - simpl. by rewrite <- app_assoc.
Qed.

Lemma answered_session_survives_sweep_witness :
  processQuery helloQuery goodRun initialState
  = (Answer "s1" "hello" [mkToolRun "Echo" 3], answeredState)
  ∧ retrieval goodRun = Resolved ()
  ∧ activeContexts
      (cleanupIdleContexts noDate defaultMaxAgeMs 1700000000000
         answeredState).2 !! "s1" = None
  ∧ ∃ c earlier,
      storedSessions answeredState !! "s1" = Some c
      ∧ (getOrCreateContext "s1" "bob" goodRun
           (cleanupIdleContexts noDate defaultMaxAgeMs 1700000000000
              answeredState).2).1 = c
      ∧ Context.conversationHistory c
        = (earlier
           ++ [mkTurn user (queryText helloQuery) None (userTurnTime goodRun);
               mkTurn assistant "hello"
                 (Some (toolName <$> [mkToolRun "Echo" 3]))
                 (assistantTurnTime goodRun)])%list.
Proof.
  split; [reflexivity|]. split; [reflexivity|].
  split; [vm_compute; reflexivity|].
  exact (answered_session_survives_sweep noDate helloQuery goodRun
           initialState answeredState "s1" "hello" [mkToolRun "Echo" 3]
           defaultMaxAgeMs 1700000000000 "bob" goodRun eq_refl eq_refl).
Defined.

(** X22.  When only the session store fails, [processQuery] returns a
    failure although the exchange has been recorded: the context in memory
    has the user turn and the assistant turn with the synthesized text at
    the end of its history, and the stored sessions are what they were. *)
Theorem processQuery_store_failure (queryData : QueryData) (run : Run)
    (st : State) (intent : Intent) (entities : list string) (plan : Plan)
    (executionResults : ExecutionResults) (response : Response)
    (error : Error) :
  analysis run = Resolved (intent, entities) →
  planning run = Resolved plan →
  execution run = Resolved executionResults →
  synthesis run = Resolved response →
  storing run = Rejected error →
  ∃ reply errorType errorMessage st' c,
    processQuery queryData run st
    = (Failure (sessionId queryData) reply errorType errorMessage, st')
    ∧ activeContexts st' !! sessionId queryData = Some c
    ∧ Context.conversationHistory c
      = (Context.conversationHistory
           (getOrCreateContext (sessionId queryData) (queryUserId queryData)
              run st).1
         ++ [mkTurn user (queryText queryData) None (userTurnTime run);
             mkTurn assistant (text response)
               (Some (toolName <$> toolsUsed executionResults))
               (assistantTurnTime run)])%list
    ∧ storedSessions st' = storedSessions st.
Proof.
  intros Ha Hp He Hs Hst.
  rewrite (processQuery_resolved queryData run st _ _ _ _ _ Ha Hp He Hs), Hst.
  match goal with
  | |- context [failQuery ?sid ?e ?run ?st] =>
      destruct (failQuery_Failure sid e run st)
        as (reply & errorType & errorMessage & ->)
  end.
  exists reply, errorType, errorMessage. eexists. eexists.
  split; [reflexivity|]. split; [apply lookup_insert_eq|]. simpl.
  split; [by rewrite <- app_assoc | apply getOrCreateContext_stored].
Qed.

Lemma processQuery_store_failure_witness :
  analysis unsavedRun = Resolved (mkIntent "echo", ["hello"])
  ∧ planning unsavedRun = Resolved (mkPlan ["Echo"] 10)
  ∧ execution unsavedRun
    = Resolved (mkExecutionResults ["hello"] [mkToolRun "Echo" 3])
  ∧ synthesis unsavedRun = Resolved (mkResponse "hello" None [])
  ∧ storing unsavedRun = Rejected (mkError "STORE_DOWN" "no connection")
  ∧ ∃ reply errorType errorMessage st' c,
      processQuery helloQuery unsavedRun answeredState
      = (Failure (sessionId helloQuery) reply errorType errorMessage, st')
      ∧ activeContexts st' !! sessionId helloQuery = Some c
      ∧ Context.conversationHistory c
        = (Context.conversationHistory
             (getOrCreateContext (sessionId helloQuery)
                (queryUserId helloQuery) unsavedRun answeredState).1
           ++ [mkTurn user (queryText helloQuery) None
                 (userTurnTime unsavedRun);
               mkTurn assistant (text (mkResponse "hello" None []))
                 (Some (toolName
                        <$> toolsUsed
                              (mkExecutionResults ["hello"]
                                 [mkToolRun "Echo" 3])))
                 (assistantTurnTime unsavedRun)])%list
      ∧ storedSessions st' = storedSessions answeredState.
Proof.
  split; [reflexivity|]. split; [reflexivity|]. split; [reflexivity|].
  split; [reflexivity|]. split; [reflexivity|].
  exact (processQuery_store_failure helloQuery unsavedRun answeredState
           (mkIntent "echo") ["hello"] (mkPlan ["Echo"] 10)
           (mkExecutionResults ["hello"] [mkToolRun "Echo" 3])
           (mkResponse "hello" None [])
           (mkError "STORE_DOWN" "no connection")
           eq_refl eq_refl eq_refl eq_refl eq_refl).
Defined.

(** X23.  A query whose analysis, planning, execution or synthesis fails is
    answered by a failure for its session and records no turn: the context
    of the session is in memory with the history it had and with the text
    of the query as its current query, and nothing is stored. *)
Theorem processQuery_failure_records_nothing (queryData : QueryData)
    (run : Run) (st : State) :
  (∃ e, analysis run = Rejected e) ∨ (∃ e, planning run = Rejected e)
  ∨ (∃ e, execution run = Rejected e) ∨ (∃ e, synthesis run = Rejected e) →
  ∃ reply errorType errorMessage st' c,
    processQuery queryData run st
    = (Failure (sessionId queryData) reply errorType errorMessage, st')
    ∧ activeContexts st' !! sessionId queryData = Some c
    ∧ Context.conversationHistory c
      = Context.conversationHistory
          (getOrCreateContext (sessionId queryData) (queryUserId queryData)
             run st).1
    ∧ Context.currentQuery c = Some (queryText queryData)
    ∧ storedSessions st' = storedSessions st.
Proof.
  intros Hfails.
  pose proof (getOrCreateContext_stored (sessionId queryData)
                (queryUserId queryData) run st) as Hstored.
  unfold processQuery.
  destruct (getOrCreateContext _ _ run st) as [c0 st0]. simpl in Hstored.
  assert (Hfail : ∀ e c,
            Context.conversationHistory c = Context.conversationHistory c0 →
            Context.currentQuery c = Some (queryText queryData) →
            ∃ reply errorType errorMessage st' c',
              failQuery (sessionId queryData) e run
                (writeContext (sessionId queryData) c st0)
              = (Failure (sessionId queryData) reply errorType errorMessage,
                 st')
              ∧ activeContexts st' !! sessionId queryData = Some c'
              ∧ Context.conversationHistory c'
                = Context.conversationHistory c0
              ∧ Context.currentQuery c' = Some (queryText queryData)
              ∧ storedSessions st' = storedSessions st).
  { intros e c Hhistory Hquery.
    destruct (failQuery_Failure (sessionId queryData) e run
                (writeContext (sessionId queryData) c st0))
      as (reply & errorType & errorMessage & ->).
    exists reply, errorType, errorMessage. eexists. exists c.
    split; [reflexivity|]. split; [apply lookup_insert_eq | done]. }
  destruct (analysis run) as [[intent entities]|e].
  2: { by apply Hfail. }
  rewrite writeContext_twice.
  destruct (planning run) as [plan|e].
  2: { by apply Hfail. }
  rewrite writeContext_twice.
  destruct (execution run) as [executionResults|e].
  2: { by apply Hfail. }
  rewrite writeContext_twice.
  destruct (synthesis run) as [response|e].
  2: { by apply Hfail. }
  exfalso. destruct Hfails as [[e ?] | [[e ?] | [[e ?] | [e ?]]]]; done.
Qed.

Lemma processQuery_failure_records_nothing_witness :
  ((∃ e, analysis failingRun = Rejected e)
   ∨ (∃ e, planning failingRun = Rejected e)
   ∨ (∃ e, execution failingRun = Rejected e)
   ∨ (∃ e, synthesis failingRun = Rejected e))
  ∧ ∃ reply errorType errorMessage st' c,
      processQuery helloQuery failingRun answeredState
      = (Failure (sessionId helloQuery) reply errorType errorMessage, st')
      ∧ activeContexts st' !! sessionId helloQuery = Some c
      ∧ Context.conversationHistory c
        = Context.conversationHistory
            (getOrCreateContext (sessionId helloQuery)
               (queryUserId helloQuery) failingRun answeredState).1
      ∧ Context.currentQuery c = Some (queryText helloQuery)
      ∧ storedSessions st' = storedSessions answeredState.
Proof.
  assert (Hfails : (∃ e, analysis failingRun = Rejected e)
                   ∨ (∃ e, planning failingRun = Rejected e)
                   ∨ (∃ e, execution failingRun = Rejected e)
                   ∨ (∃ e, synthesis failingRun = Rejected e)).
  { right. right. left. eexists. reflexivity. }
  split; [exact Hfails|].
  exact (processQuery_failure_records_nothing helloQuery failingRun
           answeredState Hfails).
Defined.

(** X24.  [processQuery] touches the session of the query only: the
    context of every other session, in memory and in the session store, is
    left as it was, whether the query is answered or fails. *)
Theorem processQuery_other_sessions (queryData : QueryData) (run : Run)
    (st : State) (other : string) :
  other ≠ sessionId queryData →
  activeContexts (processQuery queryData run st).2 !! other
  = activeContexts st !! other
  ∧ storedSessions (processQuery queryData run st).2 !! other
    = storedSessions st !! other.
Proof.
  intros Hother.
  destruct (processQuery_state queryData run st) as (c' & _ & _ & Hstate).
  simpl in Hstate.
  pose proof (getOrCreateContext_others (sessionId queryData)
                (queryUserId queryData) run st other Hother) as Hactive.
  pose proof (getOrCreateContext_stored (sessionId queryData)
                (queryUserId queryData) run st) as Hstored.
  destruct Hstate as [-> | ->]; simpl.
  - rewrite lookup_insert_ne by done. by rewrite Hactive, Hstored.
  - rewrite !lookup_insert_ne by done. by rewrite Hactive, Hstored.
Qed.

Lemma processQuery_other_sessions_witness :
  "s1" ≠ sessionId (mkQueryData "and again" "s2" "bob")
  ∧ activeContexts
      (processQuery (mkQueryData "and again" "s2" "bob") failingRun
         answeredState).2 !! "s1"
    = activeContexts answeredState !! "s1"
  ∧ storedSessions
      (processQuery (mkQueryData "and again" "s2" "bob") failingRun
         answeredState).2 !! "s1"
    = storedSessions answeredState !! "s1".
Proof.
  assert (Hother : "s1" ≠ sessionId (mkQueryData "and again" "s2" "bob"))
    by discriminate.
  split; [exact Hother|].
  exact (processQuery_other_sessions (mkQueryData "and again" "s2" "bob")
           failingRun answeredState "s1" Hother).
Defined.

Lemma prefix_append (s t : string) : String.prefix s (s +:+ t) = true.
Proof.
  induction s as [|a s IH]; simpl; [by destruct t|].
  by destruct (ascii_dec a a).
Qed.

Lemma handleExecutionError_message (error : Error) (fallback : option string) :
  (handleExecutionError error fallback).2 ∈ userMessages
  ∧ String.prefix (handleExecutionError error fallback).2
      (handleExecutionError error fallback).1.1 = true
  ∧ ((handleExecutionError error fallback).1.2 = "context_limit"
     ∨ (handleExecutionError error fallback).1.2 = "rate_limit"
     ∨ (handleExecutionError error fallback).1.2 = "invalid_request" →
     (handleExecutionError error fallback).1.1
     = (handleExecutionError error fallback).2).
Proof.
  unfold handleExecutionError, userMessages.
  destruct (String.eqb (code error) "TOOL_EXECUTION_FAILED");
    [|destruct (String.eqb (code error) "CONTEXT_LIMIT_EXCEEDED");
      [|destruct (String.eqb (code error) "RATE_LIMIT_EXCEEDED");
        [|destruct (String.eqb (code error) "INVALID_REQUEST")]]];
    destruct fallback as [content|]; simpl;
    (split; [repeat constructor|]);
    (split; [vm_compute; reflexivity|]);
    first [by intros _ | by intros [? | [? | ?]]].
Qed.

(** X25.  A failure returned by [processQuery] carries the session id of
    the query.  In production its error message is one of the five user
    messages of [handleExecutionError], never the message of the error
    that was thrown; its text begins with that user message, and is that
    user message alone for the error types [context_limit], [rate_limit]
    and [invalid_request], for which the fallback completion is not
    used. *)
Theorem processQuery_failure_message (queryData : QueryData) (run : Run)
    (st st' : State) (s reply errorType errorMessage : string) :
  processQuery queryData run st = (Failure s reply errorType errorMessage, st') →
  production run = true →
  s = sessionId queryData
  ∧ errorMessage ∈ userMessages
  ∧ String.prefix errorMessage reply = true
  ∧ (errorType = "context_limit" ∨ errorType = "rate_limit"
     ∨ errorType = "invalid_request" → reply = errorMessage).
Proof.
  intros Hfailure Hproduction.
  assert (Hfail : ∀ e st0,
            failQuery (sessionId queryData) e run st0
            = (Failure s reply errorType errorMessage, st') →
            s = sessionId queryData
            ∧ errorMessage ∈ userMessages
            ∧ String.prefix errorMessage reply = true
            ∧ (errorType = "context_limit" ∨ errorType = "rate_limit"
               ∨ errorType = "invalid_request" → reply = errorMessage)).
  { intros e st0. unfold failQuery. rewrite Hproduction.
    pose proof (handleExecutionError_message e (fallbackContent run)) as Hm.
    destruct (handleExecutionError e (fallbackContent run))
      as [[reply0 errorType0] userMessage0].
    simpl in Hm. intros [= <- <- <- <- _]. by split. }
  revert Hfailure. unfold processQuery.
  destruct (getOrCreateContext _ _ run st) as [c0 st0].
  destruct (analysis run) as [[intent entities]|e]; [|apply Hfail].
  destruct (planning run) as [plan|e]; [|apply Hfail].
  destruct (execution run) as [executionResults|e]; [|apply Hfail].
  destruct (synthesis run) as [response|e]; [|apply Hfail].
  destruct (storing run) as [u|e]; [done | apply Hfail].
Qed.

Lemma processQuery_failure_message_witness :
  processQuery helloQuery failingRun initialState
  = (Failure "s1"
       "I had trouble using one of my tools to answer your question. Sorry."
       "tool_failure"
       "I had trouble using one of my tools to answer your question.",
     (processQuery helloQuery failingRun initialState).2)
  ∧ production failingRun = true
  ∧ "s1" = sessionId helloQuery
  ∧ "I had trouble using one of my tools to answer your question."
    ∈ userMessages
  ∧ String.prefix
      "I had trouble using one of my tools to answer your question."
      "I had trouble using one of my tools to answer your question. Sorry."
    = true
  ∧ ("tool_failure" = "context_limit" ∨ "tool_failure" = "rate_limit"
     ∨ "tool_failure" = "invalid_request" →
     "I had trouble using one of my tools to answer your question. Sorry."
     = "I had trouble using one of my tools to answer your question.").
Proof.
  split; [reflexivity|]. split; [reflexivity|].
  exact (processQuery_failure_message helloQuery failingRun initialState
           (processQuery helloQuery failingRun initialState).2 "s1"
           "I had trouble using one of my tools to answer your question. Sorry."
           "tool_failure"
           "I had trouble using one of my tools to answer your question."
           eq_refl eq_refl).
Defined.

(** * Further properties of the sweep *)

(** X26.  The sweep accounts for every context: the contexts it keeps and
    the count it returns add up to the contexts it found.  A second sweep
    with the same bound at the same time finds nothing more to remove. *)
Theorem cleanupIdleContexts_settles (Date_parse : string → option Z)
    (maxAgeMs now : Z) (st : State) :
  (size (activeContexts (cleanupIdleContexts Date_parse maxAgeMs now st).2)
   + (cleanupIdleContexts Date_parse maxAgeMs now st).1
   = size (activeContexts st))%nat
  ∧ cleanupIdleContexts Date_parse maxAgeMs now
      (cleanupIdleContexts Date_parse maxAgeMs now st).2
    = (0%nat, (cleanupIdleContexts Date_parse maxAgeMs now st).2).
Proof.
  split.
  - rewrite cleanupIdleContexts_kept, cleanupIdleContexts_count.
    rewrite map_size_list_to_map.
    + rewrite <- (length_map_to_list (activeContexts st)).
      apply length_filter_split.
    + apply (sublist_NoDup _ (map_to_list (activeContexts st)).*1);
        [apply NoDup_fst_map_to_list | apply fmap_sublist, sublist_filter].
  - set (st1 := (cleanupIdleContexts Date_parse maxAgeMs now st).2).
    assert (Hkept : ∀ sid c, activeContexts st1 !! sid = Some c →
              isIdle Date_parse maxAgeMs now c = false).
    { intros sid c. unfold st1. rewrite cleanupIdleContexts_lookup.
      destruct (activeContexts st !! sid) as [c0|]; [|done].
      destruct (isIdle Date_parse maxAgeMs now c0) eqn:Hidle; [done|].
      by intros [= <-]. }
    rewrite (surjective_pairing (cleanupIdleContexts _ _ _ st1)). f_equal.
    + rewrite cleanupIdleContexts_count. apply length_zero_iff_nil.
      apply filter_none. intros [sid c] Hin. simpl.
      apply elem_of_map_to_list in Hin. rewrite (Hkept sid c Hin). done.
    + pose proof (cleanupIdleContexts_stored Date_parse maxAgeMs now st1)
        as Hstored.
      assert (Hactive : activeContexts
                          (cleanupIdleContexts Date_parse maxAgeMs now st1).2
                        = activeContexts st1).
      { apply map_eq. intros sid. rewrite cleanupIdleContexts_lookup.
        destruct (activeContexts st1 !! sid) as [c|] eqn:Hc; [|done].
        by rewrite (Hkept sid c Hc). }
      destruct (cleanupIdleContexts Date_parse maxAgeMs now st1).2 as [a s].
      destruct st1 as [a1 s1]. simpl in *. by subst.
Qed.

Lemma isIdle_invalid (Date_parse : string → option Z) (maxAgeMs now : Z)
    (c : Context.t) :
  lastUpdatedTime Date_parse (Context.lastUpdated c) = None →
  isIdle Date_parse maxAgeMs now c = false.
Proof. intros Hinvalid. unfold isIdle. by rewrite Hinvalid. Qed.

(** X27.  A context whose [lastUpdated] is not a valid date is never
    evicted: it stays in memory, with that [lastUpdated], through every
    sequence of queries, sweeps with any bound at any time, and timer
    ticks. *)
Theorem invalid_lastUpdated_never_evicted (Date_parse : string → option Z)
    (events : list Event) (st : State) (sid : string) (c : Context.t) :
  activeContexts st !! sid = Some c →
  lastUpdatedTime Date_parse (Context.lastUpdated c) = None →
  ∃ c',
    activeContexts (runEvents Date_parse events st) !! sid = Some c'
    ∧ Context.lastUpdated c' = Context.lastUpdated c.
Proof.
  revert st c. induction events as [|ev events IH]; intros st c Hc Hinvalid.
  - by exists c.
  - assert (Hstep : ∃ c1, activeContexts (stepEvent Date_parse ev st) !! sid
                          = Some c1
                          ∧ Context.lastUpdated c1 = Context.lastUpdated c).
    { destruct ev as [queryData run|maxAgeMs now'|now']; simpl.
      - by apply processQuery_lastUpdated.
      - exists c. rewrite cleanupIdleContexts_lookup, Hc.
        by rewrite isIdle_invalid.
      - exists c. unfold timerCallback.
        rewrite cleanupIdleContexts_lookup, Hc. by rewrite isIdle_invalid. }
    destruct Hstep as (c1 & Hc1 & Hstamp). simpl.
    destruct (IH _ c1 Hc1) as (c' & Hc' & Hstamp').
    + by rewrite Hstamp.
    + exists c'. split; [done|]. by rewrite Hstamp'.
Qed.

Lemma invalid_lastUpdated_never_evicted_witness :
  activeContexts misdatedState !! "s9"
  = Some (createToolExecutionContext "s9" "ann" "ctx-9"
            (DateString "yesterday"))
  ∧ lastUpdatedTime noDate
      (Context.lastUpdated
         (createToolExecutionContext "s9" "ann" "ctx-9"
            (DateString "yesterday"))) = None
  ∧ ∃ c',
      activeContexts
        (runEvents noDate
           [Query helloQuery goodRun; Cleanup 0 1700000000000;
            TimerTick 1800000000000] misdatedState) !! "s9" = Some c'
      ∧ Context.lastUpdated c'
        = Context.lastUpdated
            (createToolExecutionContext "s9" "ann" "ctx-9"
               (DateString "yesterday")).
Proof.
  split; [reflexivity|]. split; [reflexivity|].
  exact (invalid_lastUpdated_never_evicted noDate
           [Query helloQuery goodRun; Cleanup 0 1700000000000;
            TimerTick 1800000000000] misdatedState "s9"
           (createToolExecutionContext "s9" "ann" "ctx-9"
              (DateString "yesterday")) eq_refl eq_refl).
Defined.
